(** * Al-Waseem price list: pricing, grouping pipeline, column registry,
      export tiling, the handlers of the client and the routes of the
      server

    A shallow embedding of the client ([App.tsx]) and of the Express /
    SQLite server of the price list, with the properties of its
    specification stated and settled on the embedding, and further
    properties of the handlers and of the routes behind them.

    Conventions of the model
    - A JavaScript [number] is an IEEE 754 binary64 value.  It is modelled
      by [spec_float] with the operations of [SpecFloat] at precision 53
      and exponent bound 1024: rounding to nearest-even, overflow to an
      infinity, NaN and signed zeros are all present.
    - A JavaScript string is a [string]; the text of the program is UTF-8
      and a string of the model is the UTF-8 byte sequence of the text.
    - The object [groups] of the grouping pipeline, used as a dictionary
      from category names to arrays, is a [gmap string (list Product)].
      Category names are assumed not to be names of [Object.prototype]
      members ("constructor", "toString", ...).
    - [Array.prototype.sort] is stable; it is modelled by the stable
      insertion sort, which is what every conforming engine computes
      when the comparator is a consistent one.
    - The table [products] of the server is a finite map from row ids to
      rows and the table [categories] the list of its rows.  A column
      holds NULL, a number or a text; constraints, and the conversion of
      a text that is a numeral in a numeric column, are not modelled.  An
      [ORDER BY] is the stable sort of the rows scanned in the order of
      their ids, which fixes the order SQLite leaves open among rows of
      equal keys.
    - A value sent as JSON arrives as it was, but for the numbers that
      JSON cannot write: -0 arrives as 0, NaN and the infinities as
      [null]; a key whose value is [undefined] is not sent. *)

From Stdlib Require Import ZArith QArith Qround Qfield Lqa SpecFloat Lia Zpower.
From Stdlib Require Import Ascii String List Permutation Sorted.
From Stdlib Require DecimalString DecimalN.
From stdpp Require Import gmap strings list.

Local Open Scope Z_scope.

(* ===================================================================== *)
(** * JavaScript numbers *)
(* ===================================================================== *)

Module Num.

Definition prec : Z := 53.
Definition emax : Z := 1024.

Definition add : spec_float -> spec_float -> spec_float := SFadd prec emax.
Definition mul : spec_float -> spec_float -> spec_float := SFmul prec emax.
Definition div : spec_float -> spec_float -> spec_float := SFdiv prec emax.

Definition zero : spec_float := S754_zero false.
Definition NaN : spec_float := S754_nan.
Definition Infinity : spec_float := S754_infinity false.

(** An integer, exactly, as a (not normalised) significand with
    exponent 0; only used as an operand of [ratio] and [of_Z]. *)
Definition exact (z : Z) : spec_float :=
  match z with
  | Z0 => S754_zero false
  | Zpos p => S754_finite false p 0
  | Zneg p => S754_finite true p 0
  end.

(** The number value of an integer literal. *)
Definition of_Z (z : Z) : spec_float := binary_normalize prec emax z 0 false.

(** The number value of the decimal fraction [n / d]: the binary64 value
    nearest to it, ties to even.  This is what a decimal literal of the
    program, [JSON.parse] and [parseFloat] produce. *)
Definition ratio (n : Z) (d : positive) : spec_float :=
  div (exact n) (exact (Zpos d)).

Definition isNaN (x : spec_float) : bool :=
  match x with S754_nan => true | _ => false end.

Definition isFinite (x : spec_float) : bool :=
  match x with S754_zero _ | S754_finite _ _ _ => true | _ => false end.

(** [x < 0], and [0 <= x]: comparisons with NaN are false. *)
Definition ltb (x y : spec_float) : bool := SFltb x y.
Definition leb (x y : spec_float) : bool := SFleb x y.

(** ToBoolean on a number: NaN, +0 and -0 are falsy. *)
Definition truthy (x : spec_float) : bool :=
  match x with
  | S754_nan | S754_zero _ => false
  | _ => true
  end.

(** [a || b] on numbers. *)
Definition or (a b : spec_float) : spec_float := if truthy a then a else b.

(** The integer nearest to [(-1)^s * m * 2^e] for [e < 0], ties toward
    +infinity: [floor (x + 1/2)]. *)
Definition nearest_up (s : bool) (m : positive) (e : Z) : Z :=
  (2 * cond_Zopp s (Zpos m) + 2 ^ (- e)) / 2 ^ (1 - e).

(** [Math.round]: NaN, the infinities, the zeros and the integral values
    are returned as they are; a value in [-0.5, 0) gives -0. *)
Definition round (x : spec_float) : spec_float :=
  match x with
  | S754_finite s m e =>
      if 0 <=? e then x
      else match nearest_up s m e with
           | Z0 => S754_zero s
           | n => of_Z n
           end
  | _ => x
  end.

(** The integer a number stands for, when it is finite and integral. *)
Definition to_Z (x : spec_float) : option Z :=
  match x with
  | S754_zero _ => Some 0
  | S754_finite s m e =>
      if 0 <=? e then Some (cond_Zopp s (Zpos m * 2 ^ e))
      else if Zpos m mod 2 ^ (- e) =? 0
           then Some (cond_Zopp s (Zpos m / 2 ^ (- e)))
           else None
  | _ => None
  end.

(** [x < 0] is false: NaN, a zero of either sign, or a positive number. *)
Definition not_negative (x : spec_float) : Prop := ltb x zero = false.

(** The sign bit of a number that is not NaN. *)
Definition has_sign (sx : bool) (x : spec_float) : Prop :=
  match x with
  | S754_nan => False
  | S754_zero s | S754_infinity s | S754_finite s _ _ => s = sx
  end.

(** The rational a finite number stands for (0 for the others). *)
Definition to_Q (x : spec_float) : Q :=
  match x with
  | S754_finite s m e =>
      if 0 <=? e then inject_Z (cond_Zopp s (Zpos m * 2 ^ e))
      else Qmake (cond_Zopp s (Zpos m)) (Z.to_pos (2 ^ (- e)))
  | _ => 0%Q
  end.

End Num.

(** The two rounding rules in the words of the specification: to the
    nearest integer, a tie going toward +infinity ("half up") or away from
    zero ("half away from zero"). *)
Definition round_half_up (x : Q) : Z := Qfloor (x + (1 # 2)).

Definition round_half_away_from_zero (x : Q) : Z :=
  if Qle_bool 0 x then Qfloor (x + (1 # 2)) else - Qfloor (- x + (1 # 2)).

Notation "x '+f' y" := (Num.add x y) (at level 50, left associativity).
Notation "x '*f' y" := (Num.mul x y) (at level 40, left associativity).
Notation "x '/f' y" := (Num.div x y) (at level 40, left associativity).

(* ===================================================================== *)
(** * JavaScript values and the product record *)
(* ===================================================================== *)

(** The values a JSON document or a form field can put in a numeric field
    of a product or in the exchange rate. *)
Inductive jsval :=
| JUndefined
| JNull
| JBool (b : bool)
| JNum (x : spec_float)
| JStr (s : string).

(** [types.ts], interface [Category]. *)
Record Category := {
  cat_id : Z;
  cat_name : string;
  sort_order : Z
}.

(** [types.ts], interface [Product].  The three fields the price
    calculator coerces with [Number(...)] and the other money fields are
    kept as JavaScript values: the JSON of the server can carry [null] or
    text there. *)
Record Product := {
  id : Z;
  category_id : Z;
  category_name : string;
  category_sort_order : Z;
  name : string;
  cost_usd : jsval;
  profit_syp : jsval;
  wholesale_profit_syp : jsval;
  carton_usd : jsval;
  wholesale_carton_usd : jsval;
  is_hidden : Z
}.

(* ===================================================================== *)
(** * Price calculator: [calculateSYP] *)
(* ===================================================================== *)

Section Pricing.

(** [StringToNumber] of the language: the number a string converts to
    under [Number(...)].  The calculator is studied for every such
    conversion. *)
Variable StringToNumber : string -> spec_float.

(** [Number(v)] *)
Definition Number (v : jsval) : spec_float :=
  match v with
  | JUndefined => Num.NaN
  | JNull => Num.zero
  | JBool true => Num.of_Z 1
  | JBool false => Num.zero
  | JNum x => x
  | JStr s => StringToNumber s
  end.

Definition rate_of (globalRate : jsval) : spec_float :=
  Num.or (Number globalRate) Num.zero.

Definition costUsd_of (product : Product) : spec_float :=
  Num.or (Num.or (Number (cost_usd product)) (Number (carton_usd product))) Num.zero.

Definition profit_of (product : Product) : spec_float :=
  Num.or (Number (profit_syp product)) Num.zero.

(** [const base = (costUsd * rate) + profit] *)
Definition base_of (globalRate : jsval) (product : Product) : spec_float :=
  (costUsd_of product *f rate_of globalRate) +f profit_of product.

(** [const result = Math.round(base / 500) * 500] *)
Definition result_of (globalRate : jsval) (product : Product) : spec_float :=
  Num.round (base_of globalRate product /f Num.of_Z 500) *f Num.of_Z 500.

(** [calculateSYP], with the [globalRate] it closes over as an argument. *)
Definition calculateSYP (globalRate : jsval) (product : Product) : spec_float :=
  let result := result_of globalRate product in
  if Num.isNaN result then Num.zero else result.

End Pricing.

(* ===================================================================== *)
(** * View state store: [parseNumber] *)
(* ===================================================================== *)

Definition is_digit (c : ascii) : bool :=
  (48 <=? nat_of_ascii c)%nat && (nat_of_ascii c <=? 57)%nat.

Definition is_dot (c : ascii) : bool := Ascii.eqb c ".".
Definition is_comma (c : ascii) : bool := Ascii.eqb c ",".

Definition digit_value (c : ascii) : Z := Z.of_nat (nat_of_ascii c - 48).

(** [s.replace(/,/g, '.')] *)
Fixpoint replace_commas (s : string) : string :=
  match s with
  | EmptyString => EmptyString
  | String c r => String (if is_comma c then "."%char else c) (replace_commas r)
  end.

(** [s.replace(/[^0-9.]/g, '')] *)
Fixpoint strip_non_numeric (s : string) : string :=
  match s with
  | EmptyString => EmptyString
  | String c r =>
      if is_digit c || is_dot c then String c (strip_non_numeric r)
      else strip_non_numeric r
  end.

(** The run of decimal digits at the head of [s], read onto the value
    [acc]: the value, the number of digits read and the rest of the text. *)
Fixpoint read_digits (acc : Z) (count : nat) (s : string) : Z * nat * string :=
  match s with
  | String c r =>
      if is_digit c then read_digits (10 * acc + digit_value c) (S count) r
      else (acc, count, s)
  | EmptyString => (acc, count, s)
  end.

(** [parseFloat] on a text of digits and dots (after the two replacements
    of [parseNumber] no sign, exponent, blank or letter is left): the
    longest prefix [digits], [digits.], [digits.digits] or [.digits] is
    converted, and a text with no such prefix gives NaN. *)
Definition parseFloat (s : string) : spec_float :=
  let '(int_value, int_count, rest) := read_digits 0 0 s in
  match rest with
  | String "." r =>
      let '(value, frac_count, _) := read_digits int_value 0 r in
      if (int_count + frac_count =? 0)%nat then Num.NaN
      else Num.ratio value (Z.to_pos (10 ^ Z.of_nat frac_count))
  | _ =>
      if (int_count =? 0)%nat then Num.NaN else Num.ratio int_value 1
  end.

(** [val.toString()] for the values of [jsval] that reach it. *)
Definition toString (v : jsval) : string :=
  match v with
  | JStr s => s
  | JBool true => "true"
  | JBool false => "false"
  | _ => ""
  end.

Definition parseNumber (val : jsval) : spec_float :=
  match val with
  | JNull | JUndefined | JStr EmptyString => Num.zero
  | JNum x => x
  | _ =>
      let cleaned := strip_non_numeric (replace_commas (toString val)) in
      let num := parseFloat cleaned in
      if Num.isNaN num then Num.zero else num
  end.

(* ===================================================================== *)
(** * Column registry: the [visibleColumns] initializer *)
(* ===================================================================== *)

(** [String.prototype.includes] *)
Fixpoint string_includes (s sub : string) : bool :=
  String.prefix sub s ||
  match s with
  | EmptyString => false
  | String _ r => string_includes r sub
  end.

(** A parsed JSON document. *)
#[warnings="-register-all"]
Inductive json :=
| JSnull
| JSbool (b : bool)
| JSnum (x : spec_float)
| JSstr (s : string)
| JSarr (items : list json)
| JSobj (fields : list (string * json)).

Definition is_string (x : string) (v : json) : bool :=
  match v with JSstr s => String.eqb s x | _ => false end.

(** [v.includes(x)] for a string [x], on the two kinds of value that have
    the method: arrays (an element equal to [x]) and strings (substring). *)
Definition includes (v : json) (x : string) : bool :=
  match v with
  | JSarr items => existsb (is_string x) items
  | JSstr s => string_includes s x
  | _ => false
  end.

Definition DEFAULT_COLUMNS : list string :=
  ["name"; "syp_final"; "cost_usd"; "profit_syp"; "wholesale_carton_usd";
   "lsg"; "case_usd"; "wholesale_case_usd"]%string.

Definition DEFAULT_VISIBLE : list string :=
  ["name"; "syp_final"; "cost_usd"; "profit_syp"; "wholesale_carton_usd"; "lsg"]%string.

Definition columns_value (ids : list string) : json := JSarr (map JSstr ids).

Section ColumnRegistry.

(** [JSON.parse]; [None] when it throws. *)
Variable JSON_parse : string -> option json.

(** The initializer of the [visibleColumns] state.  [saved] is the
    result of [localStorage.getItem('visibleColumns')], [None] for
    [null].  Reading [.length] of [null], or calling the missing
    [.includes] of a number, a boolean or an object, throws inside the
    [try] and ends in the [catch]. *)
Definition visibleColumns_init (saved : option string) : json :=
  match saved with
  | None | Some EmptyString => columns_value DEFAULT_VISIBLE
  | Some text =>
      match JSON_parse text with
      | None => columns_value DEFAULT_VISIBLE
      | Some parsed =>
          match parsed with
          | JSarr items =>
              if (length items =? 0)%nat || negb (includes parsed "name")
              then columns_value DEFAULT_VISIBLE else parsed
          | JSstr s =>
              if (String.length s =? 0)%nat || negb (includes parsed "name")
              then columns_value DEFAULT_VISIBLE else parsed
          | JSnull | JSbool _ | JSnum _ | JSobj _ => columns_value DEFAULT_VISIBLE
          end
      end
  end.

End ColumnRegistry.

(* ===================================================================== *)
(** * Grouping / filtering pipeline: [groupedData] and [flattenedData] *)
(* ===================================================================== *)

(** [Array.prototype.sort(cmp)]: [x] is put in front of the first [y] it
    does not follow ([cmp x y <= 0]), so equal elements keep their order. *)
Fixpoint sort_insert {A : Type} (cmp : A -> A -> Z) (x : A) (l : list A) : list A :=
  match l with
  | [] => [x]
  | y :: r => if cmp x y <=? 0 then x :: y :: r else y :: sort_insert cmp x r
  end.

Definition sort {A : Type} (cmp : A -> A -> Z) (l : list A) : list A :=
  fold_right (sort_insert cmp) [] l.

(** [a] need not come after [b] under the comparator. *)
Definition precedes {A : Type} (cmp : A -> A -> Z) (a b : A) : Prop := cmp a b <= 0.

(** A comparator is consistent when [precedes] is total and transitive. *)
Definition consistent {A : Type} (cmp : A -> A -> Z) : Prop :=
  (forall a b, precedes cmp a b \/ precedes cmp b a) /\
  (forall a b c, precedes cmp a b -> precedes cmp b c -> precedes cmp a c).

(** The view state the pipeline reads. *)
Record FilterState := {
  searchQuery : string;
  selectedCategory : string;
  showHidden : bool
}.

(** The bucket of the products without a category name. *)
Definition uncategorized : string := "غير مصنف".

(** [p.category_name || 'غير مصنف'] *)
Definition group_key (p : Product) : string :=
  if String.eqb (category_name p) "" then uncategorized else category_name p.

(** [!p.is_hidden] *)
Definition not_hidden (p : Product) : bool := is_hidden p =? 0.

(** [(a, b) => a.sort_order - b.sort_order] *)
Definition compareCategories (a b : Category) : Z := sort_order a - sort_order b.

(** The result of [groupedData]. *)
Record GroupedData := {
  categories_of : list string;
  products_of : list Product;
  counts_of : list nat
}.

(** A row of the flattened view. *)
Inductive ViewRow :=
| CategoryRow (name : string)
| ProductRow (row : Product).

(** A row of the body of the export table. *)
Inductive ExportRow :=
| ExportCategory (cat : Category)
| ExportProduct (p : Product).

Section Pipeline.

(** [String.prototype.toLowerCase] and [String.prototype.localeCompare]
    are those of the engine and of its locale. *)
Variable toLowerCase : string -> string.
Variable localeCompare : string -> string -> Z.

(** The comparator of the products: category sort order, then name. *)
Definition compareProducts (a b : Product) : Z :=
  let catComp := category_sort_order a - category_sort_order b in
  if negb (catComp =? 0) then catComp
  else localeCompare (name a) (name b).

(** The predicate of [sorted.filter(...)]. *)
Definition passes (st : FilterState) (p : Product) : bool :=
  let nameMatch :=
    string_includes (toLowerCase (name p)) (toLowerCase (searchQuery st)) in
  let catMatch :=
    string_includes (toLowerCase (category_name p)) (toLowerCase (searchQuery st)) in
  let categoryFilterMatch :=
    String.eqb (selectedCategory st) "all" ||
    String.eqb (category_name p) (selectedCategory st) in
  let visibilityMatch := showHidden st || not_hidden p in
  (nameMatch || catMatch) && categoryFilterMatch && visibilityMatch.

(** One step of [filtered.forEach]: create the bucket if it is missing,
    then push. *)
Definition push_group (groups : gmap string (list Product)) (p : Product)
  : gmap string (list Product) :=
  let cat := group_key p in
  <[cat := default [] (groups !! cat) ++ [p]]> groups.

Definition build_groups (filtered : list Product) : gmap string (list Product) :=
  fold_left push_group filtered ∅.

(** [groups[name]] used as a truth value. *)
Definition has_group (groups : gmap string (list Product)) (name : string) : bool :=
  match groups !! name with Some _ => true | None => false end.

(** [groups[cat]] where it is known to exist. *)
Definition group_of (groups : gmap string (list Product)) (cat : string) : list Product :=
  default [] (groups !! cat).

Definition filtered_of (products : list Product) (st : FilterState) : list Product :=
  List.filter (passes st) (sort compareProducts products).

Definition orderedCategories_of
  (groups : gmap string (list Product)) (categories : list Category) : list string :=
  let ordered :=
    List.filter (has_group groups) (map cat_name (sort compareCategories categories)) in
  if has_group groups uncategorized && negb (existsb (String.eqb uncategorized) ordered)
  then ordered ++ [uncategorized]
  else ordered.

Definition groupedData
  (products : list Product) (categories : list Category) (st : FilterState) : GroupedData :=
  let groups := build_groups (filtered_of products st) in
  let orderedCategories := orderedCategories_of groups categories in
  {| categories_of := orderedCategories;
     products_of := flat_map (group_of groups) orderedCategories;
     counts_of := map (fun cat => length (group_of groups cat)) orderedCategories |}.

(** [flattenedData]: the loop over the table rows, with [lastCategory]
    threaded through. *)
Fixpoint flatten_from (lastCategory : string) (tableRows : list Product) : list ViewRow :=
  match tableRows with
  | [] => []
  | product :: rest =>
      let catName := group_key product in
      if negb (String.eqb catName lastCategory)
      then CategoryRow catName :: ProductRow product :: flatten_from catName rest
      else ProductRow product :: flatten_from lastCategory rest
  end.

(** The table rows are the rows of [groupedData.products], in order. *)
Definition flattenedData
  (products : list Product) (categories : list Category) (st : FilterState) : list ViewRow :=
  flatten_from "" (products_of (groupedData products categories st)).

(** The body of the export table: for each category in sort order, the
    products of that category id that are not hidden (or all of them when
    hidden products are shown), sorted by name; a category without such a
    product renders nothing. *)
Definition export_category (products : list Product) (st : FilterState) (cat : Category)
  : list ExportRow :=
  let catProducts :=
    List.filter (fun p => (category_id p =? cat_id cat) && (showHidden st || not_hidden p))
                products in
  match catProducts with
  | [] => []
  | _ =>
      ExportCategory cat ::
      map ExportProduct
          (sort (fun a b => localeCompare (name a) (name b)) catProducts)
  end.

Definition exportRows
  (products : list Product) (categories : list Category) (st : FilterState) : list ExportRow :=
  flat_map (export_category products st) (sort compareCategories categories).

End Pipeline.

(** The product rows of a view and of an export, in order. *)
Definition view_products (rows : list ViewRow) : list Product :=
  flat_map (fun r => match r with ProductRow p => [p] | CategoryRow _ => [] end) rows.

Definition view_headers (rows : list ViewRow) : list string :=
  flat_map (fun r => match r with CategoryRow c => [c] | ProductRow _ => [] end) rows.

Definition export_products (rows : list ExportRow) : list Product :=
  flat_map (fun r => match r with ExportProduct p => [p] | ExportCategory _ => [] end) rows.

(** A row of [GET /api/products]: the product joined with the category
    its [category_id] refers to, whose name is not empty. *)
Definition joined (categories : list Category) (p : Product) : Prop :=
  category_name p <> "" /\
  exists c, In c categories /\ cat_id c = category_id p /\
            cat_name c = category_name p /\ sort_order c = category_sort_order p.

(* ===================================================================== *)
(** * Export tiler: the page loop of [handleExportPDF] *)
(* ===================================================================== *)

(** Lengths (millimetres of the page, pixels of the canvas) are exact
    rationals in this part: the page is 78 by 311, the canvas sizes are
    integers, and the rounding of the three quotients is left out. *)
Module Tiler.

Local Open Scope Q_scope.

(** One [pdf.addImage(imgData, 'JPEG', x, y, w, h, ...)]. *)
Record Placement := {
  at_x : Q;
  at_y : Q;
  width : Q;
  height : Q
}.

(** A [jsPDF] document: its pages in order, each with the images drawn on
    it; the last page is the current one, and a new document has one. *)
Definition PDF : Type := list (list Placement).

Definition new_jsPDF : PDF := [[]]%list.

Definition addPage (pdf : PDF) : PDF := (pdf ++ [[]])%list.

Definition addImage (img : Placement) (pdf : PDF) : PDF :=
  match rev pdf with
  | current :: before => (rev before ++ [(current ++ [img])%list])%list
  | []%list => []%list
  end.

Section Geometry.

Variables pdfWidth pdfPageHeight imgWidth imgHeight : Q.

(** [(pdfPageHeight * imgWidth) / pdfWidth] *)
Definition imgPageHeightInPixels : Q := (pdfPageHeight * imgWidth) / pdfWidth.

(** [Math.ceil(imgHeight / imgPageHeightInPixels)] *)
Definition totalPages : Z := Qceiling (imgHeight / imgPageHeightInPixels).

(** [(imgHeight * pdfWidth) / imgWidth] *)
Definition pdfImgHeight : Q := (imgHeight * pdfWidth) / imgWidth.

(** [const position = -(pdfPageHeight * i)] *)
Definition position (i : Z) : Q := - (pdfPageHeight * inject_Z i).

(** The image as page [i] receives it:
    [addImage(imgData, 'JPEG', 0, position, pdfWidth, pdfImgHeight, ...)]. *)
Definition image (i : Z) : Placement :=
  {| at_x := 0; at_y := position i; width := pdfWidth; height := pdfImgHeight |}.

(** The body of the [for] loop at index [i]. *)
Definition page_step (i : Z) (pdf : PDF) : PDF :=
  let pdf := if (0 <? i)%Z then addPage pdf else pdf in
  addImage (image i) pdf.

(** [for (let i = 0; i < totalPages; i++) ...], with [remaining] the
    number of iterations left. *)
Fixpoint page_loop (remaining : nat) (i : Z) (pdf : PDF) : PDF :=
  match remaining with
  | O => pdf
  | S n => page_loop n (i + 1)%Z (page_step i pdf)
  end.

Definition export_pages : PDF := page_loop (Z.to_nat totalPages) 0%Z new_jsPDF.

(** The document of [n] pages with the images [i], [i+1], ... one on
    each. *)
Fixpoint pages_from (i : Z) (n : nat) : PDF :=
  match n with
  | O => []%list
  | S n' => ([image i] :: pages_from (i + 1) n')%list
  end.

(** Millimetres of the page for one pixel row of the canvas. *)
Definition scale : Q := pdfImgHeight / imgHeight.

(** The source row [y] (a height in pixels from the top of the canvas) is
    drawn at [at_y + y * height / imgHeight] on the page of a placement;
    it shows when that is inside the page. *)
Definition shows (img : Placement) (y : Q) : Prop :=
  0 <= at_y img + y * (height img / imgHeight) /\
  at_y img + y * (height img / imgHeight) < pdfPageHeight.

End Geometry.

(** [handleExportPDF] fixes the page to 78 mm by 311 mm. *)
Definition handleExportPDF (imgWidth imgHeight : Q) : PDF :=
  export_pages 78 311 imgWidth imgHeight.

End Tiler.

(* ===================================================================== *)
(** * Server: [PUT /api/products/:id] *)
(* ===================================================================== *)

Module Server.

(** A value of a column of SQLite. *)
Inductive sqlval :=
| SqlNull
| SqlReal (x : spec_float)
| SqlText (s : string).

(** A row of the table [products]. *)
Record row := {
  r_category_id : sqlval;
  r_name : sqlval;
  r_cost_usd : sqlval;
  r_profit_syp : sqlval;
  r_wholesale_profit_syp : sqlval;
  r_carton_usd : sqlval;
  r_wholesale_carton_usd : sqlval;
  r_is_hidden : sqlval
}.

(** The fields the handler reads from [req.body]; a field the request
    does not name is [JUndefined]. *)
Record body := {
  b_name : jsval;
  b_cost_usd : jsval;
  b_profit_syp : jsval;
  b_wholesale_profit_syp : jsval;
  b_carton_usd : jsval;
  b_wholesale_carton_usd : jsval;
  b_category_id : jsval;
  b_is_hidden : jsval
}.

(** The binding of a parameter by [better-sqlite3]: [undefined] and
    [null] bind NULL, a number binds a REAL, a string binds TEXT and a
    boolean is refused ([None]: [run] throws and nothing is written). *)
Definition bind (v : jsval) : option sqlval :=
  match v with
  | JUndefined | JNull => Some SqlNull
  | JNum x => Some (SqlReal x)
  | JStr s => Some (SqlText s)
  | JBool _ => None
  end.

(** [COALESCE(a, b)] *)
Definition COALESCE (a b : sqlval) : sqlval :=
  match a with SqlNull => b | _ => a end.

(** [cost_usd !== undefined ? cost_usd : carton_usd] *)
Definition effectiveCartonUsd (req : body) : jsval :=
  match b_cost_usd req with
  | JUndefined => b_carton_usd req
  | v => v
  end.

(** The [UPDATE ... SET ...] of the handler on the row it selects. *)
Definition update_row (req : body) (r : row) : option row :=
  name ← bind (b_name req);
  cost_usd ← bind (b_cost_usd req);
  profit_syp ← bind (b_profit_syp req);
  wholesale_profit_syp ← bind (b_wholesale_profit_syp req);
  effective_carton ← bind (effectiveCartonUsd req);
  carton_usd ← bind (b_carton_usd req);
  wholesale_carton_usd ← bind (b_wholesale_carton_usd req);
  category_id ← bind (b_category_id req);
  is_hidden ← bind (b_is_hidden req);
  Some {| r_name := COALESCE name (r_name r);
          r_cost_usd := COALESCE cost_usd (r_cost_usd r);
          r_profit_syp := COALESCE profit_syp (r_profit_syp r);
          r_wholesale_profit_syp := COALESCE wholesale_profit_syp (r_wholesale_profit_syp r);
          r_carton_usd := COALESCE effective_carton carton_usd;
          r_wholesale_carton_usd := COALESCE wholesale_carton_usd (r_wholesale_carton_usd r);
          r_category_id := COALESCE category_id (r_category_id r);
          r_is_hidden := COALESCE is_hidden (r_is_hidden r) |}.

(** The handler on the table, keyed by [id]: [WHERE id = ?].  A request
    that cannot be bound leaves the table as it is. *)
Definition updateProduct (id : Z) (req : body) (products : gmap Z row) : gmap Z row :=
  match products !! id with
  | Some r =>
      match update_row req r with
      | Some r' => <[id := r']> products
      | None => products
      end
  | None => products
  end.

(** A field the request leaves out, or gives as [null]. *)
Definition unnamed (v : jsval) : Prop := v = JUndefined \/ v = JNull.

(** A request that names no field. *)
Definition no_fields : body :=
  {| b_name := JUndefined; b_cost_usd := JUndefined; b_profit_syp := JUndefined;
     b_wholesale_profit_syp := JUndefined; b_carton_usd := JUndefined;
     b_wholesale_carton_usd := JUndefined; b_category_id := JUndefined;
     b_is_hidden := JUndefined |}.

End Server.

(* ===================================================================== *)
(** * Sample data *)
(* ===================================================================== *)

Module Samples.

(** A conversion of strings that knows no numeral: every string is NaN. *)
Definition no_numeral (s : string) : spec_float := Num.NaN.

(** The first product of the seed of the server, in the first category,
    with the three fields of the price left open. *)
Definition marlboro (cost profit carton : jsval) : Product :=
  {| id := 1; category_id := 1; category_name := "عام"; category_sort_order := 0;
     name := "مالبورو ابيض كرتون حرة الاصلي";
     cost_usd := cost; profit_syp := profit;
     wholesale_profit_syp := JNum (Num.of_Z 250);
     carton_usd := carton;
     wholesale_carton_usd := JNum (Num.ratio 2230 100);
     is_hidden := 0 |}.

(** Scenario 2 of the specification: no cost, legacy carton cost 22.56,
    profit 500. *)
Definition legacy_product : Product :=
  marlboro (JNum Num.zero) (JNum (Num.of_Z 500)) (JNum (Num.ratio 2256 100)).

(** Scenario 1 of the specification: cost 4.74, profit 500. *)
Definition plain_product : Product :=
  marlboro (JNum (Num.ratio 474 100)) (JNum (Num.of_Z 500)) (JNum (Num.ratio 474 100)).

(** A product sold at a loss: no cost, profit -1250. *)
Definition loss_product : Product :=
  marlboro (JNum Num.zero) (JNum (Num.of_Z (-1250))) JNull.

(** A product of cost 1 and profit 500. *)
Definition unit_product : Product :=
  marlboro (JNum (Num.of_Z 1)) (JNum (Num.of_Z 500)) JNull.

Definition rate_11700 : jsval := JNum (Num.of_Z 11700).

(** A product of no cost and a profit just above 2^55. *)
Definition huge_product : Product :=
  marlboro (JNum Num.zero) (JNum (Num.of_Z 36028797018964248)) JNull.

(** Two categories of the seed, listed out of order. *)
Definition general : Category := {| cat_id := 1; cat_name := "عام"; sort_order := 0 |}.
Definition brand_1970 : Category := {| cat_id := 2; cat_name := "1970"; sort_order := 1 |}.
Definition categories : list Category := [brand_1970; general].

(** A hidden product of the first category and a product of the second. *)
Definition winston : Product :=
  {| id := 7; category_id := 1; category_name := "عام"; category_sort_order := 0;
     name := "ونستون قصير ازرق و فضي حرة";
     cost_usd := JNum (Num.ratio 1482 100); profit_syp := JNum (Num.of_Z 500);
     wholesale_profit_syp := JNum (Num.of_Z 250);
     carton_usd := JNum (Num.ratio 1482 100);
     wholesale_carton_usd := JNum (Num.ratio 1450 100);
     is_hidden := 1 |}.

Definition blue_1970 : Product :=
  {| id := 8; category_id := 2; category_name := "1970"; category_sort_order := 1;
     name := "1970ازرق طویل شركة";
     cost_usd := JNum (Num.ratio 474 100); profit_syp := JNum (Num.of_Z 500);
     wholesale_profit_syp := JNum (Num.of_Z 250);
     carton_usd := JNum (Num.ratio 474 100);
     wholesale_carton_usd := JNum (Num.ratio 470 100);
     is_hidden := 0 |}.

Definition products : list Product := [blue_1970; winston; legacy_product].

(** No search, every category, hidden products not shown. *)
Definition no_filter : FilterState :=
  {| searchQuery := ""; selectedCategory := "all"; showHidden := false |}.

(** A search for the text 1970. *)
Definition search_1970 : FilterState :=
  {| searchQuery := "1970"; selectedCategory := "all"; showHidden := false |}.

(** [toLowerCase] on texts without cased letters, as those above. *)
Definition uncased (s : string) : string := s.

(** A collation: the order of the bytes. *)
Definition byte_order (a b : string) : Z :=
  match String.compare a b with Lt => -1 | Eq => 0 | Gt => 1 end.

(** A [JSON.parse] that knows the text of the empty array only. *)
Definition parse_empty_array (text : string) : option json :=
  if String.eqb text "[]" then Some (JSarr []) else None.

(** A row of the table of the server with a legacy carton cost, and the
    request of the context menu that hides a product. *)
Definition legacy_row : Server.row :=
  {| Server.r_category_id := Server.SqlReal (Num.of_Z 1);
     Server.r_name := Server.SqlText "مالبورو ابيض كرتون حرة الاصلي";
     Server.r_cost_usd := Server.SqlReal Num.zero;
     Server.r_profit_syp := Server.SqlReal (Num.of_Z 500);
     Server.r_wholesale_profit_syp := Server.SqlReal (Num.of_Z 250);
     Server.r_carton_usd := Server.SqlReal (Num.ratio 2256 100);
     Server.r_wholesale_carton_usd := Server.SqlReal (Num.ratio 2230 100);
     Server.r_is_hidden := Server.SqlReal Num.zero |}.

Definition hide_request : Server.body :=
  {| Server.b_name := JUndefined; Server.b_cost_usd := JUndefined;
     Server.b_profit_syp := JUndefined; Server.b_wholesale_profit_syp := JUndefined;
     Server.b_carton_usd := JUndefined; Server.b_wholesale_carton_usd := JUndefined;
     Server.b_category_id := JUndefined; Server.b_is_hidden := JNum (Num.of_Z 1) |}.

(** The text of 1 followed by 309 zeros. *)
Definition digits_310 : string :=
  String "1" (string_of_list_ascii (repeat "0"%char 309)).

End Samples.

(* ===================================================================== *)
(** * Column registry: the order, the toggles and the rendered columns *)
(* ===================================================================== *)

(** A byte that continues a UTF-8 sequence. *)
Definition is_continuation (c : ascii) : bool :=
  (128 <=? nat_of_ascii c)%nat && (nat_of_ascii c <? 192)%nat.

Definition starts_with_continuation (s : string) : bool :=
  match s with
  | String c _ => is_continuation c
  | EmptyString => false
  end.

(** The code points of a text, each as a text of its own: what the
    iterator of a string yields. *)
Fixpoint code_points (s : string) : list string :=
  match s with
  | EmptyString => []
  | String c r =>
      match code_points r with
      | chunk :: more =>
          if starts_with_continuation chunk then String c chunk :: more
          else String c EmptyString :: chunk :: more
      | [] => [String c EmptyString]
      end
  end.

(** [[...v]]: an array is copied, a string is spread into its code
    points, and the other values of JSON are not iterable ([None]: the
    spread throws). *)
Definition spread (v : json) : option (list json) :=
  match v with
  | JSarr items => Some items
  | JSstr s => Some (map JSstr (code_points s))
  | JSnull | JSbool _ | JSnum _ | JSobj _ => None
  end.

(** [DEFAULT_COLUMNS.forEach(col => { if (!merged.includes(col))
    merged.push(col); })] *)
Definition push_missing (merged : list json) (col : string) : list json :=
  if includes (JSarr merged) col then merged else merged ++ [JSstr col].

Definition merge_defaults (parsed : list json) : list json :=
  fold_left push_missing DEFAULT_COLUMNS parsed.

Section ColumnOrder.

Variable JSON_parse : string -> option json.

(** The initializer of the [columnOrder] state; [saved] is the result of
    [localStorage.getItem('columnOrder')]. *)
Definition columnOrder_init (saved : option string) : list json :=
  match saved with
  | None | Some EmptyString => map JSstr DEFAULT_COLUMNS
  | Some text =>
      match JSON_parse text with
      | None => map JSstr DEFAULT_COLUMNS
      | Some parsed =>
          match spread parsed with
          | None => map JSstr DEFAULT_COLUMNS
          | Some merged => merge_defaults merged
          end
      end
  end.

End ColumnOrder.

(** The ids of the array [columns], in its order. *)
Definition COLUMN_IDS : list string :=
  ["name"; "syp_final"; "cost_usd"; "profit_syp"; "wholesale_carton_usd";
   "case_usd"; "wholesale_case_usd"; "lsg"; "actions"]%string.

(** [columns.find(col => col.id === id)], a column standing for its id. *)
Definition find_column (id : string) : option string :=
  List.find (String.eqb id) COLUMN_IDS.

(** A state declared [string[]] read as such: the strings of an array
    of strings. *)
Definition column_id (v : json) : option string :=
  match v with JSstr s => Some s | _ => None end.

Definition strings_of (v : list json) : option (list string) := mapM column_id v.

(** [filteredColumns]: the columns of [columnOrder] that are visible and
    known, and the actions column behind them while a row is edited. *)
Definition filteredColumns
  (columnOrder : list string) (visibleColumns : json) (editing : bool) : list string :=
  let orderedCols :=
    omap find_column (List.filter (includes visibleColumns) columnOrder) in
  if editing then
    match find_column "actions" with
    | Some actionsCol => orderedCols ++ [actionsCol]
    | None => orderedCols
    end
  else orderedCols.

(** The updater of the visibility check box:
    [prev.includes(colId) ? prev.filter(id => id !== colId) : [...prev, colId]].
    A string has no [filter] and the other values no [includes]: [None]
    when the updater throws. *)
Definition toggleColumn (colId : string) (prev : json) : option json :=
  match prev with
  | JSarr items =>
      if includes prev colId
      then Some (JSarr (List.filter (fun v => negb (is_string colId v)) items))
      else Some (JSarr (items ++ [JSstr colId]))
  | JSstr s =>
      if includes prev colId then None
      else Some (JSarr (map JSstr (code_points s) ++ [JSstr colId]))
  | JSnull | JSbool _ | JSnum _ | JSobj _ => None
  end.

(** [[l[i], l[j]] = [l[j], l[i]]] on two indices of the array. *)
Definition swap_items {A : Type} (i j : nat) (l : list A) : list A :=
  match l !! i, l !! j with
  | Some a, Some b => <[i := b]> (<[j := a]> l)
  | _, _ => l
  end.

(** The two arrow buttons of a row of the settings, on a copy of the
    array.  The first is disabled at index 0 and the second at the last
    index: a click does nothing there. *)
Definition moveUp {A : Type} (index : nat) (l : list A) : list A :=
  match index with
  | O => l
  | S before => swap_items before index l
  end.

Definition moveDown {A : Type} (index : nat) (l : list A) : list A :=
  if (S index =? length l)%nat then l else swap_items (S index) index l.

(* ===================================================================== *)
(** * Product handlers of the client *)
(* ===================================================================== *)

(** [Partial<Product>]: the keys an update names. *)
Record Updates := {
  u_id : option Z;
  u_category_id : option Z;
  u_category_name : option string;
  u_category_sort_order : option Z;
  u_name : option string;
  u_cost_usd : option jsval;
  u_profit_syp : option jsval;
  u_wholesale_profit_syp : option jsval;
  u_carton_usd : option jsval;
  u_wholesale_carton_usd : option jsval;
  u_is_hidden : option Z
}.

Definition no_updates : Updates :=
  {| u_id := None; u_category_id := None; u_category_name := None;
     u_category_sort_order := None; u_name := None; u_cost_usd := None;
     u_profit_syp := None; u_wholesale_profit_syp := None; u_carton_usd := None;
     u_wholesale_carton_usd := None; u_is_hidden := None |}.

(** [{ ...p, ...updates }] *)
Definition apply_updates (p : Product) (updates : Updates) : Product :=
  {| id := default (id p) (u_id updates);
     category_id := default (category_id p) (u_category_id updates);
     category_name := default (category_name p) (u_category_name updates);
     category_sort_order := default (category_sort_order p) (u_category_sort_order updates);
     name := default (name p) (u_name updates);
     cost_usd := default (cost_usd p) (u_cost_usd updates);
     profit_syp := default (profit_syp p) (u_profit_syp updates);
     wholesale_profit_syp := default (wholesale_profit_syp p) (u_wholesale_profit_syp updates);
     carton_usd := default (carton_usd p) (u_carton_usd updates);
     wholesale_carton_usd := default (wholesale_carton_usd p) (u_wholesale_carton_usd updates);
     is_hidden := default (is_hidden p) (u_is_hidden updates) |}.

(** The state updater of [handleUpdateProduct]:
    [prev.map(p => p.id === id ? { ...p, ...updates } : p)]. *)
Definition updated_products (pid : Z) (updates : Updates) (prev : list Product)
  : list Product :=
  map (fun p => if id p =? pid then apply_updates p updates else p) prev.

(** The state updater of [handleDeleteProduct]:
    [prev.filter(p => p.id !== id)]. *)
Definition remaining_products (pid : Z) (prev : list Product) : list Product :=
  List.filter (fun p => negb (id p =? pid)) prev.

(** The click of the context menu that hides or shows a product:
    [{ is_hidden: product.is_hidden === 1 ? 0 : 1 }]. *)
Definition toggle_hidden (product : Product) : Updates :=
  {| u_id := None; u_category_id := None; u_category_name := None;
     u_category_sort_order := None; u_name := None; u_cost_usd := None;
     u_profit_syp := None; u_wholesale_profit_syp := None; u_carton_usd := None;
     u_wholesale_carton_usd := None;
     u_is_hidden := Some (if is_hidden product =? 1 then 0 else 1) |}.

(** The text fields of the row being edited. *)
Record EditValues := {
  ev_name : string;
  ev_cost_usd : string;
  ev_profit_syp : string;
  ev_wholesale_carton_usd : string
}.

(** The update of the save button and of the Enter key of an edited row. *)
Definition save_edit (ev : EditValues) : Updates :=
  {| u_id := None; u_category_id := None; u_category_name := None;
     u_category_sort_order := None;
     u_name := Some (ev_name ev);
     u_cost_usd := Some (JNum (parseNumber (JStr (ev_cost_usd ev))));
     u_profit_syp := Some (JNum (parseNumber (JStr (ev_profit_syp ev))));
     u_wholesale_profit_syp := None; u_carton_usd := None;
     u_wholesale_carton_usd :=
       Some (JNum (parseNumber (JStr (ev_wholesale_carton_usd ev))));
     u_is_hidden := None |}.

(* ===================================================================== *)
(** * JSON between the client and the server *)
(* ===================================================================== *)

(** A number through [JSON.stringify] and [JSON.parse]: a finite number
    comes back as it is (the shortest decimal that reads back to it is
    written), except that -0 is written 0; NaN and the infinities are
    written [null]. *)
Definition json_number (x : spec_float) : jsval :=
  match x with
  | S754_zero _ => JNum Num.zero
  | S754_finite _ _ _ => JNum x
  | S754_infinity _ | S754_nan => JNull
  end.

(** A field of an object through [JSON.stringify] and [JSON.parse]: a key
    whose value is [undefined] is left out. *)
Definition through_JSON (v : jsval) : jsval :=
  match v with
  | JNum x => json_number x
  | JUndefined | JNull | JBool _ | JStr _ => v
  end.

Definition field (v : option jsval) : jsval :=
  match v with Some x => through_JSON x | None => JUndefined end.

(** The body of the request of [handleUpdateProduct] as the handler of
    the server reads it: [JSON.stringify(updates)], then [express.json()]
    and the destructuring of [req.body]. *)
Definition update_request (updates : Updates) : Server.body :=
  {| Server.b_name := field (JStr <$> u_name updates);
     Server.b_cost_usd := field (u_cost_usd updates);
     Server.b_profit_syp := field (u_profit_syp updates);
     Server.b_wholesale_profit_syp := field (u_wholesale_profit_syp updates);
     Server.b_carton_usd := field (u_carton_usd updates);
     Server.b_wholesale_carton_usd := field (u_wholesale_carton_usd updates);
     Server.b_category_id := field ((fun z => JNum (Num.of_Z z)) <$> u_category_id updates);
     Server.b_is_hidden := field ((fun z => JNum (Num.of_Z z)) <$> u_is_hidden updates) |}.

(** [handleUpdateProduct] on the state of the client and the table of the
    server. *)
Definition handleUpdateProduct
  (pid : Z) (updates : Updates) (state : list Product * gmap Z Server.row)
  : list Product * gmap Z Server.row :=
  (updated_products pid updates (fst state),
   Server.updateProduct pid (update_request updates) (snd state)).

(* ===================================================================== *)
(** * Server: the other routes and the start-up migration *)
(* ===================================================================== *)

Module Api.

Import Server.

(** ** Categories *)

(** [GET /api/categories]: [ORDER BY sort_order ASC].  Rows of one sort
    order come in the order of the table here; SQLite leaves it open. *)
Definition getCategories (categories : list Category) : list Category :=
  sort compareCategories categories.

(** An item of the body of [POST /api/categories/reorder]. *)
Record Order := {
  o_id : Z;
  o_sort_order : Z
}.

(** [UPDATE categories SET sort_order = ? WHERE id = ?] *)
Definition update_sort_order (categories : list Category) (item : Order) : list Category :=
  map (fun c =>
         if cat_id c =? o_id item
         then {| cat_id := cat_id c; cat_name := cat_name c;
                 sort_order := o_sort_order item |}
         else c)
      categories.

(** [POST /api/categories/reorder]: [for (const item of items)
    update.run(item.sort_order, item.id)]. *)
Definition reorderCategories (orders : list Order) (categories : list Category)
  : list Category :=
  fold_left update_sort_order orders categories.

(** ** Products *)

(** The rows of a table in the order of their row ids. *)
Definition scan {A : Type} (table : gmap Z A) : list (Z * A) :=
  sort (fun a b => fst a - fst b) (map_to_list table).

(** A column read as an integer, and as a text. *)
Definition sql_integer (v : sqlval) : option Z :=
  match v with
  | SqlReal x => Num.to_Z x
  | SqlNull | SqlText _ => None
  end.

Definition sql_text (v : sqlval) : option string :=
  match v with
  | SqlText s => Some s
  | SqlNull | SqlReal _ => None
  end.

(** A column as the client receives it: [res.json(...)], then
    [response.json()]. *)
Definition json_of_sql (v : sqlval) : jsval :=
  match v with
  | SqlNull => JNull
  | SqlReal x => json_number x
  | SqlText s => JStr s
  end.

(** [ON p.category_id = c.id] *)
Definition in_category (r : row) (c : Category) : bool :=
  match sql_integer (r_category_id r) with
  | Some k => k =? cat_id c
  | None => false
  end.

(** [FROM products p JOIN categories c ON p.category_id = c.id] *)
Definition join (categories : list Category) (products : gmap Z row)
  : list (Category * (Z * row)) :=
  flat_map (fun p => map (fun c => (c, p)) (List.filter (in_category (snd p)) categories))
           (scan products).

(** [SELECT p.*, c.name as category_name, c.sort_order as
    category_sort_order], as an object of the interface [Product]; [None]
    when the name is not a text or the hidden flag not an integer, which
    the interface has no place for. *)
Definition product_of (joined_row : Category * (Z * row)) : option Product :=
  let '(c, (rowid, r)) := joined_row in
  product_name ← sql_text (r_name r);
  hidden ← sql_integer (r_is_hidden r);
  Some {| id := rowid;
          category_id := cat_id c;
          category_name := cat_name c;
          category_sort_order := sort_order c;
          name := product_name;
          cost_usd := json_of_sql (r_cost_usd r);
          profit_syp := json_of_sql (r_profit_syp r);
          wholesale_profit_syp := json_of_sql (r_wholesale_profit_syp r);
          carton_usd := json_of_sql (r_carton_usd r);
          wholesale_carton_usd := json_of_sql (r_wholesale_carton_usd r);
          is_hidden := hidden |}.

(** The collation BINARY of SQLite: the order of the bytes. *)
Definition BINARY (a b : string) : Z :=
  match String.compare a b with Lt => -1 | Eq => 0 | Gt => 1 end.

(** [ORDER BY c.sort_order ASC, p.name ASC] *)
Definition by_sort_order_and_name (a b : Product) : Z :=
  match category_sort_order a ?= category_sort_order b with
  | Lt => -1
  | Gt => 1
  | Eq => BINARY (name a) (name b)
  end.

(** [GET /api/products].  Rows equal under the two keys of the order come
    in the order of the scan here; SQLite leaves it open. *)
Definition getProducts (categories : list Category) (products : gmap Z row)
  : option (list Product) :=
  served ← mapM product_of (join categories products);
  Some (sort by_sort_order_and_name served).

(** [DELETE /api/products/:id] *)
Definition deleteProduct (rowid : Z) (products : gmap Z row) : gmap Z row :=
  delete rowid products.

(** ** The migration of [initDb] *)

(** The truth values of SQL: [None] is NULL. *)
Definition sql_or (a b : option bool) : option bool :=
  match a, b with
  | Some true, _ | _, Some true => Some true
  | Some false, Some false => Some false
  | _, _ => None
  end.

Definition sql_and (a b : option bool) : option bool :=
  match a, b with
  | Some false, _ | _, Some false => Some false
  | Some true, Some true => Some true
  | _, _ => None
  end.

(** [v = 0], [v > 0] and [v IS NULL] on a column of affinity REAL: a text
    that is kept there is no numeral, and a text is greater than every
    number. *)
Definition sql_eq_zero (v : sqlval) : option bool :=
  match v with
  | SqlNull => None
  | SqlReal x => Some (SFeqb x Num.zero)
  | SqlText _ => Some false
  end.

Definition sql_gt_zero (v : sqlval) : option bool :=
  match v with
  | SqlNull => None
  | SqlReal x => Some (SFltb Num.zero x)
  | SqlText _ => Some true
  end.

Definition sql_is_null (v : sqlval) : option bool :=
  match v with
  | SqlNull => Some true
  | SqlReal _ | SqlText _ => Some false
  end.

(** [WHERE (cost_usd = 0 OR cost_usd IS NULL) AND carton_usd > 0] *)
Definition needs_sync (r : row) : option bool :=
  sql_and (sql_or (sql_eq_zero (r_cost_usd r)) (sql_is_null (r_cost_usd r)))
          (sql_gt_zero (r_carton_usd r)).

(** [UPDATE products SET cost_usd = carton_usd WHERE ...] on a row. *)
Definition sync_row (r : row) : row :=
  match needs_sync r with
  | Some true =>
      {| r_category_id := r_category_id r;
         r_name := r_name r;
         r_cost_usd := r_carton_usd r;
         r_profit_syp := r_profit_syp r;
         r_wholesale_profit_syp := r_wholesale_profit_syp r;
         r_carton_usd := r_carton_usd r;
         r_wholesale_carton_usd := r_wholesale_carton_usd r;
         r_is_hidden := r_is_hidden r |}
  | _ => r
  end.

Definition sync_cost_usd (products : gmap Z row) : gmap Z row :=
  sync_row <$> products.

End Api.

(** [handleReorderCategories]: the list the client holds after the
    request and the [fetchData] that follows it. *)
Definition handleReorderCategories
  (newCategories : list Category) (table : list Category) : list Category :=
  let orders :=
    imap (fun index cat => {| Api.o_id := cat_id cat;
                              Api.o_sort_order := Z.of_nat index |})
         newCategories in
  Api.getCategories (Api.reorderCategories orders table).

(** The effect that persists the visible columns,
    [localStorage.setItem('visibleColumns', JSON.stringify(visibleColumns))],
    read back by [localStorage.getItem('visibleColumns')] at the next
    load. *)
Definition persisted (JSON_stringify : json -> string) (visibleColumns : json)
  : option string :=
  Some (JSON_stringify visibleColumns).

(** The names a header of the view can carry, in the order of the view:
    the names of the categories in their sort order, and behind them the
    name of the bucket of the products without one, unless a category
    bears it. *)
Definition candidate_names (categories : list Category) : list string :=
  let names := map cat_name (sort compareCategories categories) in
  if existsb (String.eqb uncategorized) names then names else names ++ [uncategorized].

(** The click of the context menu that hides or shows the product
    [pid]: [products.find(p => p.id === pid)], and the update when it is
    found. *)
Definition toggle_hidden_click (pid : Z) (state : list Product * gmap Z Server.row)
  : list Product * gmap Z Server.row :=
  match List.find (fun p => id p =? pid) (fst state) with
  | Some product => handleUpdateProduct pid (toggle_hidden product) state
  | None => state
  end.

(** The categories of a list, each with its index as sort order: what
    the orders of [handleReorderCategories] ask the table to hold. *)
Definition renumbered (categories : list Category) : list Category :=
  imap (fun index c => {| cat_id := cat_id c; cat_name := cat_name c;
                          sort_order := Z.of_nat index |})
       categories.

(** The decimal numeral of a natural number: the text
    [Number.prototype.toString] writes for an integer below 10^21. *)
Definition numeral (n : N) : string :=
  DecimalString.NilZero.string_of_uint (N.to_uint n).

(* ===================================================================== *)
(** * Sample data for the handlers and the routes *)
(* ===================================================================== *)

Module Cases.

(** The text of the array of the one string lsg, as [JSON.stringify]
    writes it, a [JSON.stringify] that writes that text and a
    [JSON.parse] that reads it. *)
Definition quote : string := String (ascii_of_nat 34) EmptyString.

Definition only_lsg : json := JSarr [JSstr "lsg"].

Definition only_lsg_text : string := ("[" ++ quote ++ "lsg" ++ quote ++ "]")%string.

Definition write_only_lsg (v : json) : string := only_lsg_text.

Definition read_only_lsg (text : string) : option json :=
  if String.eqb text only_lsg_text then Some only_lsg else None.

(** The table of the products with the one row of the seed, under the
    id 1. *)
Definition one_row : gmap Z Server.row := {[ 1 := Samples.legacy_row ]}.

(** The categories of the samples in the order of the client after the
    second is moved up. *)
Definition moved : list Category := moveUp 1 Samples.categories.

(** The fields of the editor after the cost is typed with a comma. *)
Definition typed : EditValues :=
  {| ev_name := "مالبورو ابيض";
     ev_cost_usd := "4,74";
     ev_profit_syp := "500";
     ev_wholesale_carton_usd := "4.70" |}.

(** A product whose category lost its name. *)
Definition loose : Product :=
  {| id := 9; category_id := 3; category_name := ""; category_sort_order := 2;
     name := "ماستر طویل أزرق";
     cost_usd := JNum (Num.ratio 555 100); profit_syp := JNum (Num.of_Z 500);
     wholesale_profit_syp := JNum (Num.of_Z 250);
     carton_usd := JNum (Num.ratio 555 100);
     wholesale_carton_usd := JNum (Num.ratio 556 100);
     is_hidden := 0 |}.

End Cases.

(* ===================================================================== *)
(** * Facts on binary64 arithmetic *)
(* ===================================================================== *)

Module NumFacts.

(** ** The shift loop of the rounding *)

Lemma iter_pos_nat {A : Type} (f : A -> A) (p : positive) (x : A) :
  SpecFloat.iter_pos f p x = Nat.iter (Pos.to_nat p) f x.
Proof.
  revert x. induction p as [p IH | p IH |]; intros x; cbn [SpecFloat.iter_pos].
  - rewrite !IH. rewrite Pos2Nat.inj_xI.
    replace (S (2 * Pos.to_nat p))%nat with (Pos.to_nat p + (Pos.to_nat p + 1))%nat by lia.
    rewrite !Nat.iter_add. reflexivity.
  - rewrite !IH. rewrite Pos2Nat.inj_xO.
    replace (2 * Pos.to_nat p)%nat with (Pos.to_nat p + Pos.to_nat p)%nat by lia.
    rewrite Nat.iter_add. reflexivity.
  - reflexivity.
Qed.

Lemma shr_1_nonneg mrs : 0 <= shr_m mrs -> 0 <= shr_m (shr_1 mrs).
Proof.
  destruct mrs as [m r s]. cbn [shr_m]. intros Hm.
  destruct m as [|[p|p|]|[p|p|]]; cbn; lia.
Qed.

Lemma iter_shr_1_nonneg n mrs : 0 <= shr_m mrs -> 0 <= shr_m (Nat.iter n shr_1 mrs).
Proof.
  intros H. induction n as [|n IH]; cbn; [assumption|]. now apply shr_1_nonneg.
Qed.

Lemma shr_nonneg mrs e n : 0 <= shr_m mrs -> 0 <= shr_m (fst (shr mrs e n)).
Proof.
  intros H. unfold shr. destruct n; cbn [fst]; try assumption.
  rewrite iter_pos_nat. now apply iter_shr_1_nonneg.
Qed.

Lemma shr_m_of_loc m l : shr_m (shr_record_of_loc m l) = m.
Proof. destruct l as [|[]]; reflexivity. Qed.

Lemma round_nearest_even_nonneg m l : 0 <= m -> 0 <= round_nearest_even m l.
Proof.
  intros H. unfold round_nearest_even. destruct l as [|[]]; try lia.
  destruct (Z.even m); lia.
Qed.

(** ** Signs: a rounding keeps the sign it is given *)

Lemma binary_round_aux_sign prec emax sx mx ex lx :
  0 <= mx -> Num.has_sign sx (binary_round_aux prec emax sx mx ex lx).
Proof.
  intros Hm. unfold binary_round_aux, shr_fexp.
  destruct (shr (shr_record_of_loc mx lx) ex _) as [mrs' e'] eqn:E1.
  destruct (shr (shr_record_of_loc _ loc_Exact) e' _) as [mrs'' e''] eqn:E2.
  assert (H1 : 0 <= shr_m mrs').
  { change mrs' with (fst (mrs', e')). rewrite <- E1. apply shr_nonneg.
    now rewrite shr_m_of_loc. }
  assert (H2 : 0 <= shr_m mrs'').
  { change mrs'' with (fst (mrs'', e'')). rewrite <- E2. apply shr_nonneg.
    rewrite shr_m_of_loc. now apply round_nearest_even_nonneg. }
  destruct (shr_m mrs'') as [|p|p]; cbn; try lia; try reflexivity.
  destruct (e'' <=? emax - prec); reflexivity.
Qed.

Lemma binary_round_sign prec emax sx mx ex :
  Num.has_sign sx (binary_round prec emax sx mx ex).
Proof.
  unfold binary_round. destruct (shl_align mx ex _) as [mz ez].
  apply binary_round_aux_sign. lia.
Qed.

Lemma has_sign_not_negative x : Num.has_sign false x -> Num.not_negative x.
Proof.
  destruct x as [s|s| |s m e]; cbn; intros H; try contradiction; subst; reflexivity.
Qed.

Lemma not_negative_cases x :
  Num.not_negative x <->
  match x with S754_infinity s | S754_finite s _ _ => s = false | _ => True end.
Proof.
  unfold Num.not_negative, Num.ltb, SFltb.
  destruct x as [s|s| |s m e]; cbn; try tauto; destruct s; cbn; intuition congruence.
Qed.

Lemma mul_not_negative x y :
  Num.not_negative x -> Num.not_negative y -> Num.not_negative (x *f y).
Proof.
  rewrite !not_negative_cases. intros Hx Hy.
  destruct x as [sx|sx| |sx mx ex], y as [sy|sy| |sy my ey]; subst; cbn; trivial.
  apply not_negative_cases, has_sign_not_negative. apply binary_round_aux_sign. lia.
Qed.

Lemma add_not_negative x y :
  Num.not_negative x -> Num.not_negative y -> Num.not_negative (x +f y).
Proof.
  rewrite !not_negative_cases. intros Hx Hy.
  destruct x as [sx|sx| |sx mx ex], y as [sy|sy| |sy my ey]; subst; cbn; trivial.
  - destruct sx, sy; cbn; trivial.
  - apply not_negative_cases, has_sign_not_negative.
    unfold binary_normalize. cbn [cond_Zopp Z.add]. apply binary_round_sign.
Qed.

Lemma div_eucl_nonneg a b : 0 <= a -> 0 < b -> 0 <= fst (Z.div_eucl a b).
Proof.
  intros Ha Hb. generalize (Z.div_pos a b Ha Hb). unfold Z.div.
  destruct (Z.div_eucl a b); cbn; trivial.
Qed.

Lemma SFdiv_core_nonneg prec emax m1 e1 m2 e2 :
  0 <= fst (fst (SFdiv_core_binary prec emax (Zpos m1) e1 (Zpos m2) e2)).
Proof.
  unfold SFdiv_core_binary.
  set (s := _ - _ - _). set (m' := match s with Z0 => _ | _ => _ end).
  assert (Hm' : 0 <= m').
  { subst m'. destruct s; try lia. apply Z.shiftl_nonneg. lia. }
  generalize (div_eucl_nonneg m' (Zpos m2) Hm' eq_refl).
  destruct (Z.div_eucl m' (Z.pos m2)); cbn; trivial.
Qed.

Lemma div_not_negative x m e :
  Num.not_negative x -> Num.not_negative (x /f S754_finite false m e).
Proof.
  rewrite !not_negative_cases. intros Hx.
  destruct x as [sx|sx| |sx mx ex]; subst; cbn; trivial.
  apply not_negative_cases, has_sign_not_negative.
  generalize (SFdiv_core_nonneg Num.prec Num.emax mx ex m e).
  destruct (SFdiv_core_binary _ _ _ _ _ _) as [[mz ez] lz]. cbn [fst]. intros Hz.
  now apply binary_round_aux_sign.
Qed.

Lemma nearest_up_nonneg m e : e < 0 -> 0 <= Num.nearest_up false m e.
Proof.
  intros He. unfold Num.nearest_up. cbn [cond_Zopp]. apply Z.div_pos.
  - assert (0 <= 2 ^ (- e)) by (apply Z.pow_nonneg; lia). lia.
  - apply Z.pow_pos_nonneg; lia.
Qed.

Lemma of_Z_sign z : z <> 0 -> Num.has_sign (z <? 0) (Num.of_Z z).
Proof.
  intros Hz. unfold Num.of_Z, binary_normalize.
  destruct z as [|p|p]; [contradiction | |]; apply binary_round_sign.
Qed.

Lemma round_not_negative x : Num.not_negative x -> Num.not_negative (Num.round x).
Proof.
  intros Hx. destruct x as [sx|sx| |sx mx ex]; trivial.
  apply not_negative_cases in Hx. subst sx. unfold Num.round.
  destruct (Z.leb_spec 0 ex) as [He|He]; [reflexivity|].
  generalize (nearest_up_nonneg mx ex He).
  destruct (Num.nearest_up false mx ex) as [|p|p] eqn:En; intros Hn; try lia.
  - reflexivity.
  - apply has_sign_not_negative. apply (of_Z_sign (Zpos p)). discriminate.
Qed.

Lemma or_not_negative a b :
  Num.not_negative a -> Num.not_negative b -> Num.not_negative (Num.or a b).
Proof. unfold Num.or. now destruct (Num.truthy a). Qed.

Lemma or_zero_not_NaN a : Num.isNaN (Num.or a Num.zero) = false.
Proof. destruct a; reflexivity. Qed.

Lemma not_negative_not_NaN_leb x :
  Num.not_negative x -> Num.isNaN x = false -> Num.leb Num.zero x = true.
Proof.
  rewrite not_negative_cases. destruct x as [s|s| |s m e]; cbn; intros H1 H2;
    try discriminate; subst; reflexivity.
Qed.

End NumFacts.

(** ** Exact roundings: integers below 2^53 and their products by 500 *)

Module ExactFacts.

Import NumFacts.

Lemma digits2_pos_bounds p :
  2 ^ (Zpos (digits2_pos p) - 1) <= Zpos p < 2 ^ Zpos (digits2_pos p).
Proof.
  induction p as [p IH | p IH |]; cbn [digits2_pos].
  - rewrite Pos2Z.inj_succ. change (Zpos p~1) with (2 * Zpos p + 1).
    replace (Z.succ (Zpos (digits2_pos p)) - 1) with (Z.succ (Zpos (digits2_pos p) - 1)) by lia.
    rewrite !Z.pow_succ_r by lia.
    revert IH. generalize (2 ^ (Zpos (digits2_pos p) - 1)) (2 ^ Zpos (digits2_pos p)). lia.
  - rewrite Pos2Z.inj_succ. change (Zpos p~0) with (2 * Zpos p).
    replace (Z.succ (Zpos (digits2_pos p)) - 1) with (Z.succ (Zpos (digits2_pos p) - 1)) by lia.
    rewrite !Z.pow_succ_r by lia.
    revert IH. generalize (2 ^ (Zpos (digits2_pos p) - 1)) (2 ^ Zpos (digits2_pos p)). lia.
  - cbn. lia.
Qed.

Lemma digits2_pos_log2 p : Zpos (digits2_pos p) = Z.log2 (Zpos p) + 1.
Proof.
  generalize (digits2_pos_bounds p). intros [H1 H2].
  symmetry. apply Z.add_move_r. apply Z.log2_unique; [lia|].
  replace (Z.succ (Zpos (digits2_pos p) - 1)) with (Zpos (digits2_pos p)) by lia. lia.
Qed.

Lemma digits2_pos_shift q k M :
  0 <= k -> Zpos M = Zpos q * 2 ^ k ->
  Zpos (digits2_pos M) = Zpos (digits2_pos q) + k.
Proof.
  intros Hk HM. rewrite !digits2_pos_log2, HM.
  rewrite Z.log2_mul_pow2 by lia. lia.
Qed.

Lemma digits2_pos_le p b : 0 <= b -> Zpos p < 2 ^ b -> Zpos (digits2_pos p) <= b.
Proof.
  intros Hb Hp. destruct (digits2_pos_bounds p) as [H1 _].
  destruct (Z.le_gt_cases (Zpos (digits2_pos p)) b) as [H|H]; [assumption|].
  assert (2 ^ b <= 2 ^ (Zpos (digits2_pos p) - 1)) by (apply Z.pow_le_mono_r; lia). lia.
Qed.

Lemma shr_1_exact m : 0 <= m ->
  shr_1 {| shr_m := 2 * m; shr_r := false; shr_s := false |} =
  {| shr_m := m; shr_r := false; shr_s := false |}.
Proof. intros Hm. destruct m as [|p|p]; [reflexivity | reflexivity | lia]. Qed.

Lemma iter_shr_1_exact (t : nat) m : 0 <= m ->
  Nat.iter t shr_1 {| shr_m := m * 2 ^ Z.of_nat t; shr_r := false; shr_s := false |} =
  {| shr_m := m; shr_r := false; shr_s := false |}.
Proof.
  intros Hm. induction t as [|t IH].
  - cbn. now rewrite Z.mul_1_r.
  - rewrite Nat.iter_succ_r. rewrite Nat2Z.inj_succ, Z.pow_succ_r by lia.
    replace (m * (2 * 2 ^ Z.of_nat t)) with (2 * (m * 2 ^ Z.of_nat t)) by ring.
    rewrite shr_1_exact; [exact IH|].
    apply Z.mul_nonneg_nonneg; [lia | apply Z.pow_nonneg; lia].
Qed.

Lemma shr_exact m e t :
  0 <= m -> 0 <= t ->
  shr {| shr_m := m * 2 ^ t; shr_r := false; shr_s := false |} e t =
  ({| shr_m := m; shr_r := false; shr_s := false |}, e + t).
Proof.
  intros Hm Ht. unfold shr. destruct t as [|p|p]; [| |lia].
  - now rewrite Z.mul_1_r, Z.add_0_r.
  - rewrite iter_pos_nat. rewrite <- (positive_nat_Z p) at 1.
    now rewrite iter_shr_1_exact.
Qed.

(** A significand [q * 2^k] with [q] of at most 53 bits is rounded
    without error, to the 53-bit significand [q * 2^(k - t)]. *)
Lemma binary_round_aux_exact s M E q k :
  0 <= k -> Zpos M = Zpos q * 2 ^ k ->
  let t := Zpos (digits2_pos q) + k - 53 in
  0 <= t <= k ->
  -1074 <= E + t <= 971 ->
  exists m', Zpos m' = Zpos q * 2 ^ (k - t) /\
    binary_round_aux Num.prec Num.emax s (Zpos M) E loc_Exact = S754_finite s m' (E + t).
Proof.
  intros Hk HM t Ht HE.
  assert (Hd : Zpos (digits2_pos M) = Zpos (digits2_pos q) + k) by now apply digits2_pos_shift.
  assert (Hm'pos : 0 < Zpos q * 2 ^ (k - t)).
  { apply Z.mul_pos_pos; [lia | apply Z.pow_pos_nonneg; lia]. }
  destruct (Zpos q * 2 ^ (k - t)) as [|m'|m'] eqn:Em'; try lia.
  exists m'. split; [reflexivity|].
  assert (Hd' : Zpos (digits2_pos m') = 53).
  { rewrite (digits2_pos_shift q (k - t) m') by lia. subst t. lia. }
  unfold binary_round_aux, shr_fexp, fexp, SpecFloat.emin. cbn [Zdigits2 shr_record_of_loc].
  rewrite Hd. unfold Num.prec, Num.emax.
  replace (Z.max (Z.pos (digits2_pos q) + k + E - 53) (3 - 1024 - 53) - E) with t by (subst t; lia).
  assert (HMt : Zpos M = Zpos m' * 2 ^ t).
  { rewrite HM, <- Em', <- Z.mul_assoc, <- Z.pow_add_r by lia. f_equal. f_equal. lia. }
  rewrite HMt, shr_exact by lia.
  cbn [shr_m loc_of_shr_record round_nearest_even Zdigits2 shr_record_of_loc].
  rewrite Hd'.
  replace (Z.max (53 + (E + t) - 53) (3 - 1024 - 53) - (E + t)) with 0 by lia.
  cbn [shr shr_m].
  destruct (Z.leb_spec (E + t) (1024 - 53)); [reflexivity | lia].
Qed.

Lemma shl_iter_xO p x : Zpos (Pos.iter xO p x) = Zpos p * 2 ^ Zpos x.
Proof.
  change (Pos.iter xO p x) with (shift_pos x p).
  rewrite shift_pos_correct. rewrite Z.pow_pos_fold. ring.
Qed.

Lemma to_Z_finite s m e Q a :
  0 <= a -> 0 <= a + e -> Zpos m = Q * 2 ^ a ->
  Num.to_Z (S754_finite s m e) = Some (cond_Zopp s (Q * 2 ^ (a + e))).
Proof.
  intros Ha Hae Hm. unfold Num.to_Z. rewrite Hm.
  destruct (Z.leb_spec 0 e) as [He|He].
  - rewrite Z.pow_add_r by lia. do 2 f_equal. ring.
  - assert (Hp : 2 ^ a = 2 ^ (a + e) * 2 ^ (- e)).
    { rewrite <- Z.pow_add_r by lia. f_equal. lia. }
    rewrite Hp.
    rewrite Z.mul_assoc, Z.mod_mul, Z.div_mul by (apply Z.pow_nonzero; lia).
    reflexivity.
Qed.

(** The number of an integer below 2^53 in absolute value is that
    integer. *)
Lemma of_Z_exact n :
  n <> 0 -> Z.abs n < 2 ^ 53 ->
  exists m e k, Num.of_Z n = S754_finite (n <? 0) m e /\
    0 <= k /\ k + e = 0 /\ Zpos m = Z.abs n * 2 ^ k.
Proof.
  intros Hn Hb.
  assert (H : forall s p, Zpos p < 2 ^ 53 ->
    exists m e k, binary_round Num.prec Num.emax s p 0 = S754_finite s m e /\
      0 <= k /\ k + e = 0 /\ Zpos m = Zpos p * 2 ^ k).
  { intros s p Hp. unfold binary_round, shl_align, fexp, SpecFloat.emin.
    assert (Hd := digits2_pos_le p 53 ltac:(lia) Hp).
    assert (Hd0 : 0 < Zpos (digits2_pos p)) by lia.
    rewrite Z.add_0_r, Z.sub_0_r.
    unfold Num.prec, Num.emax.
    rewrite Z.max_l by lia.
    destruct (Zpos (digits2_pos p) - 53) as [|x|x] eqn:Ex; [| lia |].
    - destruct (binary_round_aux_exact s p 0 p 0) as (m' & Hm' & Hr); try lia.
      unfold Num.prec, Num.emax in Hr. rewrite Hr.
      exists m', (0 + (Zpos (digits2_pos p) + 0 - 53)), 0.
      split; [reflexivity|]. split; [lia|]. split; [lia|].
      rewrite Hm'. f_equal. f_equal. lia.
    - destruct (binary_round_aux_exact s (Pos.iter xO p x) (Zneg x) p (Zpos x))
        as (m' & Hm' & Hr); try lia.
      { apply shl_iter_xO. }
      unfold Num.prec, Num.emax in Hr. rewrite Hr.
      exists m', (Zneg x + (Zpos (digits2_pos p) + Zpos x - 53)), (Zpos x).
      split; [reflexivity|]. split; [lia|]. split; [lia|].
      rewrite Hm'. f_equal. f_equal. lia. }
  unfold Num.of_Z, binary_normalize. destruct n as [|p|p]; [contradiction | |].
  - apply (H false p). exact Hb.
  - apply (H true p). exact Hb.
Qed.

Lemma of_Z_500 : Num.of_Z 500 = S754_finite false 8796093022208000 (-44).
Proof. reflexivity. Qed.

(** Multiplying an integral number by 500 is exact below 2^55: the
    product is a multiple of 4, so it needs two bits less. *)
Lemma mul_500_exact s m e q k :
  0 <= k -> 0 <= k + e -> Zpos m = Zpos q * 2 ^ k ->
  500 * (Zpos q * 2 ^ (k + e)) < 2 ^ 55 ->
  Num.to_Z (S754_finite s m e *f Num.of_Z 500) =
  Some (cond_Zopp s (500 * (Zpos q * 2 ^ (k + e)))).
Proof.
  intros Hk Hke Hm Hb. rewrite of_Z_500. unfold Num.mul, SFmul. rewrite Bool.xorb_false_r.
  set (q' := (125 * q)%positive).
  assert (Hpow : 0 < 2 ^ (k + e)) by (apply Z.pow_pos_nonneg; lia).
  assert (Hq' : Zpos q' * 2 ^ (k + e) < 2 ^ 53).
  { subst q'. rewrite Pos2Z.inj_mul. change (2 ^ 55) with (4 * 2 ^ 53) in Hb. lia. }
  assert (Hq'1 : Zpos q' < 2 ^ 53) by nia.
  assert (Hd1 := digits2_pos_le q' 53 ltac:(lia) Hq'1).
  assert (Hd2 : 7 <= Zpos (digits2_pos q')).
  { destruct (digits2_pos_bounds q') as [_ H2].
    destruct (Z.le_gt_cases 7 (Zpos (digits2_pos q'))) as [H|H]; [assumption|].
    assert (H0 : 2 ^ Zpos (digits2_pos q') <= 2 ^ 6) by (apply Z.pow_le_mono_r; lia).
    subst q'. rewrite Pos2Z.inj_mul in H2. change (2 ^ 6) with 64 in H0. lia. }
  assert (Hd3 : Zpos (digits2_pos q') + (k + e) <= 53).
  { destruct (digits2_pos_bounds q') as [H1 _].
    destruct (Z.le_gt_cases (Zpos (digits2_pos q') + (k + e)) 53) as [H|H]; [assumption|].
    assert (2 ^ 53 <= 2 ^ (Zpos (digits2_pos q') - 1) * 2 ^ (k + e)).
    { rewrite <- Z.pow_add_r by lia. apply Z.pow_le_mono_r; lia. }
    nia. }
  destruct (binary_round_aux_exact s (m * 8796093022208000) (e + -44) q' (k + 46))
    as (m' & Hm' & ->).
  - lia.
  - rewrite Pos2Z.inj_mul, Hm. subst q'. rewrite Pos2Z.inj_mul, Z.pow_add_r by lia.
    change (2 ^ 46) with 70368744177664. lia.
  - lia.
  - lia.
  - rewrite (to_Z_finite s m' _ (Zpos q') (k + 46 - (Zpos (digits2_pos q') + (k + 46) - 53)))
      by (try lia; exact Hm').
    do 2 f_equal. subst q'. rewrite Pos2Z.inj_mul.
    replace (k + 46 - (Zpos (digits2_pos (125 * q)) + (k + 46) - 53) +
             (e + -44 + (Zpos (digits2_pos (125 * q)) + (k + 46) - 53)))
      with (k + e + 2) by lia.
    rewrite (Z.pow_add_r 2 (k + e) 2) by lia. change (2 ^ 2) with 4. lia.
Qed.

(** [Math.round] picks the integer of [round_half_up]. *)
Lemma round_half_up_to_Q s m e :
  round_half_up (Num.to_Q (S754_finite s m e)) =
  if 0 <=? e then cond_Zopp s (Zpos m * 2 ^ e) else Num.nearest_up s m e.
Proof.
  unfold round_half_up, Num.to_Q. destruct (Z.leb_spec 0 e) as [He|He].
  - unfold Qfloor, Qplus, inject_Z. cbn [Qnum Qden].
    symmetry. apply Z.div_unique with (r := 1); lia.
  - unfold Qfloor, Qplus, Num.nearest_up. cbn [Qnum Qden].
    assert (Hp : 0 < 2 ^ (- e)) by (apply Z.pow_pos_nonneg; lia).
    rewrite Pos2Z.inj_mul, Z2Pos.id by assumption.
    replace (1 - e) with (Z.succ (- e)) by lia. rewrite Z.pow_succ_r by lia.
    f_equal; lia.
Qed.

(** [Math.round(x) * 500] is the integer [500 * round_half_up x], exactly,
    as long as that integer is below 2^55. *)
Lemma round_times_500 x :
  Num.isFinite x = true ->
  Z.abs (500 * round_half_up (Num.to_Q x)) < 2 ^ 55 ->
  Num.to_Z (Num.round x *f Num.of_Z 500) = Some (500 * round_half_up (Num.to_Q x)).
Proof.
  destruct x as [s0|s0| |s m e]; try discriminate; intros _ Hb.
  - destruct s0; reflexivity.
  - rewrite round_half_up_to_Q in *. unfold Num.round.
    destruct (Z.leb_spec 0 e) as [He|He].
    + assert (Hp : 0 < 2 ^ e) by (apply Z.pow_pos_nonneg; lia).
      rewrite (mul_500_exact s m e m 0); try lia.
      * rewrite Z.add_0_l. f_equal. destruct s; cbn [cond_Zopp]; lia.
      * rewrite Z.add_0_l. destruct s; cbn [cond_Zopp] in Hb; lia.
    + destruct (Num.nearest_up s m e) as [|p|p] eqn:En.
      * destruct s; reflexivity.
      * destruct (of_Z_exact (Zpos p)) as (m' & e' & k & -> & Hk & Hke & Hm'); try lia.
        rewrite (mul_500_exact _ m' e' p k); try lia.
        -- rewrite Hke, Z.pow_0_r. cbn [Z.ltb Z.compare cond_Zopp]. f_equal. lia.
        -- rewrite Hke, Z.pow_0_r. lia.
      * destruct (of_Z_exact (Zneg p)) as (m' & e' & k & -> & Hk & Hke & Hm'); try lia.
        rewrite (mul_500_exact _ m' e' p k); try lia.
        -- rewrite Hke, Z.pow_0_r. cbn [Z.ltb Z.compare cond_Zopp]. f_equal. lia.
        -- rewrite Hke, Z.pow_0_r. lia.
Qed.

Lemma half_rules_agree x :
  (0 <= x)%Q -> round_half_away_from_zero x = round_half_up x.
Proof.
  intros Hx. unfold round_half_away_from_zero, round_half_up.
  apply Qle_bool_iff in Hx. now rewrite Hx.
Qed.

Lemma to_Z_Some_not_NaN x z : Num.to_Z x = Some z -> Num.isNaN x = false.
Proof. destruct x; cbn; intros H; congruence. Qed.

End ExactFacts.

(* ===================================================================== *)
(** * The price calculator *)
(* ===================================================================== *)

Section PricingFacts.

Import NumFacts ExactFacts.

Variable S2N : string -> spec_float.

Lemma calculateSYP_not_NaN rate p : Num.isNaN (calculateSYP S2N rate p) = false.
Proof.
  unfold calculateSYP. cbv zeta.
  destruct (Num.isNaN (result_of S2N rate p)) eqn:E; [reflexivity | exact E].
Qed.

Lemma result_of_NaN_base rate p :
  Num.isNaN (base_of S2N rate p) = true -> result_of S2N rate p = Num.NaN.
Proof.
  unfold result_of. destruct (base_of S2N rate p); try discriminate. reflexivity.
Qed.

Lemma result_of_infinite_base rate p s :
  base_of S2N rate p = S754_infinity s -> result_of S2N rate p = S754_infinity s.
Proof.
  unfold result_of. intros ->. rewrite of_Z_500. destruct s; reflexivity.
Qed.

Lemma result_of_not_negative rate p :
  Num.not_negative (Number S2N rate) ->
  Num.not_negative (Number S2N (cost_usd p)) ->
  Num.not_negative (Number S2N (carton_usd p)) ->
  Num.not_negative (Number S2N (profit_syp p)) ->
  Num.not_negative (result_of S2N rate p).
Proof.
  intros Hr Hc Hk Hp.
  assert (H0 : Num.not_negative Num.zero) by reflexivity.
  unfold result_of. rewrite of_Z_500.
  apply mul_not_negative; [| reflexivity].
  apply round_not_negative, div_not_negative.
  unfold base_of. apply add_not_negative.
  - apply mul_not_negative.
    + unfold costUsd_of. auto using or_not_negative.
    + unfold rate_of. auto using or_not_negative.
  - unfold profit_of. auto using or_not_negative.
Qed.

End PricingFacts.

(** C3, as stated, fails: with no cost, a legacy carton cost of 22.56, a
    profit of 500 and the rate 11700 the price is not 265,000; the base
    value is 264,452, not 264,992. *)
Lemma calculateSYP_legacy_scenario_is_not_265000 :
  calculateSYP Samples.no_numeral Samples.rate_11700 Samples.legacy_product
    <> Num.of_Z 265000 /\
  Num.to_Z (base_of Samples.no_numeral Samples.rate_11700 Samples.legacy_product)
    = Some 264452.
Proof. split; [vm_compute; discriminate | vm_compute; reflexivity]. Qed.

(** C3, amended: for a product with cost_usd = 0, legacy carton cost
    22.56 and profit 500, at the rate 11700, the calculator resolves the
    effective cost to 22.56, the base value is 263,952 + 500 = 264,452 and
    the final price is 264,500. *)
Theorem calculateSYP_legacy_scenario (StringToNumber : string -> spec_float) (p : Product) :
  cost_usd p = JNum Num.zero ->
  carton_usd p = JNum (Num.ratio 2256 100) ->
  profit_syp p = JNum (Num.of_Z 500) ->
  costUsd_of StringToNumber p = Num.ratio 2256 100 /\
  Num.to_Z (costUsd_of StringToNumber p *f rate_of StringToNumber Samples.rate_11700)
    = Some 263952 /\
  Num.to_Z (base_of StringToNumber Samples.rate_11700 p) = Some 264452 /\
  calculateSYP StringToNumber Samples.rate_11700 p = Num.of_Z 264500.
Proof.
  intros Hc Hk Hp.
  unfold calculateSYP, result_of, base_of, costUsd_of, profit_of, rate_of.
  rewrite Hc, Hk, Hp. cbn [Number Samples.rate_11700].
  repeat split; vm_compute; reflexivity.
Qed.

Lemma calculateSYP_legacy_scenario_witness :
  costUsd_of Samples.no_numeral Samples.legacy_product = Num.ratio 2256 100 /\
  Num.to_Z (costUsd_of Samples.no_numeral Samples.legacy_product
            *f rate_of Samples.no_numeral Samples.rate_11700) = Some 263952 /\
  Num.to_Z (base_of Samples.no_numeral Samples.rate_11700 Samples.legacy_product)
    = Some 264452 /\
  calculateSYP Samples.no_numeral Samples.rate_11700 Samples.legacy_product
    = Num.of_Z 264500.
Proof.
  apply (calculateSYP_legacy_scenario Samples.no_numeral Samples.legacy_product);
    reflexivity.
Defined.

(** Scenario 1 of the specification holds as written: 4.74 at 11700 with
    a profit of 500 gives 56,000. *)
Example calculateSYP_scenario_1 :
  calculateSYP Samples.no_numeral Samples.rate_11700 Samples.plain_product
    = Num.of_Z 56000.
Proof. vm_compute. reflexivity. Qed.

(** C4, as stated, fails: an infinite rate gives an infinite price, which
    is neither finite nor forced to 0, and a negative profit gives a
    negative price. *)
Lemma calculateSYP_infinite_or_negative :
  calculateSYP Samples.no_numeral (JNum Num.Infinity) Samples.unit_product
    = Num.Infinity /\
  Num.isFinite (calculateSYP Samples.no_numeral (JNum Num.Infinity) Samples.unit_product)
    = false /\
  Num.to_Z (calculateSYP Samples.no_numeral Samples.rate_11700 Samples.loss_product)
    = Some (-1000) /\
  Num.ltb (calculateSYP Samples.no_numeral Samples.rate_11700 Samples.loss_product) Num.zero
    = true.
Proof. repeat split; vm_compute; reflexivity. Qed.

(** C4, amended: for every product and every rate value, non-numeric,
    missing and infinite ones included, the coerced rate, cost and profit
    are never NaN and calculateSYP never returns NaN: a NaN base value
    forces a 0 result.  An infinite base value is returned as it is, and
    the result is greater than or equal to 0 as soon as the numbers of the
    rate, of the two costs and of the profit are not negative. *)
Theorem calculateSYP_never_NaN
  (StringToNumber : string -> spec_float) (globalRate : jsval) (p : Product) :
  Num.isNaN (rate_of StringToNumber globalRate) = false /\
  Num.isNaN (costUsd_of StringToNumber p) = false /\
  Num.isNaN (profit_of StringToNumber p) = false /\
  Num.isNaN (calculateSYP StringToNumber globalRate p) = false /\
  (Num.isNaN (base_of StringToNumber globalRate p) = true ->
   calculateSYP StringToNumber globalRate p = Num.zero) /\
  (forall s, base_of StringToNumber globalRate p = S754_infinity s ->
   calculateSYP StringToNumber globalRate p = S754_infinity s) /\
  (Num.not_negative (Number StringToNumber globalRate) ->
   Num.not_negative (Number StringToNumber (cost_usd p)) ->
   Num.not_negative (Number StringToNumber (carton_usd p)) ->
   Num.not_negative (Number StringToNumber (profit_syp p)) ->
   Num.leb Num.zero (calculateSYP StringToNumber globalRate p) = true).
Proof.
  repeat split.
  - apply NumFacts.or_zero_not_NaN.
  - apply NumFacts.or_zero_not_NaN.
  - apply NumFacts.or_zero_not_NaN.
  - apply calculateSYP_not_NaN.
  - intros H. unfold calculateSYP. now rewrite (result_of_NaN_base _ _ _ H).
  - intros s H. unfold calculateSYP. now rewrite (result_of_infinite_base _ _ _ _ H).
  - intros Hr Hc Hk Hp.
    apply NumFacts.not_negative_not_NaN_leb; [| apply calculateSYP_not_NaN].
    unfold calculateSYP. cbv zeta.
    destruct (Num.isNaN (result_of StringToNumber globalRate p)); [reflexivity|].
    now apply result_of_not_negative.
Qed.

Lemma calculateSYP_never_NaN_witness :
  Num.isNaN (calculateSYP Samples.no_numeral (JStr "abc")
               (Samples.marlboro JUndefined JNull (JNum Num.Infinity))) = false /\
  Num.leb Num.zero (calculateSYP Samples.no_numeral Samples.rate_11700 Samples.legacy_product)
    = true.
Proof.
  split.
  - apply (calculateSYP_never_NaN Samples.no_numeral (JStr "abc")
             (Samples.marlboro JUndefined JNull (JNum Num.Infinity))).
  - apply (calculateSYP_never_NaN Samples.no_numeral Samples.rate_11700
             Samples.legacy_product); reflexivity.
Defined.

(** C5, as stated, fails on a negative tie: with no cost and a profit of
    -1250 the quotient base/500 is -2.5, half away from zero gives -3,
    that is -1500, and the calculator returns -1000. *)
Lemma calculateSYP_is_not_half_away_from_zero :
  let q := base_of Samples.no_numeral Samples.rate_11700 Samples.loss_product
           /f Num.of_Z 500 in
  Num.leb Num.zero (rate_of Samples.no_numeral Samples.rate_11700) = true /\
  (Num.to_Q q == - (5 # 2))%Q /\
  500 * round_half_away_from_zero (Num.to_Q q) = -1500 /\
  Num.to_Z (calculateSYP Samples.no_numeral Samples.rate_11700 Samples.loss_product)
    = Some (-1000).
Proof. repeat split. Qed.

(** C5, amended: for every product and every rate, when the quotient
    base/500 is a finite number [q], the price is exactly 500 times the
    integer nearest to [q] with a tie going toward +infinity (the rule of
    Math.round), as long as that product is below 2^55 in absolute
    value; it is then a multiple of 500, and the rule agrees with half
    away from zero when [q] is not negative. *)
Theorem calculateSYP_rounds_half_up
  (StringToNumber : string -> spec_float) (globalRate : jsval) (p : Product) :
  let q := base_of StringToNumber globalRate p /f Num.of_Z 500 in
  Num.isFinite q = true ->
  Z.abs (500 * round_half_up (Num.to_Q q)) < 2 ^ 55 ->
  Num.to_Z (calculateSYP StringToNumber globalRate p)
    = Some (500 * round_half_up (Num.to_Q q)) /\
  (500 * round_half_up (Num.to_Q q)) mod 500 = 0 /\
  ((0 <= Num.to_Q q)%Q ->
   round_half_away_from_zero (Num.to_Q q) = round_half_up (Num.to_Q q)).
Proof.
  intros q Hq Hb. split; [| split].
  - assert (H := ExactFacts.round_times_500 q Hq Hb).
    unfold calculateSYP, result_of. cbv zeta. fold q.
    now rewrite (ExactFacts.to_Z_Some_not_NaN _ _ H).
  - rewrite Z.mul_comm. apply Z.mod_mul. discriminate.
  - apply ExactFacts.half_rules_agree.
Qed.

Lemma calculateSYP_rounds_half_up_witness :
  Num.to_Z (calculateSYP Samples.no_numeral Samples.rate_11700 Samples.legacy_product)
    = Some (500 * 529).
Proof.
  apply (calculateSYP_rounds_half_up Samples.no_numeral Samples.rate_11700
           Samples.legacy_product); [reflexivity | vm_compute; reflexivity].
Defined.

(** The bound cannot be dropped: just above 2^55 the product by 500 is
    rounded to a multiple of 8 and the price is no multiple of 500. *)
Example calculateSYP_beyond_2_55 :
  500 * round_half_up
          (Num.to_Q (base_of Samples.no_numeral Samples.rate_11700 Samples.huge_product
                     /f Num.of_Z 500)) = 36028797018964500 /\
  2 ^ 55 <= 36028797018964500 /\
  Num.to_Z (calculateSYP Samples.no_numeral Samples.rate_11700 Samples.huge_product)
    = Some 36028797018964496 /\
  36028797018964496 mod 500 = 496.
Proof. repeat split; vm_compute; congruence. Qed.

(** [Math.round] on ties and near zero. *)
Example Math_round_examples :
  Num.round (Num.ratio 25 10) = Num.of_Z 3 /\
  Num.round (Num.ratio (-25) 10) = Num.of_Z (-2) /\
  Num.round (Num.ratio (-26) 10) = Num.of_Z (-3) /\
  Num.round (Num.ratio 4 10) = S754_zero false /\
  Num.round (Num.ratio (-5) 10) = S754_zero true /\
  Num.round Num.NaN = Num.NaN /\
  Num.round Num.Infinity = Num.Infinity.
Proof. repeat split. Qed.

(** ** Roundings that cannot overflow *)

Module RangeFacts.

Import NumFacts ExactFacts.

Lemma Zdigits2_nonneg m : 0 <= Zdigits2 m.
Proof. destruct m; cbn; lia. Qed.

Lemma Zdigits2_le m b : 0 <= m -> 0 <= b -> m < 2 ^ b -> Zdigits2 m <= b.
Proof.
  intros Hm Hb H. destruct m as [|p|p]; [cbn; lia | | lia].
  cbn. now apply digits2_pos_le.
Qed.

Lemma Zdigits2_lt m : 0 <= m -> m < 2 ^ Zdigits2 m.
Proof.
  intros Hm. destruct m as [|p|p]; [cbn; lia | | lia].
  cbn. apply digits2_pos_bounds.
Qed.

Lemma shr_1_div2 mrs : 0 <= shr_m mrs -> shr_m (shr_1 mrs) = shr_m mrs / 2.
Proof.
  destruct mrs as [m r s]. cbn [shr_m]. intros Hm.
  destruct m as [|[p|p|]|p]; try lia; cbn [shr_1 shr_m].
  - reflexivity.
  - apply Z.div_unique with (r := 1); lia.
  - apply Z.div_unique with (r := 0); lia.
  - reflexivity.
Qed.

Lemma iter_shr_1_div (t : nat) mrs :
  0 <= shr_m mrs -> shr_m (Nat.iter t shr_1 mrs) = shr_m mrs / 2 ^ Z.of_nat t.
Proof.
  intros Hm. induction t as [|t IH].
  - cbn. now rewrite Z.div_1_r.
  - rewrite Nat.iter_succ. rewrite shr_1_div2 by now apply iter_shr_1_nonneg.
    rewrite IH, Nat2Z.inj_succ, Z.pow_succ_r by lia.
    rewrite Z.div_div by (try lia; apply Z.pow_pos_nonneg; lia).
    f_equal. lia.
Qed.

(** After a shift to the exponent [fexp], the digits fit the exponent. *)
Lemma shr_digits mrs e n :
  0 <= shr_m mrs ->
  let '(mrs', e') := shr mrs e n in
  0 <= shr_m mrs' /\
  (n <= 0 -> e' = e /\ shr_m mrs' = shr_m mrs) /\
  (0 < n -> e' = e + n /\ Zdigits2 (shr_m mrs') + e' <= Z.max (Zdigits2 (shr_m mrs) + e) e').
Proof.
  intros Hm. unfold shr. destruct n as [|p|p].
  - repeat split; try lia.
  - rewrite iter_pos_nat. split; [now apply iter_shr_1_nonneg|]. split; [lia|].
    intros _. split; [reflexivity|].
    rewrite iter_shr_1_div by assumption. rewrite positive_nat_Z.
    set (m := shr_m mrs) in *.
    assert (Hq : 0 <= m / 2 ^ Zpos p) by (apply Z.div_pos; [lia | apply Z.pow_pos_nonneg; lia]).
    destruct (Z.le_gt_cases (Zdigits2 m) (Zpos p)) as [Hd|Hd].
    + assert (m / 2 ^ Zpos p = 0) as ->.
      { apply Z.div_small. split; [lia|]. generalize (Zdigits2_lt m Hm). intros H.
        assert (2 ^ Zdigits2 m <= 2 ^ Zpos p) by (apply Z.pow_le_mono_r; lia). lia. }
      cbn. lia.
    + assert (Zdigits2 (m / 2 ^ Zpos p) <= Zdigits2 m - Zpos p); [|lia].
      apply Zdigits2_le; [assumption | lia |].
      apply Z.div_lt_upper_bound; [apply Z.pow_pos_nonneg; lia|].
      rewrite <- Z.pow_add_r by lia. replace (Zpos p + (Zdigits2 m - Zpos p)) with (Zdigits2 m) by lia.
      now apply Zdigits2_lt.
  - repeat split; lia.
Qed.

Lemma round_nearest_even_digits m l :
  0 <= m -> Zdigits2 (round_nearest_even m l) <= Zdigits2 m + 1.
Proof.
  intros Hm.
  assert (H : round_nearest_even m l <= m + 1).
  { unfold round_nearest_even. destruct l as [|[]]; try lia. destruct (Z.even m); lia. }
  assert (H0 := round_nearest_even_nonneg m l Hm).
  assert (Hd := Zdigits2_nonneg m).
  apply Zdigits2_le; [assumption | lia |].
  generalize (Zdigits2_lt m Hm). rewrite Z.pow_add_r, Z.pow_1_r by lia. lia.
Qed.

(** A rounding of a value below 2^1023 does not overflow. *)
Lemma binary_round_aux_finite s mx ex lx :
  0 <= mx -> Zdigits2 mx + ex <= 1023 -> ex <= 970 ->
  Num.isFinite (binary_round_aux Num.prec Num.emax s mx ex lx) = true.
Proof.
  intros Hm Hd He. unfold binary_round_aux, shr_fexp.
  set (n1 := fexp Num.prec Num.emax (Zdigits2 mx + ex) - ex).
  generalize (shr_digits (shr_record_of_loc mx lx) ex n1).
  rewrite shr_m_of_loc. intros H1. specialize (H1 Hm).
  destruct (shr (shr_record_of_loc mx lx) ex n1) as [mrs' e'].
  destruct H1 as (Hm1 & H1a & H1b).
  assert (He' : e' <= 970 /\ Zdigits2 (shr_m mrs') + e' <= 1023).
  { destruct (Z.le_gt_cases n1 0) as [Hn|Hn].
    - destruct (H1a Hn) as [-> ->]. lia.
    - destruct (H1b Hn) as [-> Hdig]. subst n1.
      unfold fexp, SpecFloat.emin, Num.prec, Num.emax in *. lia. }
  set (m2 := round_nearest_even (shr_m mrs') (loc_of_shr_record mrs')).
  assert (Hm2 : 0 <= m2) by now apply round_nearest_even_nonneg.
  assert (Hd2 : Zdigits2 m2 <= Zdigits2 (shr_m mrs') + 1) by now apply round_nearest_even_digits.
  set (n2 := fexp Num.prec Num.emax (Zdigits2 m2 + e') - e').
  generalize (shr_digits (shr_record_of_loc m2 loc_Exact) e' n2).
  rewrite shr_m_of_loc. intros H2. specialize (H2 Hm2).
  destruct (shr (shr_record_of_loc m2 loc_Exact) e' n2) as [mrs'' e''].
  destruct H2 as (Hm3 & H2a & H2b).
  assert (He'' : e'' <= 971).
  { destruct (Z.le_gt_cases n2 0) as [Hn|Hn].
    - destruct (H2a Hn) as [-> _]. lia.
    - destruct (H2b Hn) as [-> _]. subst n2.
      unfold fexp, SpecFloat.emin, Num.prec, Num.emax in *. lia. }
  destruct (shr_m mrs'') as [|p|p]; [reflexivity | | lia].
  unfold Num.emax, Num.prec.
  destruct (Z.leb_spec e'' (1024 - 53)); [reflexivity | lia].
Qed.

End RangeFacts.

(* ===================================================================== *)
(** * [parseNumber] *)
(* ===================================================================== *)

Module ParseFacts.

Import NumFacts ExactFacts RangeFacts.

Lemma exact_not_negative v : 0 <= v -> Num.not_negative (Num.exact v).
Proof. destruct v; cbn; try reflexivity; lia. Qed.

Lemma ratio_not_negative v d : 0 <= v -> Num.not_negative (Num.ratio v d).
Proof. intros Hv. unfold Num.ratio. cbn [Num.exact]. now apply div_not_negative, exact_not_negative. Qed.

Lemma ratio_finite v d : 0 <= v < 2 ^ 1023 -> Num.isFinite (Num.ratio v d) = true.
Proof.
  intros [Hv Hb]. unfold Num.ratio. destruct v as [|p|p]; [reflexivity | | lia].
  cbn [Num.exact]. unfold Num.div, SFdiv. cbn [xorb].
  unfold SFdiv_core_binary.
  set (d1 := Zdigits2 (Zpos p)). set (d2 := Zdigits2 (Zpos d)).
  set (e' := Z.min _ _). set (s := 0 - 0 - e').
  assert (He' : e' <= 0) by (subst e'; lia).
  assert (Hs : 0 <= s) by (subst s; lia).
  set (m' := match s with Z0 => _ | _ => _ end).
  assert (Hm' : m' = Zpos p * 2 ^ s).
  { subst m'. destruct s as [|x|x] eqn:Es; [rewrite Z.pow_0_r; lia | | lia].
    rewrite Z.shiftl_mul_pow2 by lia. reflexivity. }
  assert (Hpow : 0 < 2 ^ s) by (apply Z.pow_pos_nonneg; lia).
  assert (Hq : 0 <= m' / Zpos d <= m').
  { split; [apply Z.div_pos; lia|]. apply Z.div_le_upper_bound; nia. }
  unfold Z.div in Hq. destruct (Z.div_eucl m' (Zpos d)) as [q r]. cbn [fst] in Hq.
  apply binary_round_aux_finite; [lia | | lia].
  assert (Hd1 : Zpos p < 2 ^ d1) by (apply (Zdigits2_lt (Zpos p)); lia).
  assert (Hd1' : d1 <= 1023) by (apply Zdigits2_le; lia).
  assert (Zdigits2 q <= d1 + s); [|subst s; lia].
  assert (0 <= d1) by apply Zdigits2_nonneg.
  apply Zdigits2_le; [lia | lia |].
  rewrite Z.pow_add_r by lia. nia.
Qed.

Lemma digit_value_range c : is_digit c = true -> 0 <= digit_value c <= 9.
Proof.
  unfold is_digit, digit_value. intros H. apply andb_prop in H as [H1 H2].
  apply Nat.leb_le in H1, H2. lia.
Qed.

Lemma read_digits_spec s : forall acc cnt n,
  0 <= n -> 0 <= acc < 10 ^ n ->
  let '(v, c, rest) := read_digits acc cnt s in
  0 <= v < 10 ^ (n + Z.of_nat (c - cnt)) /\ (cnt <= c)%nat /\
  (c - cnt + String.length rest = String.length s)%nat.
Proof.
  induction s as [|ch s IH]; intros acc cnt n Hn Hacc; cbn [read_digits].
  - rewrite Nat.sub_diag, Z.add_0_r. cbn. lia.
  - destruct (is_digit ch) eqn:Ed.
    + assert (Hdv := digit_value_range ch Ed).
      specialize (IH (10 * acc + digit_value ch) (S cnt) (n + 1)).
      destruct (read_digits (10 * acc + digit_value ch) (S cnt) s) as [[v c] rest].
      destruct IH as (Hv & Hc & Hl); [lia | rewrite Z.pow_add_r, Z.pow_1_r by lia; lia |].
      split; [|split].
      * replace (n + Z.of_nat (c - cnt)) with (n + 1 + Z.of_nat (c - S cnt)) by lia. exact Hv.
      * lia.
      * cbn [String.length]. lia.
    + rewrite Nat.sub_diag, Z.add_0_r. cbn [String.length]. lia.
Qed.

Lemma parseFloat_not_negative s : Num.not_negative (parseFloat s).
Proof.
  unfold parseFloat.
  generalize (read_digits_spec s 0 0%nat 0 ltac:(lia) ltac:(cbn; lia)).
  destruct (read_digits 0 0 s) as [[iv ic] rest]. intros (Hv & _ & _).
  assert (Hint : Num.not_negative (if (ic =? 0)%nat then Num.NaN else Num.ratio iv 1)).
  { destruct (ic =? 0)%nat; [reflexivity | apply ratio_not_negative; lia]. }
  destruct rest as [|ch r]; [exact Hint|].
  destruct ch as [[] [] [] [] [] [] [] []]; try exact Hint.
  generalize (read_digits_spec r iv 0%nat (0 + Z.of_nat (ic - 0)) ltac:(lia) Hv).
  destruct (read_digits iv 0 r) as [[v fc] rest']. intros (Hv' & _ & _).
  destruct (ic + fc =? 0)%nat; [reflexivity | apply ratio_not_negative; lia].
Qed.

Lemma pow10_307 : 10 ^ 307 < 2 ^ 1023.
Proof. vm_compute. reflexivity. Qed.

Lemma parseFloat_finite_or_NaN s :
  (String.length s <= 307)%nat ->
  Num.isNaN (parseFloat s) = true \/ Num.isFinite (parseFloat s) = true.
Proof.
  intros Hlen. unfold parseFloat.
  generalize (read_digits_spec s 0 0%nat 0 ltac:(lia) ltac:(cbn; lia)).
  destruct (read_digits 0 0 s) as [[iv ic] rest]. intros (Hv & _ & Hl).
  assert (Hp : forall a b, 0 <= a <= b -> 10 ^ a <= 10 ^ b) by (intros; apply Z.pow_le_mono_r; lia).
  assert (Hint : Num.isNaN (if (ic =? 0)%nat then Num.NaN else Num.ratio iv 1) = true \/
                 Num.isFinite (if (ic =? 0)%nat then Num.NaN else Num.ratio iv 1) = true).
  { destruct (ic =? 0)%nat; [now left | right; apply ratio_finite].
    generalize pow10_307 (Hp (0 + Z.of_nat (ic - 0)) 307 ltac:(lia)). lia. }
  destruct rest as [|ch r]; [exact Hint|].
  destruct ch as [[] [] [] [] [] [] [] []]; try exact Hint.
  generalize (read_digits_spec r iv 0%nat (0 + Z.of_nat (ic - 0)) ltac:(lia) Hv).
  destruct (read_digits iv 0 r) as [[v fc] rest']. intros (Hv' & _ & Hl').
  cbn [String.length] in Hl.
  destruct (ic + fc =? 0)%nat; [now left | right; apply ratio_finite].
  generalize pow10_307 (Hp (0 + Z.of_nat (ic - 0) + Z.of_nat (fc - 0)) 307 ltac:(lia)). lia.
Qed.

Lemma length_replace_commas s : String.length (replace_commas s) = String.length s.
Proof. induction s as [|c s IH]; cbn; congruence. Qed.

Lemma length_strip_non_numeric s : (String.length (strip_non_numeric s) <= String.length s)%nat.
Proof.
  induction s as [|c s IH]; cbn [strip_non_numeric String.length]; [lia|].
  destruct (is_digit c || is_dot c); cbn [String.length]; lia.
Qed.

End ParseFacts.




(* ===================================================================== *)
(** * The grouping pipeline and the export table *)
(* ===================================================================== *)

(** ** Sorting *)

Module SortFacts.

Section Sorting.

Context {A : Type} (cmp : A -> A -> Z).

Lemma sort_insert_perm x l : Permutation (sort_insert cmp x l) (x :: l).
Proof.
  induction l as [|y r IH]; cbn [sort_insert]; [reflexivity|].
  destruct (cmp x y <=? 0); [reflexivity|].
  rewrite IH. apply perm_swap.
Qed.

Lemma sort_perm l : Permutation (sort cmp l) l.
Proof.
  induction l as [|x l IH]; cbn; [reflexivity|].
  rewrite sort_insert_perm. now constructor.
Qed.

Lemma in_sort x l : In x (sort cmp l) <-> In x l.
Proof. split; apply Permutation_in; [|symmetry]; apply sort_perm. Qed.

Hypothesis cmp_consistent : consistent cmp.

Lemma sort_insert_head x l :
  Forall (precedes cmp x) l -> sort_insert cmp x l = x :: l.
Proof.
  intros H. destruct l as [|y r]; [reflexivity|]. cbn [sort_insert].
  inversion_clear H as [|? ? Hy _]. unfold precedes in Hy.
  destruct (Z.leb_spec (cmp x y) 0); [reflexivity | lia].
Qed.

Lemma sort_insert_sorted x l :
  StronglySorted (precedes cmp) l -> StronglySorted (precedes cmp) (sort_insert cmp x l).
Proof.
  destruct cmp_consistent as [total trans].
  induction 1 as [|y r Hr IH Hy]; cbn [sort_insert].
  - repeat constructor.
  - destruct (Z.leb_spec (cmp x y) 0) as [Hxy|Hxy].
    + constructor; [now constructor|]. constructor; [exact Hxy|].
      eapply Forall_impl; [exact Hy|]. intros z Hz. now apply (trans x y z).
    + constructor; [exact IH|].
      assert (Hyx : precedes cmp y x).
      { destruct (total x y) as [H|H]; [unfold precedes in H; lia | exact H]. }
      rewrite List.Forall_forall. intros z Hz.
      apply (Permutation_in _ (sort_insert_perm x r)) in Hz.
      destruct Hz as [<-|Hz]; [exact Hyx|].
      rewrite List.Forall_forall in Hy. now apply Hy.
Qed.

Lemma sort_sorted l : StronglySorted (precedes cmp) (sort cmp l).
Proof.
  induction l as [|x l IH]; cbn; [constructor|]. now apply sort_insert_sorted.
Qed.

Lemma filter_sort_insert (P : A -> bool) x l :
  StronglySorted (precedes cmp) l ->
  List.filter P (sort_insert cmp x l) =
  if P x then sort_insert cmp x (List.filter P l) else List.filter P l.
Proof.
  destruct cmp_consistent as [total trans].
  induction 1 as [|y r Hr IH Hy]; cbn [sort_insert List.filter].
  - destruct (P x); reflexivity.
  - destruct (Z.leb_spec (cmp x y) 0) as [Hxy|Hxy].
    + cbn [List.filter]. destruct (P x); [|reflexivity].
      symmetry. apply sort_insert_head.
      assert (Hall : Forall (precedes cmp x) (y :: r)).
      { constructor; [exact Hxy|]. eapply Forall_impl; [exact Hy|].
        intros z Hz. now apply (trans x y z). }
      rewrite List.Forall_forall in *. intros z Hz.
      apply (Hall z). change (In z (List.filter P (y :: r))) in Hz.
      apply filter_In in Hz. tauto.
    + cbn [List.filter]. rewrite IH. destruct (P y), (P x); try reflexivity.
      cbn [sort_insert]. destruct (Z.leb_spec (cmp x y) 0); [lia | reflexivity].
Qed.

(** A stable sort commutes with a filter. *)
Lemma filter_sort (P : A -> bool) l :
  List.filter P (sort cmp l) = sort cmp (List.filter P l).
Proof.
  induction l as [|x l IH]; [reflexivity|].
  cbn [sort fold_right List.filter]. fold (sort cmp l).
  rewrite filter_sort_insert by apply sort_sorted.
  rewrite IH. destruct (P x); reflexivity.
Qed.

End Sorting.

Lemma sort_insert_ext {A} (cmp cmp' : A -> A -> Z) x l :
  Forall (fun y => cmp x y = cmp' x y) l -> sort_insert cmp x l = sort_insert cmp' x l.
Proof.
  induction 1 as [|y r Hy _ IH]; cbn [sort_insert]; [reflexivity|].
  rewrite Hy, IH. reflexivity.
Qed.

(** Two comparators that agree on the elements of a list sort it alike. *)
Lemma sort_ext {A} (cmp cmp' : A -> A -> Z) l :
  (forall x y, In x l -> In y l -> cmp x y = cmp' x y) -> sort cmp l = sort cmp' l.
Proof.
  induction l as [|x l IH]; intros H; [reflexivity|].
  cbn [sort fold_right]. fold (sort cmp l) (sort cmp' l).
  rewrite <- IH.
  2:{ intros a b Ha Hb. apply H; right; assumption. }
  apply sort_insert_ext. rewrite List.Forall_forall. intros y Hy.
  apply H; [left; reflexivity | right]. apply (proj1 (in_sort cmp y l)). exact Hy.
Qed.

End SortFacts.

(** ** Lists, buckets and the dictionary of groups *)

Module GroupFacts.

Import SortFacts.

Lemma filter_perm {A} (P : A -> bool) l l' :
  Permutation l l' -> Permutation (List.filter P l) (List.filter P l').
Proof.
  induction 1 as [|x l l' _ IH|x y l|l l' l'' _ IH1 _ IH2]; cbn [List.filter].
  - reflexivity.
  - destruct (P x); [now constructor | exact IH].
  - destruct (P x), (P y); try reflexivity. apply perm_swap.
  - now transitivity (List.filter P l').
Qed.

Lemma filter_ext_on {A} (f g : A -> bool) l :
  (forall a, In a l -> f a = g a) -> List.filter f l = List.filter g l.
Proof.
  induction l as [|a l IH]; intros H; cbn [List.filter]; [reflexivity|].
  rewrite (H a) by now left. rewrite IH by (intros; apply H; now right). reflexivity.
Qed.

Lemma filter_twice {A} (f g : A -> bool) l :
  List.filter f (List.filter g l) = List.filter (fun x => g x && f x) l.
Proof.
  induction l as [|a l IH]; cbn [List.filter]; [reflexivity|].
  destruct (g a); cbn [andb List.filter]; [|exact IH].
  destruct (f a); now rewrite IH.
Qed.

Lemma flat_map_app_perm {A B} (f g : A -> list B) l :
  Permutation (flat_map (fun a => f a ++ g a) l) (flat_map f l ++ flat_map g l).
Proof.
  induction l as [|a l IH]; cbn [flat_map]; [reflexivity|].
  rewrite IH. rewrite <- !app_assoc. apply Permutation_app_head.
  rewrite !app_assoc. apply Permutation_app_tail. apply Permutation_app_comm.
Qed.

Lemma flat_map_nil {A B} (f : A -> list B) l :
  (forall a, In a l -> f a = []) -> flat_map f l = [].
Proof.
  induction l as [|a l IH]; intros H; cbn [flat_map]; [reflexivity|].
  rewrite (H a) by now left. apply IH. intros; apply H; now right.
Qed.

Lemma flat_map_ext_on {A B} (f g : A -> list B) l :
  (forall a, In a l -> f a = g a) -> flat_map f l = flat_map g l.
Proof.
  induction l as [|a l IH]; intros H; cbn [flat_map]; [reflexivity|].
  rewrite (H a) by now left. f_equal. apply IH. intros; apply H; now right.
Qed.

Lemma flat_map_of_map {A B C} (f : B -> list C) (g : A -> B) l :
  flat_map f (map g l) = flat_map (fun a => f (g a)) l.
Proof. induction l as [|a l IH]; cbn; [reflexivity | now rewrite IH]. Qed.

Lemma flat_map_filter_nil {A B} (keep : A -> bool) (f : A -> list B) l :
  (forall a, In a l -> keep a = false -> f a = []) ->
  flat_map f (List.filter keep l) = flat_map f l.
Proof.
  induction l as [|a l IH]; intros H; cbn [List.filter flat_map]; [reflexivity|].
  destruct (keep a) eqn:E; cbn [flat_map].
  - f_equal. apply IH. intros; apply H; auto. now right.
  - rewrite (H a) by (auto; now left). cbn [app]. apply IH. intros; apply H; auto. now right.
Qed.

Lemma flat_map_single {A} (a : string) (x : A) (cs : list string) :
  NoDup cs -> In a cs ->
  flat_map (fun c => if String.eqb a c then [x] else []) cs = [x].
Proof.
  induction 1 as [|c cs Hc Hnd IH]; intros Hin; [contradiction|].
  cbn [flat_map]. destruct (String.eqb_spec a c) as [->|Hne].
  - rewrite flat_map_nil; [reflexivity|]. intros b Hb.
    destruct (String.eqb_spec c b) as [->|]; [|reflexivity].
    exfalso. apply Hc. now apply list_elem_of_In.
  - destruct Hin as [->|Hin]; [congruence|]. now apply IH.
Qed.

(** Splitting a list in buckets by key and chaining the buckets of
    distinct keys that cover the list gives a permutation of the list. *)
Lemma buckets_perm {A} (key : A -> string) (l : list A) (cs : list string) :
  NoDup cs -> (forall x, In x l -> In (key x) cs) ->
  Permutation (flat_map (fun c => List.filter (fun x => String.eqb (key x) c) l) cs) l.
Proof.
  intros Hnd. induction l as [|x l IH]; intros Hin.
  - rewrite flat_map_nil; [reflexivity | reflexivity].
  - assert (E : flat_map (fun c => List.filter (fun y => String.eqb (key y) c) (x :: l)) cs =
                 flat_map (fun c => (if String.eqb (key x) c then [x] else []) ++
                                    List.filter (fun y => String.eqb (key y) c) l) cs).
    { apply flat_map_ext. intros c. cbn [List.filter].
      destruct (String.eqb (key x) c); reflexivity. }
    rewrite E, flat_map_app_perm. rewrite flat_map_single by (auto; apply Hin; now left).
    cbn [app]. constructor. apply IH. intros; apply Hin; now right.
Qed.

Lemma NoDup_map_inj {A B} (f : A -> B) l x y :
  NoDup (map f l) -> In x l -> In y l -> f x = f y -> x = y.
Proof.
  induction l as [|a l IH]; intros Hnd Hx Hy E; [contradiction|].
  cbn [map] in Hnd. apply NoDup_cons in Hnd as [Ha Hnd].
  destruct Hx as [->|Hx], Hy as [->|Hy]; auto.
  - exfalso. apply Ha. rewrite E. apply list_elem_of_In, in_map, Hy.
  - exfalso. apply Ha. rewrite <- E. apply list_elem_of_In, in_map, Hx.
Qed.

Lemma existsb_eqb_In (a : string) l : existsb (String.eqb a) l = true <-> In a l.
Proof.
  rewrite existsb_exists. split.
  - intros (x & Hx & E). apply String.eqb_eq in E. now subst.
  - intros H. exists a. split; [exact H | apply String.eqb_refl].
Qed.

Lemma push_group_lookup (groups : gmap string (list Product)) p c :
  push_group groups p !! c =
  if String.eqb (group_key p) c then Some (default [] (groups !! c) ++ [p]) else groups !! c.
Proof.
  unfold push_group. destruct (String.eqb_spec (group_key p) c) as [->|Hne].
  - apply lookup_insert_eq.
  - now apply lookup_insert_ne.
Qed.

(** The bucket of [c] after the loop: what it held, then the products of
    key [c], in order. *)
Lemma fold_push_group_lookup l : forall (groups : gmap string (list Product)) c,
  fold_left push_group l groups !! c =
  match List.filter (fun p => String.eqb (group_key p) c) l with
  | [] => groups !! c
  | bucket => Some (default [] (groups !! c) ++ bucket)
  end.
Proof.
  induction l as [|p l IH]; intros groups c; cbn [fold_left List.filter]; [reflexivity|].
  rewrite IH, push_group_lookup.
  destruct (String.eqb (group_key p) c); [|reflexivity].
  destruct (List.filter _ l) as [|q bucket]; [reflexivity|].
  cbn [from_option]. unfold Datatypes.id at 1. now rewrite <- app_assoc.
Qed.

Lemma group_of_build_groups l c :
  group_of (build_groups l) c = List.filter (fun p => String.eqb (group_key p) c) l.
Proof.
  unfold group_of, build_groups. rewrite fold_push_group_lookup, lookup_empty.
  destruct (List.filter _ l); reflexivity.
Qed.

Lemma has_group_build_groups l c :
  has_group (build_groups l) c = true <-> exists p, In p l /\ group_key p = c.
Proof.
  unfold has_group, build_groups. rewrite fold_push_group_lookup, lookup_empty.
  destruct (List.filter _ l) as [|q bucket] eqn:E.
  - split; [discriminate|]. intros (p & Hp & Hk).
    assert (Hin : In p (List.filter (fun p => String.eqb (group_key p) c) l)).
    { apply filter_In. split; [exact Hp|]. now apply String.eqb_eq. }
    rewrite E in Hin. contradiction.
  - split; [intros _|reflexivity].
    assert (Hin : In q (List.filter (fun p => String.eqb (group_key p) c) l)).
    { rewrite E. now left. }
    apply filter_In in Hin as [Hq Hk]. exists q. split; [exact Hq|]. now apply String.eqb_eq.
Qed.

Lemma group_key_not_empty p : group_key p <> "".
Proof.
  unfold group_key. destruct (String.eqb_spec (category_name p) "") as [|Hne]; [|exact Hne].
  discriminate.
Qed.

End GroupFacts.

(** ** The flattened view and the export rows *)

Module ViewFacts.

Import SortFacts GroupFacts.

Lemma view_products_flatten last rows : view_products (flatten_from last rows) = rows.
Proof.
  revert last. induction rows as [|p rows IH]; intros last; [reflexivity|].
  cbn [flatten_from]. destruct (negb _); cbn; now rewrite IH.
Qed.

Lemma flatten_same_key c bucket rest :
  Forall (fun p => group_key p = c) bucket ->
  flatten_from c (bucket ++ rest) = map ProductRow bucket ++ flatten_from c rest.
Proof.
  induction 1 as [|p bucket Hp _ IH]; [reflexivity|].
  cbn [app flatten_from map]. rewrite Hp, String.eqb_refl. cbn [negb]. now rewrite IH.
Qed.

Lemma view_headers_map_ProductRow l : view_headers (map ProductRow l) = [].
Proof. induction l; cbn; auto. Qed.

Lemma view_headers_app l l' : view_headers (l ++ l') = view_headers l ++ view_headers l'.
Proof. unfold view_headers. apply flat_map_app. Qed.

(** Buckets of distinct keys, none empty, each of one key: the headers of
    the flattened view are the keys, one each. *)
Lemma view_headers_buckets (bucket_of : string -> list Product) cs : forall last,
  (forall c, In c cs -> bucket_of c <> [] /\ Forall (fun p => group_key p = c) (bucket_of c)) ->
  NoDup (last :: cs) ->
  view_headers (flatten_from last (flat_map bucket_of cs)) = cs.
Proof.
  induction cs as [|c cs IH]; intros last Hb Hnd; [reflexivity|].
  cbn [flat_map]. destruct (Hb c ltac:(now left)) as [Hne Hk].
  destruct (bucket_of c) as [|p bucket] eqn:E; [congruence|].
  inversion_clear Hk as [|? ? Hp Hk'].
  cbn [app flatten_from]. rewrite Hp.
  assert (Hcl : c <> last).
  { intros ->. apply NoDup_cons in Hnd as [Hl _]. apply Hl. left. }
  destruct (String.eqb_spec c last) as [|_]; [contradiction|]. cbn [negb].
  rewrite flatten_same_key by exact Hk'.
  cbn [view_headers flat_map app].
  fold (view_headers (map ProductRow bucket ++ flatten_from c (flat_map bucket_of cs))).
  rewrite view_headers_app, view_headers_map_ProductRow. cbn [app].
  f_equal. apply IH.
  - intros c' Hc'. apply Hb. now right.
  - apply NoDup_cons in Hnd as [_ Hnd]. exact Hnd.
Qed.

Lemma in_view_products p rows : In p (view_products rows) <-> In (ProductRow p) rows.
Proof.
  unfold view_products. rewrite in_flat_map. split.
  - intros ([c|q] & Hr & Hin); cbn in Hin; [contradiction|].
    destruct Hin as [->|[]]. exact Hr.
  - intros H. exists (ProductRow p). split; [exact H | now left].
Qed.

Lemma export_products_flat_map {A} (f : A -> list ExportRow) l :
  export_products (flat_map f l) = flat_map (fun a => export_products (f a)) l.
Proof.
  induction l as [|a l IH]; [reflexivity|].
  cbn [flat_map]. unfold export_products in *. now rewrite flat_map_app, IH.
Qed.

Lemma export_products_map l : export_products (map ExportProduct l) = l.
Proof.
  induction l as [|a l IH]; [reflexivity|].
  cbn. unfold export_products in IH. now rewrite IH.
Qed.

Lemma string_includes_empty s : string_includes s "" = true.
Proof. destruct s; reflexivity. Qed.

Section Pipeline.

Variable toLowerCase : string -> string.
Variable localeCompare : string -> string -> Z.

Lemma orderedCategories_has_group groups categories c :
  In c (orderedCategories_of groups categories) -> has_group groups c = true.
Proof.
  unfold orderedCategories_of. cbv zeta.
  set (ordered := List.filter _ _).
  assert (Ho : In c ordered -> has_group groups c = true).
  { subst ordered. intros H. now apply filter_In in H as [_ H]. }
  destruct (has_group groups uncategorized) eqn:Eu; cbn [andb]; [|exact Ho].
  destruct (negb _); [|exact Ho].
  intros H. apply in_app_or in H as [H|[<-|[]]]; [now apply Ho | exact Eu].
Qed.

Lemma orderedCategories_NoDup groups categories :
  NoDup (map cat_name categories) -> NoDup (orderedCategories_of groups categories).
Proof.
  intros Hnd. unfold orderedCategories_of. cbv zeta.
  set (ordered := List.filter _ _).
  assert (Ho : NoDup ordered).
  { subst ordered. apply NoDup_ListNoDup, List.NoDup_filter, NoDup_ListNoDup.
    assert (HP : Permutation (map cat_name (sort compareCategories categories))
                             (map cat_name categories)) by apply Permutation_map, sort_perm.
    rewrite HP. exact Hnd. }
  destruct (has_group groups uncategorized); cbn [andb]; [|exact Ho].
  destruct (existsb _ ordered) eqn:E; cbn [negb]; [exact Ho|].
  apply NoDup_app. split; [exact Ho|]. split; [|apply NoDup_singleton].
  intros x Hx Hx'. apply list_elem_of_singleton in Hx'. subst x.
  apply list_elem_of_In, existsb_eqb_In in Hx. congruence.
Qed.

Lemma orderedCategories_complete groups categories c :
  has_group groups c = true ->
  In c (map cat_name categories) \/ c = uncategorized ->
  In c (orderedCategories_of groups categories).
Proof.
  intros Hg Hc. unfold orderedCategories_of. cbv zeta.
  set (ordered := List.filter _ _).
  assert (Ho : In c (map cat_name categories) -> In c ordered).
  { intros H. subst ordered. apply filter_In. split; [|exact Hg].
    eapply Permutation_in; [|exact H]. apply Permutation_map. symmetry. apply sort_perm. }
  destruct Hc as [Hc| ->].
  - destruct (_ && _); [apply in_or_app; left|]; auto.
  - rewrite Hg. cbn [andb]. destruct (existsb _ ordered) eqn:E; cbn [negb].
    + now apply existsb_eqb_In.
    + apply in_or_app. right. now left.
Qed.

Lemma products_of_groupedData products categories st :
  products_of (groupedData toLowerCase localeCompare products categories st) =
  flat_map (fun c => List.filter (fun p => String.eqb (group_key p) c)
                       (filtered_of toLowerCase localeCompare products st))
           (categories_of (groupedData toLowerCase localeCompare products categories st)).
Proof.
  unfold groupedData. cbn [products_of categories_of].
  apply flat_map_ext. intros c. apply group_of_build_groups.
Qed.

Lemma in_filtered_of products st p :
  In p (filtered_of toLowerCase localeCompare products st) <->
  In p products /\ passes toLowerCase st p = true.
Proof. unfold filtered_of. rewrite filter_In, in_sort. reflexivity. Qed.

Lemma in_products_of products categories st p :
  In p (products_of (groupedData toLowerCase localeCompare products categories st)) ->
  In p products /\ passes toLowerCase st p = true.
Proof.
  rewrite products_of_groupedData, in_flat_map. intros (c & _ & H).
  apply filter_In in H as [H _]. now apply in_filtered_of.
Qed.

Lemma passes_visible st p :
  passes toLowerCase st p = true -> showHidden st = false -> is_hidden p = 0.
Proof.
  unfold passes. cbv zeta. intros H Hs. rewrite Hs in H.
  apply andb_prop in H as [_ H]. cbn [orb] in H. unfold not_hidden in H. lia.
Qed.

Lemma in_export_category products st cat p :
  In (ExportProduct p) (export_category localeCompare products st cat) ->
  In p products /\ category_id p = cat_id cat /\ (showHidden st || not_hidden p = true).
Proof.
  unfold export_category. cbv zeta.
  set (catProducts := List.filter _ products).
  assert (H : In p catProducts ->
              In p products /\ category_id p = cat_id cat /\
              (showHidden st || not_hidden p = true)).
  { subst catProducts. intros H. apply filter_In in H as [H1 H2].
    apply andb_prop in H2 as [H2 H3]. split; [exact H1|]. split; [lia|].
    now rewrite H3. }
  destruct catProducts as [|q rest] eqn:E; [contradiction|].
  intros [Hin|Hin]; [discriminate|].
  apply in_map_iff in Hin as (x & [= ->] & Hx). apply H. now apply in_sort in Hx.
Qed.

Lemma export_products_category products st cat :
  export_products (export_category localeCompare products st cat) =
  sort (fun a b => localeCompare (name a) (name b))
       (List.filter (fun p => (category_id p =? cat_id cat) && (showHidden st || not_hidden p))
                    products).
Proof.
  unfold export_category. cbv zeta.
  destruct (List.filter _ products) as [|q l]; [reflexivity|].
  cbn [export_products flat_map app]. apply export_products_map.
Qed.

Hypothesis localeCompare_consistent : consistent localeCompare.

Lemma compareProducts_consistent : consistent (compareProducts localeCompare).
Proof.
  destruct localeCompare_consistent as [total trans]. unfold precedes in *. split.
  - intros a b. unfold precedes, compareProducts. cbv zeta.
    destruct (Z.eqb_spec (category_sort_order a - category_sort_order b) 0);
    destruct (Z.eqb_spec (category_sort_order b - category_sort_order a) 0);
    cbn [negb]; try lia. apply total.
  - intros a b c. unfold precedes, compareProducts. cbv zeta.
    destruct (Z.eqb_spec (category_sort_order a - category_sort_order b) 0);
    destruct (Z.eqb_spec (category_sort_order b - category_sort_order c) 0);
    destruct (Z.eqb_spec (category_sort_order a - category_sort_order c) 0);
    cbn [negb]; try lia. apply trans.
Qed.

End Pipeline.

(** The order of the bytes is a consistent comparator. *)
Lemma byte_order_consistent : consistent Samples.byte_order.
Proof.
  assert (Hle : forall a b, precedes Samples.byte_order a b <-> String.compare a b <> Gt).
  { intros a b. unfold precedes, Samples.byte_order.
    destruct (String.compare a b); split; intros H; try lia; congruence. }
  split.
  - intros a b. rewrite !Hle. rewrite (String.compare_antisym a b).
    destruct (String.compare b a); cbn; [left | right | left]; congruence.
  - intros a b c. rewrite !Hle. revert b c.
    induction a as [|x a IH]; intros [|y b] [|z c]; cbn; try congruence.
    unfold Ascii.compare.
    destruct (N.compare_spec (N_of_ascii x) (N_of_ascii y)) as [E1|E1|E1];
    destruct (N.compare_spec (N_of_ascii y) (N_of_ascii z)) as [E2|E2|E2];
    destruct (N.compare_spec (N_of_ascii x) (N_of_ascii z)) as [E3|E3|E3];
    try congruence; try lia.
    apply IH.
Qed.

End ViewFacts.

(** C8: a product whose hidden flag is set is in neither the flattened
    view nor the export table when hidden products are not shown, whatever
    the search text and the selected category. *)
Theorem hidden_products_are_excluded
  (toLowerCase : string -> string) (localeCompare : string -> string -> Z)
  (products : list Product) (categories : list Category) (st : FilterState) (p : Product) :
  showHidden st = false ->
  is_hidden p <> 0 ->
  ~ In (ProductRow p) (flattenedData toLowerCase localeCompare products categories st) /\
  ~ In (ExportProduct p) (exportRows localeCompare products categories st).
Proof.
  intros Hs Hh. split.
  - intros H. unfold flattenedData in H.
    apply ViewFacts.in_view_products in H. rewrite ViewFacts.view_products_flatten in H.
    apply ViewFacts.in_products_of in H as [_ H].
    now apply ViewFacts.passes_visible in H.
  - intros H. unfold exportRows in H. apply in_flat_map in H as (cat & _ & H).
    apply ViewFacts.in_export_category in H as (_ & _ & H).
    rewrite Hs in H. cbn [orb] in H. unfold not_hidden in H. lia.
Qed.

Lemma hidden_products_are_excluded_witness :
  ~ In (ProductRow Samples.winston)
       (flattenedData Samples.uncased Samples.byte_order
          Samples.products Samples.categories Samples.search_1970) /\
  ~ In (ExportProduct Samples.winston)
       (exportRows Samples.byte_order Samples.products Samples.categories
          Samples.search_1970).
Proof.
  apply (hidden_products_are_excluded Samples.uncased Samples.byte_order
           Samples.products Samples.categories Samples.search_1970 Samples.winston).
  - reflexivity.
  - vm_compute. discriminate.
Defined.







(* ===================================================================== *)
(** * The export tiler *)
(* ===================================================================== *)

Module TilerFacts.

Import Tiler.

Local Open Scope Q_scope.

Section Geometry.

Variables pdfWidth pdfPageHeight imgWidth imgHeight : Q.
Hypothesis Wp_pos : 0 < pdfWidth.
Hypothesis Hp_pos : 0 < pdfPageHeight.
Hypothesis W_pos : 0 < imgWidth.
Hypothesis H_pos : 0 < imgHeight.

Let N := totalPages pdfWidth pdfPageHeight imgWidth imgHeight.
Let image := image pdfWidth pdfPageHeight imgWidth imgHeight.
Let scale := scale pdfWidth imgWidth imgHeight.

Lemma scale_pos : 0 < scale.
Proof.
  unfold scale, Tiler.scale, pdfImgHeight.
  assert (E : imgHeight * pdfWidth / imgWidth / imgHeight == pdfWidth / imgWidth).
  { field. split; intros E; rewrite E in *; lra. }
  rewrite E. apply Qlt_shift_div_l; lra.
Qed.

Lemma pages_ratio :
  imgHeight / imgPageHeightInPixels pdfWidth pdfPageHeight imgWidth ==
  imgHeight * scale / pdfPageHeight.
Proof.
  unfold scale, Tiler.scale, pdfImgHeight, imgPageHeightInPixels. field.
  repeat split; intros E; rewrite E in *; lra.
Qed.

Lemma totalPages_pos : (1 <= N)%Z.
Proof.
  subst N. unfold totalPages.
  assert (H : 0 < imgHeight / imgPageHeightInPixels pdfWidth pdfPageHeight imgWidth).
  { rewrite pages_ratio. apply Qlt_shift_div_l; [exact Hp_pos|].
    generalize scale_pos. nra. }
  generalize (Qle_ceiling (imgHeight / imgPageHeightInPixels pdfWidth pdfPageHeight imgWidth)).
  intros Hc.
  assert (H0 : 0 < inject_Z (Qceiling (imgHeight /
                 imgPageHeightInPixels pdfWidth pdfPageHeight imgWidth))) by lra.
  rewrite <- (Zlt_Qlt 0) in H0. lia.
Qed.

Lemma page_step_next i (pdf : PDF) :
  (0 < i)%Z ->
  page_step pdfWidth pdfPageHeight imgWidth imgHeight i pdf = (pdf ++ [[image i]])%list.
Proof.
  intros Hi. unfold page_step. destruct (Z.ltb_spec 0 i) as [_|]; [|lia].
  unfold addPage, addImage. rewrite rev_app_distr. cbn [rev app].
  now rewrite rev_involutive.
Qed.

Lemma page_loop_next n : forall i (pdf : PDF),
  (0 < i)%Z ->
  page_loop pdfWidth pdfPageHeight imgWidth imgHeight n i pdf =
  (pdf ++ pages_from pdfWidth pdfPageHeight imgWidth imgHeight i n)%list.
Proof.
  induction n as [|n IH]; intros i pdf Hi; cbn [page_loop pages_from].
  - now rewrite app_nil_r.
  - rewrite page_step_next by exact Hi. rewrite IH by lia.
    now rewrite <- app_assoc.
Qed.

(** The loop leaves one page per index, with the image of that index. *)
Lemma export_pages_spec :
  export_pages pdfWidth pdfPageHeight imgWidth imgHeight =
  pages_from pdfWidth pdfPageHeight imgWidth imgHeight 0 (Z.to_nat N).
Proof.
  unfold export_pages. fold N. generalize totalPages_pos. intros HN.
  destruct (Z.to_nat N) as [|n] eqn:E; [lia|].
  cbn [page_loop pages_from]. rewrite page_loop_next by lia. reflexivity.
Qed.

Lemma pages_from_length i n :
  length (pages_from pdfWidth pdfPageHeight imgWidth imgHeight i n) = n.
Proof. revert i. induction n as [|n IH]; intros i; cbn; [reflexivity | now rewrite IH]. Qed.

Lemma pages_from_lookup n : forall i (k : nat),
  (k < n)%nat ->
  nth_error (pages_from pdfWidth pdfPageHeight imgWidth imgHeight i n) k =
  Some [image (i + Z.of_nat k)%Z].
Proof.
  induction n as [|n IH]; intros i k Hk; [lia|].
  destruct k as [|k]; cbn [pages_from nth_error].
  - now rewrite Z.add_0_r.
  - rewrite IH by lia. do 3 f_equal. lia.
Qed.

(** The window of page [i]: the source rows it shows. *)
Lemma shows_image i y :
  shows pdfPageHeight imgHeight (image i) y <->
  inject_Z i <= y * scale / pdfPageHeight /\ y * scale / pdfPageHeight < inject_Z i + 1.
Proof.
  unfold shows, image, Tiler.image, position. cbn [at_y height].
  fold (Tiler.scale pdfWidth imgWidth imgHeight). fold scale.
  assert (E : y * scale == (y * scale / pdfPageHeight) * pdfPageHeight).
  { field. intros E. rewrite E in Hp_pos. lra. }
  set (u := y * scale / pdfPageHeight) in *. rewrite E.
  split; intros [H1 H2]; split; nra.
Qed.

Lemma shows_floor i y :
  shows pdfPageHeight imgHeight (image i) y <-> i = Qfloor (y * scale / pdfPageHeight).
Proof.
  rewrite shows_image. set (u := y * scale / pdfPageHeight).
  split.
  - intros [H1 H2].
    assert (Ha : (Qfloor u < i + 1)%Z).
    { rewrite Zlt_Qlt. generalize (Qfloor_le u). rewrite inject_Z_plus.
      change (inject_Z 1) with 1. lra. }
    assert (Hb : (i < Qfloor u + 1)%Z).
    { rewrite Zlt_Qlt. generalize (Qlt_floor u). rewrite !inject_Z_plus.
      change (inject_Z 1) with 1. lra. }
    lia.
  - intros ->. split; [apply Qfloor_le|].
    generalize (Qlt_floor u). rewrite inject_Z_plus. change (inject_Z 1) with 1. lra.
Qed.

Lemma window_of_row y :
  0 <= y -> y < imgHeight ->
  (0 <= Qfloor (y * scale / pdfPageHeight) < N)%Z.
Proof.
  intros Hy0 Hy. generalize scale_pos. intros Hs.
  set (u := y * scale / pdfPageHeight).
  assert (Hinv : 0 < / pdfPageHeight) by now apply Qinv_lt_0_compat.
  assert (Hk : 0 < scale * / pdfPageHeight) by nra.
  assert (Hu0 : 0 <= u) by (unfold u, Qdiv; nra).
  assert (Hu : u < imgHeight * scale / pdfPageHeight) by (unfold u, Qdiv; nra).
  split.
  - change 0%Z with (Qfloor 0). now apply Qfloor_resp_le.
  - rewrite Zlt_Qlt. subst N. unfold totalPages.
    generalize (Qle_ceiling (imgHeight / imgPageHeightInPixels pdfWidth pdfPageHeight imgWidth)).
    rewrite pages_ratio at 1. generalize (Qfloor_le u). lra.
Qed.

Lemma row_of_window i :
  (0 <= i < N)%Z ->
  exists y, 0 <= y /\ y < imgHeight /\ shows pdfPageHeight imgHeight (image i) y.
Proof.
  intros [Hi0 HiN]. generalize scale_pos. intros Hs.
  assert (Hlt : inject_Z i < imgHeight * scale / pdfPageHeight).
  { rewrite <- pages_ratio.
    generalize (Qceiling_lt (imgHeight / imgPageHeightInPixels pdfWidth pdfPageHeight imgWidth)).
    fold (totalPages pdfWidth pdfPageHeight imgWidth imgHeight). fold N.
    assert (Hle : inject_Z i <= inject_Z (N - 1)) by (rewrite <- Zle_Qle; lia). lra. }
  assert (Hi : 0 <= inject_Z i) by (change 0 with (inject_Z 0); rewrite <- Zle_Qle; lia).
  exists (inject_Z i * pdfPageHeight / scale).
  assert (E : inject_Z i * pdfPageHeight / scale * scale / pdfPageHeight == inject_Z i).
  { field. split; intros E; rewrite E in *; lra. }
  assert (Hinv : 0 < / scale) by now apply Qinv_lt_0_compat.
  assert (Hy : inject_Z i * pdfPageHeight / scale < imgHeight).
  { apply Qlt_shift_div_r; [exact Hs|].
    assert (Hb : inject_Z i * pdfPageHeight
                 < imgHeight * scale / pdfPageHeight * pdfPageHeight) by nra.
    assert (E' : imgHeight * scale / pdfPageHeight * pdfPageHeight == imgHeight * scale).
    { field. intros E'. rewrite E' in Hp_pos. lra. }
    lra. }
  split; [|split].
  - assert (Hn : 0 <= inject_Z i * pdfPageHeight) by nra.
    unfold Qdiv. nra.
  - exact Hy.
  - apply shows_image. lra.
Qed.

End Geometry.

End TilerFacts.



(* ===================================================================== *)
(** * The column registry *)
(* ===================================================================== *)

Lemma default_visible_includes_name :
  includes (columns_value DEFAULT_VISIBLE) "name" = true.
Proof. reflexivity. Qed.

(** Whatever was persisted, the initial visible set contains "name". *)
Lemma visibleColumns_init_includes_name
  (JSON_parse : string -> option json) (saved : option string) :
  includes (visibleColumns_init JSON_parse saved) "name" = true.
Proof.
  unfold visibleColumns_init.
  destruct saved as [[|c text]|]; try reflexivity.
  destruct (JSON_parse (String c text)) as [[| | | s | items | fields]|]; try reflexivity.
  - destruct (_ || negb (includes (JSstr s) "name")) eqn:E; [reflexivity|].
    apply orb_false_elim in E as [_ E]. now apply negb_false_iff in E.
  - destruct (_ || negb (includes (JSarr items) "name")) eqn:E; [reflexivity|].
    apply orb_false_elim in E as [_ E]. now apply negb_false_iff in E.
Qed.



(* ===================================================================== *)
(** * The update route of the server *)
(* ===================================================================== *)

Module ServerFacts.

Import Server.

Lemma bind_unnamed v : unnamed v -> bind v = Some SqlNull.
Proof. intros [-> | ->]; reflexivity. Qed.

(** The columns other than [carton_usd] keep their value when the request
    does not name them. *)
Lemma update_row_frame req r r' :
  update_row req r = Some r' ->
  (unnamed (b_name req) -> r_name r' = r_name r) /\
  (unnamed (b_cost_usd req) -> r_cost_usd r' = r_cost_usd r) /\
  (unnamed (b_profit_syp req) -> r_profit_syp r' = r_profit_syp r) /\
  (unnamed (b_wholesale_profit_syp req) ->
   r_wholesale_profit_syp r' = r_wholesale_profit_syp r) /\
  (unnamed (b_wholesale_carton_usd req) ->
   r_wholesale_carton_usd r' = r_wholesale_carton_usd r) /\
  (unnamed (b_category_id req) -> r_category_id r' = r_category_id r) /\
  (unnamed (b_is_hidden req) -> r_is_hidden r' = r_is_hidden r).
Proof.
  unfold update_row. intros H.
  destruct (bind (b_name req)) as [v1|] eqn:E1; [|discriminate].
  destruct (bind (b_cost_usd req)) as [v2|] eqn:E2; [|discriminate].
  destruct (bind (b_profit_syp req)) as [v3|] eqn:E3; [|discriminate].
  destruct (bind (b_wholesale_profit_syp req)) as [v4|] eqn:E4; [|discriminate].
  destruct (bind (effectiveCartonUsd req)) as [v5|] eqn:E5; [|discriminate].
  destruct (bind (b_carton_usd req)) as [v6|] eqn:E6; [|discriminate].
  destruct (bind (b_wholesale_carton_usd req)) as [v7|] eqn:E7; [|discriminate].
  destruct (bind (b_category_id req)) as [v8|] eqn:E8; [|discriminate].
  destruct (bind (b_is_hidden req)) as [v9|] eqn:E9; [|discriminate].
  cbn in H. injection H as <-. cbn.
  repeat split; intros Hu; apply bind_unnamed in Hu;
    match goal with
    | E : bind ?f = Some ?v, Hu : bind ?f = Some SqlNull |- COALESCE ?v _ = _ =>
        rewrite Hu in E; injection E as <-; reflexivity
    end.
Qed.

(** When the request names a cost, the legacy column receives it. *)
Lemma update_row_sync req r r' x :
  update_row req r = Some r' ->
  b_cost_usd req = JNum x ->
  r_cost_usd r' = SqlReal x /\ r_carton_usd r' = SqlReal x.
Proof.
  unfold update_row, effectiveCartonUsd. intros H Hc. rewrite Hc in H. cbn [bind] in H.
  destruct (bind (b_name req)) as [v1|]; [|discriminate].
  destruct (bind (b_profit_syp req)) as [v3|]; [|discriminate].
  destruct (bind (b_wholesale_profit_syp req)) as [v4|]; [|discriminate].
  destruct (bind (b_carton_usd req)) as [v6|]; [|discriminate].
  destruct (bind (b_wholesale_carton_usd req)) as [v7|]; [|discriminate].
  destruct (bind (b_category_id req)) as [v8|]; [|discriminate].
  destruct (bind (b_is_hidden req)) as [v9|]; [|discriminate].
  cbn in H. injection H as <-. cbn. split; reflexivity.
Qed.

(** When the request names neither cost, the legacy column is set to
    NULL, whatever it held. *)
Lemma update_row_clears_carton_usd req r r' :
  update_row req r = Some r' ->
  unnamed (b_cost_usd req) -> unnamed (b_carton_usd req) ->
  r_carton_usd r' = SqlNull.
Proof.
  unfold update_row, effectiveCartonUsd. intros H Hc Hk.
  destruct (bind (b_name req)) as [v1|]; [|discriminate].
  destruct (bind (b_cost_usd req)) as [v2|]; [|discriminate].
  destruct (bind (b_profit_syp req)) as [v3|]; [|discriminate].
  destruct (bind (b_wholesale_profit_syp req)) as [v4|]; [|discriminate].
  destruct Hc as [Hc|Hc], Hk as [Hk|Hk]; rewrite Hc, Hk in H; cbn [bind] in H;
    destruct (bind (b_wholesale_carton_usd req)) as [v7|]; try discriminate;
    destruct (bind (b_category_id req)) as [v8|]; try discriminate;
    destruct (bind (b_is_hidden req)) as [v9|]; try discriminate;
    cbn in H; injection H as <-; reflexivity.
Qed.

End ServerFacts.

(** C1 at the request of the context menu, which names [is_hidden] only:
    the handler keeps every other column of the row and writes NULL in
    [carton_usd], which held 22.56. *)
Theorem updateProduct_hide_clears_carton_usd :
  let table : gmap Z Server.row := {[ 1 := Samples.legacy_row ]} in
  let table' := Server.updateProduct 1 Samples.hide_request table in
  Server.r_carton_usd <$> (table !! 1) = Some (Server.SqlReal (Num.ratio 2256 100)) /\
  Server.r_carton_usd <$> (table' !! 1) = Some Server.SqlNull /\
  Server.r_is_hidden <$> (table' !! 1) = Some (Server.SqlReal (Num.of_Z 1)) /\
  Server.r_cost_usd <$> (table' !! 1) = Server.r_cost_usd <$> (table !! 1) /\
  Server.r_name <$> (table' !! 1) = Server.r_name <$> (table !! 1).
Proof. repeat split; vm_compute; reflexivity. Qed.

(* ===================================================================== *)
(** * Further properties of the client and of the server *)
(* ===================================================================== *)

(** ** The column registry *)

Module ColumnFacts.

Lemma includes_app items items' col :
  includes (JSarr (items ++ items')) col =
  includes (JSarr items) col || includes (JSarr items') col.
Proof. cbn [includes]. apply existsb_app. Qed.

Lemma includes_single col col' :
  includes (JSarr [JSstr col']) col = String.eqb col' col.
Proof. cbn. now rewrite orb_false_r. Qed.

Lemma includes_In items col : includes (JSarr items) col = true <-> In (JSstr col) items.
Proof.
  cbn [includes]. rewrite existsb_exists. split.
  - intros (v & Hv & E). destruct v; try discriminate.
    cbn in E. apply String.eqb_eq in E. now subst.
  - intros H. exists (JSstr col). split; [exact H | cbn; apply String.eqb_refl].
Qed.

(** The loop over the defaults appends the missing ones, in their order. *)
Lemma fold_push_missing (defaults : list string) : forall merged,
  NoDup defaults ->
  fold_left push_missing defaults merged =
  merged ++ map JSstr (List.filter (fun col => negb (includes (JSarr merged) col)) defaults).
Proof.
  induction defaults as [|d ds IH]; intros merged Hnd; cbn [fold_left List.filter map].
  - now rewrite app_nil_r.
  - apply NoDup_cons in Hnd as [Hd Hnd]. rewrite IH by exact Hnd.
    unfold push_missing. destruct (includes (JSarr merged) d) eqn:E; cbn [negb]; [reflexivity|].
    cbn [map]. rewrite <- app_assoc. cbn [app]. do 3 f_equal.
    apply GroupFacts.filter_ext_on. intros col Hcol.
    rewrite includes_app, includes_single.
    destruct (String.eqb_spec d col) as [->|_]; [|now rewrite orb_false_r].
    exfalso. apply Hd. now apply list_elem_of_In.
Qed.

Lemma NoDup_DEFAULT_COLUMNS : NoDup DEFAULT_COLUMNS.
Proof. apply (bool_decide_unpack _). vm_compute. reflexivity. Qed.

Lemma merge_defaults_spec items :
  merge_defaults items =
  items ++ map JSstr (List.filter (fun col => negb (includes (JSarr items) col)) DEFAULT_COLUMNS).
Proof. apply fold_push_missing, NoDup_DEFAULT_COLUMNS. Qed.

Lemma merge_defaults_complete items col :
  In col DEFAULT_COLUMNS -> includes (JSarr (merge_defaults items)) col = true.
Proof.
  intros Hcol. rewrite merge_defaults_spec, includes_app.
  destruct (includes (JSarr items) col) eqn:E; [reflexivity|]. cbn [orb].
  apply includes_In, in_map, filter_In. split; [exact Hcol | now rewrite E].
Qed.

Lemma defaults_complete col :
  In col DEFAULT_COLUMNS -> includes (JSarr (map JSstr DEFAULT_COLUMNS)) col = true.
Proof. intros H. now apply includes_In, in_map. Qed.

Lemma columnOrder_init_complete JSON_parse saved col :
  In col DEFAULT_COLUMNS ->
  includes (JSarr (columnOrder_init JSON_parse saved)) col = true.
Proof.
  intros Hcol. unfold columnOrder_init.
  destruct saved as [[|c text]|]; try now apply defaults_complete.
  destruct (JSON_parse (String c text)) as [parsed|]; [|now apply defaults_complete].
  destruct (spread parsed) as [items|]; [|now apply defaults_complete].
  now apply merge_defaults_complete.
Qed.

Lemma filter_false {A} (l : list A) : List.filter (fun _ => false) l = [].
Proof. induction l; [reflexivity | exact IHl]. Qed.

Lemma existsb_filter_out {A} (f : A -> bool) l :
  existsb f (List.filter (fun v => negb (f v)) l) = false.
Proof.
  induction l as [|a l IH]; [reflexivity|]. cbn.
  destruct (f a) eqn:E; cbn; [exact IH | now rewrite E].
Qed.

Lemma existsb_filter_other {A} (f g : A -> bool) l :
  (forall a, f a = true -> g a = false) ->
  existsb f (List.filter (fun v => negb (g v)) l) = existsb f l.
Proof.
  intros H. induction l as [|a l IH]; [reflexivity|]. cbn.
  destruct (g a) eqn:E; cbn.
  - rewrite IH. destruct (f a) eqn:F; [|reflexivity]. apply H in F. congruence.
  - now rewrite IH.
Qed.

Lemma strings_of_In items ids col :
  strings_of items = Some ids -> In (JSstr col) items -> In col ids.
Proof.
  unfold strings_of. revert ids.
  induction items as [|v items IH]; intros ids H Hin; [contradiction|].
  cbn [mapM] in H.
  destruct (column_id v) as [s|] eqn:Ev; [|discriminate]. cbn in H.
  destruct (mapM column_id items) as [ids'|]; [|discriminate]. cbn in H.
  injection H as <-. destruct Hin as [-> | Hin].
  - cbn in Ev. injection Ev as <-. now left.
  - right. now apply IH.
Qed.

Lemma find_column_known col : In col COLUMN_IDS -> find_column col = Some col.
Proof.
  intros H. unfold find_column.
  destruct (List.find (String.eqb col) COLUMN_IDS) as [c|] eqn:E.
  - apply find_some in E as [_ E]. apply String.eqb_eq in E. now subst.
  - exfalso. apply (find_none _ _ E col) in H. now rewrite String.eqb_refl in H.
Qed.

Lemma in_omap {A B} (f : A -> option B) l a b :
  In a l -> f a = Some b -> In b (omap f l).
Proof.
  intros Ha Hf. apply list_elem_of_In, list_elem_of_omap.
  exists a. split; [now apply list_elem_of_In | exact Hf].
Qed.

Lemma in_filteredColumns columnOrder visibleColumns editing col :
  In col columnOrder -> includes visibleColumns col = true -> In col COLUMN_IDS ->
  In col (filteredColumns columnOrder visibleColumns editing).
Proof.
  intros Ho Hv Hk.
  assert (H : In col (omap find_column (List.filter (includes visibleColumns) columnOrder))).
  { apply (in_omap _ _ col); [|now apply find_column_known].
    apply filter_In. now split. }
  unfold filteredColumns. cbv zeta.
  destruct editing; [|exact H].
  destruct (find_column "actions"); [|exact H].
  apply in_or_app. now left.
Qed.

End ColumnFacts.

(** X1: whatever the two persisted values are, when the order the
    initializer gives is an array of strings, the rendered columns
    contain the name column. *)
Theorem name_column_is_rendered
  (JSON_parse : string -> option json) (savedOrder savedVisible : option string)
  (columnOrder : list string) (editing : bool) :
  strings_of (columnOrder_init JSON_parse savedOrder) = Some columnOrder ->
  In "name"%string
     (filteredColumns columnOrder (visibleColumns_init JSON_parse savedVisible) editing).
Proof.
  intros Hs. apply ColumnFacts.in_filteredColumns.
  - apply (ColumnFacts.strings_of_In _ _ _ Hs).
    apply ColumnFacts.includes_In, ColumnFacts.columnOrder_init_complete. now left.
  - apply visibleColumns_init_includes_name.
  - now left.
Qed.

Lemma name_column_is_rendered_witness :
  In "name"%string
     (filteredColumns DEFAULT_COLUMNS
        (visibleColumns_init Cases.read_only_lsg (Some Cases.only_lsg_text)) false).
Proof.
  apply (name_column_is_rendered Cases.read_only_lsg None (Some Cases.only_lsg_text)
           DEFAULT_COLUMNS false).
  reflexivity.
Defined.

(** X2: the initializer of the column order keeps the saved array as it
    is and appends the default columns it lacks, in their order; every
    default column is in the result, whatever was saved. *)
Theorem columnOrder_init_keeps_saved_order
  (JSON_parse : string -> option json) (text : string) (parsed : json) (items : list json) :
  text <> ""%string ->
  JSON_parse text = Some parsed ->
  spread parsed = Some items ->
  columnOrder_init JSON_parse (Some text) =
    items ++ map JSstr (List.filter (fun col => negb (includes (JSarr items) col))
                                    DEFAULT_COLUMNS) /\
  ((forall col, In col DEFAULT_COLUMNS -> In (JSstr col) items) ->
   columnOrder_init JSON_parse (Some text) = items) /\
  (forall saved col, In col DEFAULT_COLUMNS ->
     In (JSstr col) (columnOrder_init JSON_parse saved)).
Proof.
  intros Ht Hp Hs.
  assert (E : columnOrder_init JSON_parse (Some text) = merge_defaults items).
  { unfold columnOrder_init. destruct text as [|c text]; [contradiction|].
    now rewrite Hp, Hs. }
  rewrite E, ColumnFacts.merge_defaults_spec. split; [reflexivity|]. split.
  - intros Hall.
    rewrite (GroupFacts.filter_ext_on _ (fun _ => false)), ColumnFacts.filter_false.
    + apply app_nil_r.
    + intros col Hcol. apply Hall, ColumnFacts.includes_In in Hcol. now rewrite Hcol.
  - intros saved col Hcol.
    now apply ColumnFacts.includes_In, ColumnFacts.columnOrder_init_complete.
Qed.

Lemma columnOrder_init_keeps_saved_order_witness :
  columnOrder_init Cases.read_only_lsg (Some Cases.only_lsg_text) =
  [JSstr "lsg"; JSstr "name"; JSstr "syp_final"; JSstr "cost_usd"; JSstr "profit_syp";
   JSstr "wholesale_carton_usd"; JSstr "case_usd"; JSstr "wholesale_case_usd"].
Proof.
  apply (columnOrder_init_keeps_saved_order Cases.read_only_lsg Cases.only_lsg_text
           Cases.only_lsg [JSstr "lsg"]).
  - vm_compute. discriminate.
  - reflexivity.
  - reflexivity.
Defined.

(** X3: a click on the check box of a column, on an array of visible
    columns, flips the visibility of that column and of no other, and
    leaves the other entries in their order. *)
Theorem toggleColumn_flips_one (colId : string) (items : list json) :
  exists items',
    toggleColumn colId (JSarr items) = Some (JSarr items') /\
    includes (JSarr items') colId = negb (includes (JSarr items) colId) /\
    (forall other, other <> colId ->
       includes (JSarr items') other = includes (JSarr items) other) /\
    List.filter (fun v => negb (is_string colId v)) items' =
    List.filter (fun v => negb (is_string colId v)) items.
Proof.
  unfold toggleColumn. destruct (includes (JSarr items) colId) eqn:E.
  - eexists. split; [reflexivity|]. split; [|split].
    + cbn [negb includes]. apply ColumnFacts.existsb_filter_out.
    + intros other Hother. cbn [includes]. apply ColumnFacts.existsb_filter_other.
      intros v Hv. destruct v as [| | |s| |]; try reflexivity. cbn in *.
      apply String.eqb_eq in Hv. subst.
      destruct (String.eqb_spec other colId); [contradiction | reflexivity].
    + rewrite GroupFacts.filter_twice. apply GroupFacts.filter_ext_on.
      intros v _. now rewrite andb_diag.
  - eexists. split; [reflexivity|]. split; [|split].
    + rewrite ColumnFacts.includes_app, E, ColumnFacts.includes_single.
      cbn. apply String.eqb_refl.
    + intros other Hother. rewrite ColumnFacts.includes_app, ColumnFacts.includes_single.
      destruct (String.eqb_spec colId other); [congruence | apply orb_false_r].
    + rewrite List.filter_app. cbn. rewrite String.eqb_refl. cbn. apply app_nil_r.
Qed.

(** X4: unchecking the name column does not survive a reload: the array
    without it is persisted, and the initializer of the next load answers
    the default visible columns. *)
Theorem hidden_name_column_is_restored
  (JSON_parse : string -> option json) (JSON_stringify : json -> string)
  (items : list json) :
  let hidden := JSarr (List.filter (fun v => negb (is_string "name" v)) items) in
  includes (JSarr items) "name" = true ->
  JSON_parse (JSON_stringify hidden) = Some hidden ->
  toggleColumn "name" (JSarr items) = Some hidden /\
  includes hidden "name" = false /\
  visibleColumns_init JSON_parse (persisted JSON_stringify hidden)
    = columns_value DEFAULT_VISIBLE.
Proof.
  intros hidden Hin Hround.
  assert (Hno : includes hidden "name" = false)
    by apply ColumnFacts.existsb_filter_out.
  split; [|split; [exact Hno|]].
  - unfold toggleColumn. now rewrite Hin.
  - unfold persisted, visibleColumns_init.
    destruct (JSON_stringify hidden) as [|c text]; [reflexivity|].
    rewrite Hround. unfold hidden in *. rewrite Hno. cbn [negb].
    now rewrite orb_true_r.
Qed.

Lemma hidden_name_column_is_restored_witness :
  toggleColumn "name" (JSarr [JSstr "name"; JSstr "lsg"]) = Some Cases.only_lsg /\
  includes Cases.only_lsg "name" = false /\
  visibleColumns_init Cases.read_only_lsg (persisted Cases.write_only_lsg Cases.only_lsg)
    = columns_value DEFAULT_VISIBLE.
Proof.
  apply (hidden_name_column_is_restored Cases.read_only_lsg Cases.write_only_lsg
           [JSstr "name"; JSstr "lsg"]).
  - reflexivity.
  - reflexivity.
Defined.

(** ** The arrow buttons *)

Module MoveFacts.

Lemma swap_items_cons {A} (x : A) i j l :
  swap_items (S i) (S j) (x :: l) = x :: swap_items i j l.
Proof.
  unfold swap_items. cbn [lookup list_lookup].
  destruct (l !! i), (l !! j); reflexivity.
Qed.

Lemma swap_items_adjacent {A} (l1 l2 : list A) a b :
  swap_items (length l1) (S (length l1)) (l1 ++ a :: b :: l2) = l1 ++ b :: a :: l2 /\
  swap_items (S (length l1)) (length l1) (l1 ++ a :: b :: l2) = l1 ++ b :: a :: l2.
Proof.
  induction l1 as [|x l1 [IH1 IH2]]; [split; reflexivity|].
  cbn [length app]. rewrite !swap_items_cons, IH1, IH2. split; reflexivity.
Qed.

Lemma swap_items_out {A} i j (l : list A) :
  (length l <= i)%nat \/ (length l <= j)%nat -> swap_items i j l = l.
Proof.
  intros H. unfold swap_items.
  destruct (l !! i) eqn:Ei; [|reflexivity].
  destruct (l !! j) eqn:Ej; [|reflexivity].
  apply lookup_lt_Some in Ei, Ej. lia.
Qed.

Lemma adjacent_split {A} i (l : list A) :
  (S i < length l)%nat ->
  exists l1 a b l2, l = l1 ++ a :: b :: l2 /\ length l1 = i.
Proof.
  revert l. induction i as [|i IH]; intros l H.
  - destruct l as [|a [|b l2]]; cbn in H; try lia. now exists [], a, b, l2.
  - destruct l as [|x l]; cbn in H; [lia|].
    destruct (IH l ltac:(lia)) as (l1 & a & b & l2 & -> & Hl).
    exists (x :: l1), a, b, l2. split; [reflexivity | cbn; lia].
Qed.

Lemma swap_items_perm {A} i (l : list A) :
  Permutation (swap_items i (S i) l) l /\ Permutation (swap_items (S i) i l) l.
Proof.
  destruct (Nat.lt_ge_cases (S i) (length l)) as [H|H].
  - destruct (adjacent_split i l H) as (l1 & a & b & l2 & -> & <-).
    destruct (swap_items_adjacent l1 l2 a b) as [-> ->].
    split; apply Permutation_app_head, perm_swap.
  - rewrite !swap_items_out by lia. split; reflexivity.
Qed.

End MoveFacts.

(** X5: the two arrow buttons only permute the array, and moving an
    entry up exchanges it with the one before it, which the down arrow of
    its new place undoes. *)
Theorem moveUp_moveDown {A : Type} (index : nat) (l : list A) :
  Permutation (moveUp index l) l /\
  Permutation (moveDown index l) l /\
  ((0 < index < length l)%nat ->
   moveUp index l !! (index - 1)%nat = l !! index /\
   moveUp index l !! index = l !! (index - 1)%nat /\
   moveDown (index - 1) (moveUp index l) = l).
Proof.
  split; [|split].
  - destruct index as [|i]; [reflexivity|]. apply MoveFacts.swap_items_perm.
  - unfold moveDown. destruct (S index =? length l)%nat; [reflexivity|].
    apply MoveFacts.swap_items_perm.
  - intros [H0 H]. destruct index as [|i]; [lia|].
    destruct (MoveFacts.adjacent_split i l H) as (l1 & a & b & l2 & -> & <-).
    cbn [moveUp]. replace (S (length l1) - 1)%nat with (length l1) by lia.
    destruct (MoveFacts.swap_items_adjacent l1 l2 a b) as [-> _].
    split; [|split].
    + rewrite !list_lookup_middle by reflexivity.
      rewrite (lookup_app_r l1 (a :: b :: l2)) by lia.
      now replace (S (length l1) - length l1)%nat with 1%nat by lia.
    + rewrite (lookup_app_r l1 (b :: a :: l2)) by lia.
      replace (S (length l1) - length l1)%nat with 1%nat by lia.
      now rewrite list_lookup_middle by reflexivity.
    + unfold moveDown. rewrite length_app. cbn [length].
      destruct (Nat.eqb_spec (S (length l1)) (length l1 + S (S (length l2)))); [lia|].
      now destruct (MoveFacts.swap_items_adjacent l1 l2 b a) as [_ ->].
Qed.

Lemma moveUp_moveDown_witness :
  moveUp 1 Samples.categories !! 0%nat = Some Samples.general /\
  moveUp 1 Samples.categories !! 1%nat = Some Samples.brand_1970 /\
  moveDown 0 (moveUp 1 Samples.categories) = Samples.categories.
Proof.
  apply (moveUp_moveDown 1 Samples.categories). cbn. lia.
Defined.

(** ** The pipeline under the handlers of the client *)

Module PipelineFacts.

Import SortFacts GroupFacts ViewFacts.

Lemma existsb_filter_subset {A} (f g : A -> bool) l :
  existsb f l = false -> existsb f (List.filter g l) = false.
Proof.
  induction l as [|a l IH]; [reflexivity|]. cbn. intros H.
  apply orb_false_elim in H as [Ha Hl].
  destruct (g a); cbn; [rewrite Ha|]; now apply IH.
Qed.

(** The categories of the view are the candidate names that have a
    bucket. *)
Lemma orderedCategories_candidates groups categories :
  orderedCategories_of groups categories =
  List.filter (has_group groups) (candidate_names categories).
Proof.
  unfold orderedCategories_of, candidate_names. cbv zeta.
  set (names := map cat_name (sort compareCategories categories)).
  destruct (existsb (String.eqb uncategorized) names) eqn:En.
  - destruct (has_group groups uncategorized) eqn:Eg; [|reflexivity]. cbn [andb].
    assert (H : existsb (String.eqb uncategorized) (List.filter (has_group groups) names) = true).
    { apply existsb_eqb_In, filter_In. split; [now apply existsb_eqb_In | exact Eg]. }
    now rewrite H.
  - rewrite (existsb_filter_subset _ _ _ En), andb_true_r, List.filter_app.
    cbn [List.filter]. destruct (has_group groups uncategorized); [reflexivity|].
    now rewrite app_nil_r.
Qed.

Lemma filter_flat_map {A B} (P : B -> bool) (f : A -> list B) l :
  List.filter P (flat_map f l) = flat_map (fun a => List.filter P (f a)) l.
Proof.
  induction l as [|a l IH]; [reflexivity|]. cbn. now rewrite List.filter_app, IH.
Qed.

Lemma filter_comm {A} (f g : A -> bool) l :
  List.filter f (List.filter g l) = List.filter g (List.filter f l).
Proof.
  rewrite !filter_twice. apply filter_ext_on. intros a _. apply andb_comm.
Qed.

Lemma sort_insert_map {A B} (f : A -> B) (cmp : A -> A -> Z) (cmp' : B -> B -> Z) x l :
  (forall a b, cmp' (f a) (f b) = cmp a b) ->
  sort_insert cmp' (f x) (map f l) = map f (sort_insert cmp x l).
Proof.
  intros H. induction l as [|y l IH]; [reflexivity|]. cbn.
  rewrite H. destruct (cmp x y <=? 0); [reflexivity|]. cbn. now rewrite IH.
Qed.

Lemma sort_map {A B} (f : A -> B) (cmp : A -> A -> Z) (cmp' : B -> B -> Z) l :
  (forall a b, cmp' (f a) (f b) = cmp a b) ->
  sort cmp' (map f l) = map f (sort cmp l).
Proof.
  intros H. induction l as [|x l IH]; [reflexivity|]. unfold sort in *. cbn.
  rewrite IH. now apply sort_insert_map.
Qed.

Lemma StronglySorted_filter {A} (R : A -> A -> Prop) (P : A -> bool) l :
  StronglySorted R l -> StronglySorted R (List.filter P l).
Proof.
  induction 1 as [|a l Hs IH Ha]; [constructor|]. cbn.
  destruct (P a); [|exact IH]. constructor; [exact IH|].
  rewrite List.Forall_forall in *. intros x Hx. apply filter_In in Hx as [Hx _]. auto.
Qed.

Section Pipeline.

Variable toLowerCase : string -> string.
Variable localeCompare : string -> string -> Z.

(** The product rows of the view: for each candidate name in turn, the
    products that pass the filter and carry it. *)
Lemma view_products_candidates products categories st :
  view_products (flattenedData toLowerCase localeCompare products categories st) =
  flat_map (fun c => List.filter (fun p => String.eqb (group_key p) c)
                       (filtered_of toLowerCase localeCompare products st))
           (candidate_names categories).
Proof.
  unfold flattenedData. rewrite view_products_flatten, products_of_groupedData.
  unfold groupedData. cbn [categories_of]. rewrite orderedCategories_candidates.
  apply flat_map_filter_nil. intros c _ Hc.
  destruct (List.filter _ _) as [|p l] eqn:E; [reflexivity|].
  assert (Hg : has_group (build_groups (filtered_of toLowerCase localeCompare products st)) c
               = true); [|congruence].
  apply has_group_build_groups. exists p.
  assert (Hin : In p (p :: l)) by now left. rewrite <- E in Hin.
  apply filter_In in Hin as [Hin Hk]. split; [exact Hin | now apply String.eqb_eq].
Qed.

(** A filter on the products that reaches the filtered list reaches the
    view. *)
Lemma view_products_filter (Q : Product -> bool) products products' categories st :
  filtered_of toLowerCase localeCompare products' st =
    List.filter Q (filtered_of toLowerCase localeCompare products st) ->
  view_products (flattenedData toLowerCase localeCompare products' categories st) =
  List.filter Q (view_products (flattenedData toLowerCase localeCompare products categories st)).
Proof.
  intros H. rewrite !view_products_candidates, H, filter_flat_map.
  apply flat_map_ext_on. intros c _. apply filter_comm.
Qed.

End Pipeline.

End PipelineFacts.

(** X6: deleting a product on the client takes its rows out of the view
    and leaves every other product row where it was. *)
Theorem deleted_product_leaves_the_view
  (toLowerCase : string -> string) (localeCompare : string -> string -> Z)
  (pid : Z) (products : list Product) (categories : list Category) (st : FilterState) :
  consistent localeCompare ->
  view_products (flattenedData toLowerCase localeCompare
                   (remaining_products pid products) categories st) =
  remaining_products pid
    (view_products (flattenedData toLowerCase localeCompare products categories st)).
Proof.
  intros Hc. unfold remaining_products. apply PipelineFacts.view_products_filter.
  unfold filtered_of.
  rewrite <- (SortFacts.filter_sort _ (ViewFacts.compareProducts_consistent _ Hc)).
  apply PipelineFacts.filter_comm.
Qed.

Lemma deleted_product_leaves_the_view_witness :
  view_products (flattenedData Samples.uncased Samples.byte_order
                   (remaining_products 8 Samples.products) Samples.categories
                   Samples.no_filter) =
  remaining_products 8
    (view_products (flattenedData Samples.uncased Samples.byte_order
                      Samples.products Samples.categories Samples.no_filter)).
Proof.
  apply (deleted_product_leaves_the_view Samples.uncased Samples.byte_order 8
           Samples.products Samples.categories Samples.no_filter).
  exact ViewFacts.byte_order_consistent.
Defined.

Module HideFacts.

Import SortFacts GroupFacts ViewFacts PipelineFacts.

Lemma filter_map_rest {A} (P : A -> bool) (Q : A -> bool) (f : A -> A) l :
  (forall a, Q a = true -> f a = a) ->
  (forall a, Q a = false -> P (f a) = false) ->
  List.filter P (map f l) = List.filter Q (List.filter P l).
Proof.
  intros Hkeep Hdrop. induction l as [|a l IH]; [reflexivity|]. cbn.
  destruct (Q a) eqn:E.
  - rewrite (Hkeep a E). destruct (P a); cbn; [rewrite E|]; now rewrite IH.
  - rewrite (Hdrop a E). destruct (P a); cbn; [rewrite E|]; exact IH.
Qed.

End HideFacts.

(** X7: with hidden products not shown, the click that hides a product
    takes its rows out of the view and leaves every other product row
    where it was. *)
Theorem hidden_product_leaves_the_view
  (toLowerCase : string -> string) (localeCompare : string -> string -> Z)
  (pid : Z) (product : Product) (products : list Product) (table : gmap Z Server.row)
  (categories : list Category) (st : FilterState) :
  List.find (fun p => id p =? pid) products = Some product ->
  is_hidden product <> 1 ->
  showHidden st = false ->
  view_products (flattenedData toLowerCase localeCompare
                   (fst (toggle_hidden_click pid (products, table))) categories st) =
  remaining_products pid
    (view_products (flattenedData toLowerCase localeCompare products categories st)).
Proof.
  intros Hfind Hvis Hshow. unfold toggle_hidden_click. cbn [fst]. rewrite Hfind.
  unfold handleUpdateProduct. cbn [fst]. unfold remaining_products.
  apply PipelineFacts.view_products_filter.
  unfold filtered_of, updated_products.
  set (f := fun p => if id p =? pid then apply_updates p (toggle_hidden product) else p).
  rewrite (PipelineFacts.sort_map f (compareProducts localeCompare)).
  2:{ intros a b. unfold f, compareProducts.
      destruct (id a =? pid), (id b =? pid); reflexivity. }
  apply HideFacts.filter_map_rest.
  - intros a Ha. unfold f. apply negb_true_iff in Ha. now rewrite Ha.
  - intros a Ha. unfold f. apply negb_false_iff in Ha. rewrite Ha.
    unfold passes, not_hidden, apply_updates, toggle_hidden. cbn.
    rewrite Hshow. destruct (Z.eqb_spec (is_hidden product) 1); [contradiction|].
    cbn. apply andb_false_r.
Qed.

Lemma hidden_product_leaves_the_view_witness :
  view_products (flattenedData Samples.uncased Samples.byte_order
                   (fst (toggle_hidden_click 8 (Samples.products, Cases.one_row)))
                   Samples.categories Samples.no_filter) =
  remaining_products 8
    (view_products (flattenedData Samples.uncased Samples.byte_order
                      Samples.products Samples.categories Samples.no_filter)).
Proof.
  apply (hidden_product_leaves_the_view Samples.uncased Samples.byte_order 8
           Samples.blue_1970 Samples.products Cases.one_row Samples.categories
           Samples.no_filter).
  - reflexivity.
  - vm_compute. discriminate.
  - reflexivity.
Defined.

(** ** The layout of the view *)

Module LayoutFacts.

Import GroupFacts.

Lemma flatten_from_product rows : forall last before p after,
  flatten_from last rows = before ++ ProductRow p :: after ->
  (group_key p = last /\
   exists between, before = map ProductRow between /\
                   Forall (fun q => group_key q = last) between) \/
  (exists above between,
     before = above ++ CategoryRow (group_key p) :: map ProductRow between /\
     Forall (fun q => group_key q = group_key p) between).
Proof.
  induction rows as [|q rest IH]; intros last before p after H.
  - destruct before; discriminate.
  - cbn [flatten_from] in H.
    destruct (String.eqb_spec (group_key q) last) as [Eq|Eq]; cbn [negb] in H.
    + destruct before as [|r before]; cbn [app] in H.
      * injection H as -> _. left. split; [exact Eq|]. now exists [].
      * injection H as <- H. destruct (IH _ _ _ _ H) as [(Hk & between & -> & Hb)|
                                                         (above & between & -> & Hb)].
        -- left. split; [exact Hk|]. exists (q :: between). split; [reflexivity|].
           now constructor.
        -- right. now exists (ProductRow q :: above), between.
    + destruct before as [|r before]; cbn [app] in H; [discriminate|].
      injection H as <- H.
      destruct before as [|r before]; cbn [app] in H.
      * injection H as -> _. right. now exists [], [].
      * injection H as <- H. destruct (IH _ _ _ _ H) as [(Hk & between & -> & Hb)|
                                                         (above & between & -> & Hb)].
        -- right. exists [], (q :: between). rewrite Hk. split; [reflexivity|].
           now constructor.
        -- right. now exists (CategoryRow (group_key q) :: ProductRow q :: above), between.
Qed.

Lemma flatten_from_header rows : forall last before c after,
  flatten_from last rows = before ++ CategoryRow c :: after ->
  exists p rest, after = ProductRow p :: rest /\ group_key p = c.
Proof.
  induction rows as [|q rest IH]; intros last before c after H.
  - destruct before; discriminate.
  - cbn [flatten_from] in H.
    destruct (String.eqb (group_key q) last); cbn [negb] in H.
    + destruct before as [|r before]; cbn [app] in H; [discriminate|].
      injection H as _ H. exact (IH _ _ _ _ H).
    + destruct before as [|r before]; cbn [app] in H.
      * injection H as <- <-. now exists q, (flatten_from (group_key q) rest).
      * injection H as _ H. destruct before as [|r' before]; cbn [app] in H; [discriminate|].
        injection H as _ H. exact (IH _ _ _ _ H).
Qed.

Lemma length_flat_map_sum {A B} (f : A -> list B) l :
  length (flat_map f l) = list_sum (map (fun a => length (f a)) l).
Proof.
  induction l as [|a l IH]; [reflexivity|]. cbn. now rewrite length_app, IH.
Qed.

End LayoutFacts.

(** X8: in the flattened view every product row stands under the header
    of its own category, with nothing but product rows of that category in
    between, and every header is directly followed by a product row of its
    category: no header is left without products. *)
Theorem flattenedData_layout
  (toLowerCase : string -> string) (localeCompare : string -> string -> Z)
  (products : list Product) (categories : list Category) (st : FilterState) :
  let rows := flattenedData toLowerCase localeCompare products categories st in
  (forall before p after, rows = before ++ ProductRow p :: after ->
     exists above between,
       before = above ++ CategoryRow (group_key p) :: map ProductRow between /\
       Forall (fun q => group_key q = group_key p) between) /\
  (forall before c after, rows = before ++ CategoryRow c :: after ->
     exists p rest, after = ProductRow p :: rest /\ group_key p = c).
Proof.
  intros rows. split.
  - intros before p after H.
    destruct (LayoutFacts.flatten_from_product _ _ _ _ _ H) as [[Hk _]|Hr]; [|exact Hr].
    now apply GroupFacts.group_key_not_empty in Hk.
  - intros before c after H. exact (LayoutFacts.flatten_from_header _ _ _ _ _ H).
Qed.

Lemma flattenedData_layout_witness :
  exists above between,
    [CategoryRow "عام"; ProductRow Samples.legacy_product; CategoryRow "1970"]
      = above ++ CategoryRow (group_key Samples.blue_1970) :: map ProductRow between /\
    Forall (fun q => group_key q = group_key Samples.blue_1970) between.
Proof.
  apply (proj1 (flattenedData_layout Samples.uncased Samples.byte_order
                  Samples.products Samples.categories Samples.no_filter)
               [CategoryRow "عام"; ProductRow Samples.legacy_product; CategoryRow "1970"]
               Samples.blue_1970 []).
  vm_compute. reflexivity.
Defined.




(** ** The export table *)

Module ExportFacts.

Import SortFacts GroupFacts ViewFacts PipelineFacts.

Lemma flat_map_perm {A B} (f : A -> list B) l l' :
  Permutation l l' -> Permutation (flat_map f l) (flat_map f l').
Proof.
  induction 1 as [|a l l' _ IH|a b l|l l' l'' _ IH1 _ IH2]; cbn.
  - constructor.
  - now apply Permutation_app_head.
  - rewrite !app_assoc. apply Permutation_app_tail, Permutation_app_comm.
  - now transitivity (flat_map f l').
Qed.

Lemma flat_map_perm_ext {A B} (f g : A -> list B) l :
  (forall a, In a l -> Permutation (f a) (g a)) ->
  Permutation (flat_map f l) (flat_map g l).
Proof.
  induction l as [|a l IH]; intros H; [constructor|]. cbn.
  apply Permutation_app; [apply H; now left | apply IH; intros; apply H; now right].
Qed.

(** The category of an id, when ids are pairwise distinct: at most one
    category takes a product. *)
Lemma one_category {A} (key : A -> Z) (v : A -> bool) (x : A) (cs : list Category) :
  NoDup (map cat_id cs) ->
  flat_map (fun c => if (key x =? cat_id c) && v x then [x] else []) cs =
  if v x && existsb (fun c => key x =? cat_id c) cs then [x] else [].
Proof.
  induction cs as [|c cs IH]; intros Hnd; cbn [flat_map existsb map].
  - now rewrite andb_false_r.
  - cbn [map] in Hnd. apply NoDup_cons in Hnd as [Hc Hnd]. rewrite (IH Hnd).
    destruct (Z.eqb_spec (key x) (cat_id c)) as [E|E]; cbn [andb orb]; [|reflexivity].
    assert (Hno : existsb (fun c => key x =? cat_id c) cs = false).
    { apply not_true_is_false. intros H. apply existsb_exists in H as (c' & Hc' & E').
      apply Z.eqb_eq in E'. apply Hc. apply list_elem_of_In.
      rewrite <- E, E'. now apply in_map. }
    rewrite Hno, andb_false_r, app_nil_r, andb_true_r. reflexivity.
Qed.

Lemma buckets_by_id_perm {A} (key : A -> Z) (v : A -> bool) (l : list A) (cs : list Category) :
  NoDup (map cat_id cs) ->
  Permutation
    (flat_map (fun c => List.filter (fun x => (key x =? cat_id c) && v x) l) cs)
    (List.filter (fun x => v x && existsb (fun c => key x =? cat_id c) cs) l).
Proof.
  intros Hnd. induction l as [|x l IH].
  - rewrite flat_map_nil; [reflexivity | auto].
  - cbn [List.filter].
    transitivity (flat_map (fun c => if (key x =? cat_id c) && v x then [x] else []) cs ++
                  flat_map (fun c => List.filter (fun x => (key x =? cat_id c) && v x) l) cs).
    + rewrite <- flat_map_app_perm. apply Permutation_refl'.
      apply flat_map_ext_on. intros c _.
      now destruct ((key x =? cat_id c) && v x).
    + rewrite (one_category key v x cs Hnd).
      destruct (v x && existsb _ cs); cbn [app]; [now constructor | exact IH].
Qed.

End ExportFacts.

(** X11: when the ids of the categories are pairwise distinct, the export
    table lists, each once, the products that are not hidden (or all of
    them when hidden products are shown) and whose category exists; under
    a consistent collation the rows of each category stand in the order
    of the names. *)
Theorem exportRows_lists_visible_products
  (localeCompare : string -> string -> Z)
  (products : list Product) (categories : list Category) (st : FilterState) :
  NoDup (map cat_id categories) ->
  let rows := exportRows localeCompare products categories st in
  Permutation
    (export_products rows)
    (List.filter (fun p => (showHidden st || not_hidden p) &&
                           existsb (fun c => category_id p =? cat_id c) categories)
                 products) /\
  (consistent localeCompare ->
   forall cat, In cat categories ->
     StronglySorted (precedes (fun a b => localeCompare (name a) (name b)))
       (List.filter (fun p => category_id p =? cat_id cat) (export_products rows))).
Proof.
  intros Hnd rows. unfold rows, exportRows.
  rewrite ViewFacts.export_products_flat_map.
  set (S := sort compareCategories categories).
  assert (HS : Permutation S categories) by apply SortFacts.sort_perm.
  assert (HndS : NoDup (map cat_id S)).
  { rewrite (Permutation_map cat_id HS). exact Hnd. }
  assert (E : flat_map (fun a => export_products (export_category localeCompare products st a)) S =
              flat_map (fun a => sort (fun a b => localeCompare (name a) (name b))
                (List.filter (fun p => (category_id p =? cat_id a) &&
                                       (showHidden st || not_hidden p)) products)) S).
  { apply GroupFacts.flat_map_ext_on. intros a _. apply ViewFacts.export_products_category. }
  rewrite E. clear E. split.
  - rewrite (ExportFacts.flat_map_perm_ext _
               (fun a => List.filter (fun p => (category_id p =? cat_id a) &&
                                               (showHidden st || not_hidden p)) products)).
    2:{ intros a _. apply SortFacts.sort_perm. }
    rewrite (ExportFacts.buckets_by_id_perm category_id _ products S HndS).
    apply Permutation_refl'. apply GroupFacts.filter_ext_on. intros p _. f_equal.
    apply eq_true_iff_eq. rewrite !existsb_exists.
    split; intros (c & Hc & Ec); exists c; (split; [|exact Ec]).
    + now rewrite <- HS.
    + now rewrite HS.
  - intros Hc cat Hcat.
    assert (Hcmp : consistent (fun a b : Product => localeCompare (name a) (name b))).
    { destruct Hc as [Ht Htr]. split.
      - intros a b. apply Ht.
      - intros a b c. apply Htr. }
    rewrite PipelineFacts.filter_flat_map.
    clear HS. induction S as [|c S IH]; [constructor|].
    cbn [map] in HndS. apply NoDup_cons in HndS as [Hc' HndS]. cbn [flat_map].
    assert (Hother : forall c' (l : list Product), cat_id c' <> cat_id cat ->
              List.filter (fun p => category_id p =? cat_id cat)
                (sort (fun a b => localeCompare (name a) (name b))
                   (List.filter (fun p => (category_id p =? cat_id c') &&
                                          (showHidden st || not_hidden p)) l)) = []).
    { intros c' l Hne. rewrite (SortFacts.filter_sort _ Hcmp), GroupFacts.filter_twice.
      rewrite (GroupFacts.filter_ext_on _ (fun _ => false)).
      - replace (List.filter (fun _ => false) l) with (@nil Product)
          by (clear; induction l as [|x l IH]; [reflexivity | exact IH]).
        reflexivity.
      - intros p _. destruct (Z.eqb_spec (category_id p) (cat_id c')) as [Ep|]; [|reflexivity].
        cbn. rewrite andb_comm. cbn.
        destruct (Z.eqb_spec (category_id p) (cat_id cat)); [congruence|].
        reflexivity. }
    destruct (Z.eq_dec (cat_id c) (cat_id cat)) as [Eid|Eid].
    + rewrite GroupFacts.flat_map_nil.
      * rewrite app_nil_r. apply PipelineFacts.StronglySorted_filter.
        now apply SortFacts.sort_sorted.
      * intros a Ha. apply Hother. intros Ea. apply Hc'. apply list_elem_of_In.
        rewrite Eid, <- Ea. now apply in_map.
    + rewrite (Hother c products Eid). now apply IH.
Qed.

Lemma exportRows_lists_visible_products_witness :
  Permutation
    (export_products (exportRows Samples.byte_order Samples.products Samples.categories
                        Samples.no_filter))
    [Samples.blue_1970; Samples.legacy_product].
Proof.
  apply (exportRows_lists_visible_products Samples.byte_order Samples.products
           Samples.categories Samples.no_filter).
  apply (bool_decide_unpack _). vm_compute. reflexivity.
Defined.

(** ** The tables of the server *)

Module ScanFacts.

Import SortFacts GroupFacts PipelineFacts.

(** A comparator that compares an integer key. *)
Lemma by_key_consistent {A} (key : A -> Z) : consistent (fun a b => key a - key b).
Proof. split; unfold precedes; intros; lia. Qed.

Lemma StronglySorted_weaken {A} (R R' : A -> A -> Prop) l :
  (forall a b, R a b -> R' a b) -> StronglySorted R l -> StronglySorted R' l.
Proof.
  intros H. induction 1 as [|a l Hs IH Ha]; constructor; [exact IH|].
  eapply List.Forall_impl; [|exact Ha]. apply H.
Qed.

(** Two arrangements of the same rows, one in the order of a key and one
    in its strict order, are the same list. *)
Lemma sorted_perm_unique {A} (key : A -> Z) (l1 l2 : list A) :
  StronglySorted (fun a b => key a <= key b) l1 ->
  StronglySorted (fun a b => key a < key b) l2 ->
  Permutation l1 l2 -> l1 = l2.
Proof.
  revert l2. induction l1 as [|a t1 IH]; intros l2 H1 H2 Hp.
  - now apply Permutation_nil in Hp.
  - destruct l2 as [|b t2]; [now apply Permutation_sym, Permutation_nil in Hp|].
    apply StronglySorted_inv in H1 as [H1 Ha], H2 as [H2 Hb].
    rewrite List.Forall_forall in Ha, Hb.
    assert (E : a = b).
    { assert (Hb1 : In b (a :: t1)) by (rewrite Hp; now left).
      assert (Ha2 : In a (b :: t2)) by (rewrite <- Hp; now left).
      destruct Hb1 as [E|Hb1]; [exact E|]. destruct Ha2 as [E|Ha2]; [now symmetry|].
      specialize (Ha _ Hb1). specialize (Hb _ Ha2). lia. }
    subst b. f_equal. apply IH; trivial. now apply Permutation_cons_inv in Hp.
Qed.

Lemma sort_unique {A} (key : A -> Z) (l l' : list A) :
  Permutation l l' ->
  StronglySorted (fun a b => key a < key b) l' ->
  sort (fun a b => key a - key b) l = l'.
Proof.
  intros Hp Hs. apply (sorted_perm_unique key); [|exact Hs|].
  - generalize (sort_sorted _ (by_key_consistent key) l).
    apply StronglySorted_weaken. unfold precedes. intros; lia.
  - now rewrite sort_perm.
Qed.

Lemma strictly_sorted {A} (key : A -> Z) (l : list A) :
  StronglySorted (fun a b => key a <= key b) l -> NoDup (map key l) ->
  StronglySorted (fun a b => key a < key b) l.
Proof.
  induction 1 as [|a l Hs IH Ha]; intros Hnd; [constructor|].
  cbn [map] in Hnd. apply NoDup_cons in Hnd as [Hk Hnd].
  constructor; [now apply IH|].
  rewrite List.Forall_forall in *. intros b Hb.
  assert (key a <> key b).
  { intros E. apply Hk. apply list_elem_of_In. rewrite E. now apply in_map. }
  specialize (Ha b Hb). lia.
Qed.

Section Scan.

Context {A : Type}.

Lemma in_scan (table : gmap Z A) i x : In (i, x) (Api.scan table) <-> table !! i = Some x.
Proof.
  unfold Api.scan. rewrite in_sort, <- list_elem_of_In. apply elem_of_map_to_list.
Qed.

Lemma scan_sorted (table : gmap Z A) :
  StronglySorted (fun a b => fst a < fst b) (Api.scan table).
Proof.
  apply strictly_sorted.
  - generalize (sort_sorted _ (by_key_consistent (@fst Z A)) (map_to_list table)).
    apply StronglySorted_weaken. unfold precedes. intros; lia.
  - unfold Api.scan.
    rewrite (Permutation_map fst (sort_perm _ (map_to_list table))).
    apply NoDup_fst_map_to_list.
Qed.

Lemma strictly_sorted_NoDup (l : list (Z * A)) :
  StronglySorted (fun a b => fst a < fst b) l -> List.NoDup l.
Proof.
  induction 1 as [|a l Hs IH Ha]; constructor; [|exact IH].
  intros Hin. rewrite List.Forall_forall in Ha. specialize (Ha a Hin). lia.
Qed.

(** The scan is the one list of the rows in the order of the ids. *)
Lemma scan_unique (table : gmap Z A) (l : list (Z * A)) :
  StronglySorted (fun a b => fst a < fst b) l ->
  (forall i x, In (i, x) l <-> table !! i = Some x) ->
  l = Api.scan table.
Proof.
  intros Hs Hl. symmetry. apply sort_unique; [|exact Hs].
  apply NoDup_Permutation.
  - apply NoDup_map_to_list.
  - now apply NoDup_ListNoDup, strictly_sorted_NoDup.
  - intros [i x]. rewrite (list_elem_of_In l), Hl. apply elem_of_map_to_list.
Qed.

Lemma scan_delete (table : gmap Z A) i :
  Api.scan (delete i table) = List.filter (fun p => negb (fst p =? i)) (Api.scan table).
Proof.
  symmetry. apply scan_unique.
  - apply StronglySorted_filter, scan_sorted.
  - intros j x. rewrite filter_In, in_scan, lookup_delete_Some. cbn [fst].
    rewrite negb_true_iff, Z.eqb_neq. intuition congruence.
Qed.

Lemma scan_insert (table : gmap Z A) i x y :
  table !! i = Some x ->
  Api.scan (<[i := y]> table) =
  map (fun p => if fst p =? i then (i, y) else p) (Api.scan table).
Proof.
  intros Hi. symmetry. apply scan_unique.
  - generalize (scan_sorted table). generalize (Api.scan table).
    induction 1 as [|a l Hs IH Ha]; [constructor|]. cbn [map].
    constructor; [exact IH|].
    rewrite List.Forall_forall in *. intros b Hb. apply in_map_iff in Hb as (b' & <- & Hb').
    specialize (Ha b' Hb').
    destruct (Z.eqb_spec (fst a) i), (Z.eqb_spec (fst b') i); cbn [fst]; lia.
  - intros j z. rewrite in_map_iff, lookup_insert_Some. split.
    + intros ([k w] & E & Hin). apply in_scan in Hin. cbn [fst] in E.
      destruct (Z.eqb_spec k i) as [->|Hne]; injection E as <- <-; [now left | now right].
    + intros [[<- <-]|[Hne Hj]].
      * exists (i, x). cbn [fst]. rewrite Z.eqb_refl. split; [reflexivity | now apply in_scan].
      * exists (j, z). cbn [fst]. destruct (Z.eqb_spec j i); [congruence|].
        split; [reflexivity | now apply in_scan].
Qed.

End Scan.

Lemma scan_fmap {A B} (f : A -> B) (table : gmap Z A) :
  Api.scan (f <$> table) = map (prod_map Datatypes.id f) (Api.scan table).
Proof.
  unfold Api.scan. rewrite map_to_list_fmap.
  apply (sort_map (prod_map Datatypes.id f)). intros [i a] [j b]. reflexivity.
Qed.

End ScanFacts.

(** ** Reordering the categories *)

Module ReorderFacts.

Import SortFacts GroupFacts PipelineFacts ScanFacts.

Local Abbreviation set_order c n :=
  {| cat_id := cat_id c; cat_name := cat_name c; sort_order := n |}.

Local Abbreviation ordered_by os :=
  (fun c => match List.find (fun o => Api.o_id o =? cat_id c) os with
            | Some o => set_order c (Api.o_sort_order o)
            | None => c
            end).

Local Abbreviation orders_of N :=
  (imap (fun index cat => {| Api.o_id := cat_id cat;
                             Api.o_sort_order := Z.of_nat index |}) N).

(** The updates of a list of orders on distinct ids: every category takes
    the sort order of the order that names it. *)
Lemma reorderCategories_spec (os : list Api.Order) : forall T,
  NoDup (map Api.o_id os) ->
  Api.reorderCategories os T = map (ordered_by os) T.
Proof.
  unfold Api.reorderCategories.
  induction os as [|o os IH]; intros T Hnd; cbn [fold_left].
  - cbn. now rewrite map_id.
  - cbn [map] in Hnd. apply NoDup_cons in Hnd as [Ho Hnd]. rewrite (IH _ Hnd).
    unfold Api.update_sort_order. rewrite map_map. apply map_ext. intros c.
    cbn [List.find]. destruct (Z.eqb_spec (Api.o_id o) (cat_id c)) as [E|E].
    + rewrite <- E, Z.eqb_refl. cbn [cat_id].
      destruct (List.find _ os) as [o'|] eqn:F; [|reflexivity].
      apply find_some in F as [Hin F]. apply Z.eqb_eq in F.
      exfalso. apply Ho. apply list_elem_of_In. rewrite <- F. now apply in_map.
    + destruct (Z.eqb_spec (cat_id c) (Api.o_id o)); [congruence | reflexivity].
Qed.

Lemma find_unique {A} (P : A -> bool) (l : list A) : forall i a,
  l !! i = Some a -> P a = true ->
  (forall j b, l !! j = Some b -> P b = true -> j = i) ->
  List.find P l = Some a.
Proof.
  induction l as [|x l IH]; intros i a Hi Ha Hu; [discriminate|].
  cbn [List.find]. destruct (P x) eqn:Ex.
  - specialize (Hu 0%nat x eq_refl Ex). subst i. cbn in Hi. congruence.
  - destruct i as [|i]; [cbn in Hi; congruence|]. cbn in Hi.
    apply (IH i); trivial. intros j b Hj Hb.
    specialize (Hu (S j) b Hj Hb). lia.
Qed.

Lemma lookup_map {A B} (f : A -> B) (l : list A) i : map f l !! i = f <$> l !! i.
Proof. exact (list_lookup_fmap f l i). Qed.

Lemma NoDup_map_lookup {A} (key : A -> Z) (l : list A) i j a b :
  NoDup (map key l) -> l !! i = Some a -> l !! j = Some b -> key a = key b -> i = j.
Proof.
  intros Hnd Hi Hj E. apply (NoDup_lookup (map key l) i j (key a)); trivial.
  - now rewrite lookup_map, Hi.
  - now rewrite lookup_map, Hj, E.
Qed.

Lemma ordered_by_orders N i c :
  NoDup (map cat_id N) -> N !! i = Some c ->
  ordered_by (orders_of N) c = set_order c (Z.of_nat i).
Proof.
  intros Hnd Hi. cbv beta.
  rewrite (find_unique _ _ i {| Api.o_id := cat_id c; Api.o_sort_order := Z.of_nat i |}).
  - reflexivity.
  - now rewrite list_lookup_imap, Hi.
  - cbn. apply Z.eqb_refl.
  - intros j o Hj Ho. rewrite list_lookup_imap in Hj.
    destruct (N !! j) as [c'|] eqn:Ej; [|discriminate]. cbn in Hj. injection Hj as <-.
    cbn in Ho. apply Z.eqb_eq in Ho.
    now apply (NoDup_map_lookup cat_id N j i c' c).
Qed.

Lemma sorted_by_index {A} (R : A -> A -> Prop) (l : list A) :
  (forall i j a b, (i < j)%nat -> l !! i = Some a -> l !! j = Some b -> R a b) ->
  StronglySorted R l.
Proof.
  induction l as [|x l IH]; intros H; constructor.
  - apply IH. intros i j a b Hij Hi Hj. now apply (H (S i) (S j)); [lia | |].
  - apply List.Forall_forall. intros b Hb. apply list_elem_of_In, list_elem_of_lookup in Hb as [j Hj].
    now apply (H 0%nat (S j) x b); [lia | |].
Qed.

Lemma renumbered_sorted N :
  StronglySorted (fun a b => sort_order a < sort_order b) (renumbered N).
Proof.
  apply sorted_by_index. intros i j a b Hij Hi Hj. unfold renumbered in *.
  rewrite list_lookup_imap in Hi, Hj.
  destruct (N !! i); [|discriminate]. destruct (N !! j); [|discriminate].
  cbn in Hi, Hj. injection Hi as <-. injection Hj as <-. cbn. lia.
Qed.

Lemma reorder_then_list (newCategories table : list Category) :
  NoDup (map cat_id table) ->
  Permutation newCategories table ->
  handleReorderCategories newCategories table = renumbered newCategories.
Proof.
  intros Hnd Hperm.
  assert (HndN : NoDup (map cat_id newCategories)).
  { now rewrite (Permutation_map cat_id Hperm). }
  unfold handleReorderCategories. cbv zeta. rewrite reorderCategories_spec.
  2:{ replace (map Api.o_id _) with (map cat_id newCategories); [exact HndN|].
      apply list_eq. intros i. rewrite !lookup_map, list_lookup_imap.
      now destruct (newCategories !! i). }
  unfold Api.getCategories, compareCategories.
  apply (sort_unique sort_order); [|apply renumbered_sorted].
  transitivity (map (ordered_by (orders_of newCategories)) newCategories).
  { apply Permutation_map, Permutation_sym, Hperm. }
  replace (renumbered newCategories)
    with (map (ordered_by (orders_of newCategories)) newCategories); [reflexivity|].
  apply list_eq. intros i. unfold renumbered.
  rewrite lookup_map, list_lookup_imap.
  destruct (newCategories !! i) as [c|] eqn:Ei; [|reflexivity].
  cbn [fmap option_fmap option_map]. f_equal. now apply ordered_by_orders.
Qed.

Lemma renumbered_ids l : map cat_id (renumbered l) = map cat_id l.
Proof.
  apply list_eq; intros i; unfold renumbered.
  rewrite !lookup_map, list_lookup_imap. now destruct (l !! i).
Qed.

Lemma renumbered_names l : map cat_name (renumbered l) = map cat_name l.
Proof.
  apply list_eq; intros i; unfold renumbered.
  rewrite !lookup_map, list_lookup_imap. now destruct (l !! i).
Qed.

End ReorderFacts.



(** ** The list of products *)

Module ApiFacts.

Import Server SortFacts GroupFacts ViewFacts PipelineFacts ScanFacts.

Lemma BINARY_consistent : consistent Api.BINARY.
Proof. exact byte_order_consistent. Qed.

Lemma by_sort_order_and_name_consistent : consistent Api.by_sort_order_and_name.
Proof.
  destruct BINARY_consistent as [Ht Htr]. unfold precedes in *.
  split; unfold precedes, Api.by_sort_order_and_name.
  - intros a b.
    destruct (Z.compare_spec (category_sort_order a) (category_sort_order b)) as [E|E|E];
    destruct (Z.compare_spec (category_sort_order b) (category_sort_order a)) as [E'|E'|E'];
      try lia. apply Ht.
  - intros a b c.
    destruct (Z.compare_spec (category_sort_order a) (category_sort_order b)) as [E|E|E];
    destruct (Z.compare_spec (category_sort_order b) (category_sort_order c)) as [E'|E'|E'];
    destruct (Z.compare_spec (category_sort_order a) (category_sort_order c)) as [E''|E''|E''];
      try lia. apply Htr.
Qed.

Lemma in_mapM {A B} (f : A -> option B) l k y :
  mapM f l = Some k -> In y k <-> exists x, In x l /\ f x = Some y.
Proof.
  intros H. apply mapM_Some in H. induction H as [|x z l k Hx _ IH]; cbn.
  - split; [contradiction | now intros (? & [] & _)].
  - rewrite IH. split.
    + intros [<-|(x' & Hin & Hf)]; [exists x; auto | exists x'; auto].
    + intros (x' & [<-|Hin] & Hf); [left; congruence | right; now exists x'].
Qed.

Lemma in_join categories products c i r :
  In (c, (i, r)) (Api.join categories products) <->
  products !! i = Some r /\ In c categories /\ Api.in_category r c = true.
Proof.
  unfold Api.join. rewrite in_flat_map. split.
  - intros ([j r'] & Hs & Hin). apply in_map_iff in Hin as (c' & E & Hc).
    injection E as -> -> ->. apply in_scan in Hs. apply filter_In in Hc as [Hc Hk].
    now cbn [snd] in Hk.
  - intros (Hs & Hc & Hk). exists (i, r). split; [now apply in_scan|].
    apply in_map_iff. exists c. split; [reflexivity|]. apply filter_In. now split.
Qed.

Lemma product_of_Some c i r p :
  Api.product_of (c, (i, r)) = Some p ->
  id p = i /\ category_id p = cat_id c /\ category_name p = cat_name c /\
  category_sort_order p = sort_order c /\
  r_name r = SqlText (name p) /\ Api.sql_integer (r_is_hidden r) = Some (is_hidden p) /\
  cost_usd p = Api.json_of_sql (r_cost_usd r) /\
  carton_usd p = Api.json_of_sql (r_carton_usd r) /\
  profit_syp p = Api.json_of_sql (r_profit_syp r) /\
  wholesale_profit_syp p = Api.json_of_sql (r_wholesale_profit_syp r) /\
  wholesale_carton_usd p = Api.json_of_sql (r_wholesale_carton_usd r).
Proof.
  unfold Api.product_of. destruct (r_name r) as [| |n]; try discriminate. cbn.
  destruct (Api.sql_integer (r_is_hidden r)) as [h|]; [|discriminate]. cbn.
  intros E. injection E as <-. cbn. repeat split.
Qed.

Lemma getProducts_Some categories products l :
  Api.getProducts categories products = Some l ->
  exists served, mapM Api.product_of (Api.join categories products) = Some served /\
                 l = sort Api.by_sort_order_and_name served.
Proof.
  unfold Api.getProducts. destruct (mapM _ _) as [served|]; [|discriminate].
  cbn. intros E. injection E as <-. now exists served.
Qed.

End ApiFacts.



Module DeleteFacts.

Import Server SortFacts GroupFacts ViewFacts PipelineFacts ScanFacts ApiFacts.

Lemma filter_true {A} (l : list A) : List.filter (fun _ => true) l = l.
Proof. induction l as [|a l IH]; [reflexivity | cbn; now rewrite IH]. Qed.

Lemma join_delete categories (products : gmap Z row) i :
  Api.join categories (delete i products) =
  List.filter (fun jr => negb (fst (snd jr) =? i)) (Api.join categories products).
Proof.
  unfold Api.join. rewrite scan_delete, filter_flat_map.
  generalize (Api.scan products). intros l.
  induction l as [|[j r] l IH]; [reflexivity|]. cbn [List.filter flat_map fst snd].
  destruct (Z.eqb_spec j i) as [->|Hne]; cbn [negb flat_map].
  - rewrite IH, (filter_ext_on _ (fun _ => false)), ColumnFacts.filter_false; [reflexivity|].
    intros x Hx. apply in_map_iff in Hx as (c & <- & _). cbn. now rewrite Z.eqb_refl.
  - rewrite IH. f_equal. symmetry.
    rewrite (filter_ext_on _ (fun _ => true)); [apply filter_true|].
    intros x Hx. apply in_map_iff in Hx as (c & <- & _). cbn.
    destruct (Z.eqb_spec j i); [contradiction | reflexivity].
Qed.

Lemma mapM_filter {A B} (f : A -> option B) (Q : A -> bool) (Q' : B -> bool) l k :
  (forall x y, f x = Some y -> Q' y = Q x) ->
  mapM f l = Some k ->
  mapM f (List.filter Q l) = Some (List.filter Q' k).
Proof.
  intros HQ H. apply mapM_Some in H. apply mapM_Some.
  induction H as [|x y l k Hx _ IH]; cbn; [constructor|].
  rewrite (HQ x y Hx). destruct (Q x); [now constructor | exact IH].
Qed.

End DeleteFacts.



(** ** The migration *)

Module SyncFacts.

Import Server SortFacts GroupFacts ViewFacts PipelineFacts ScanFacts ApiFacts.

Lemma sync_row_idempotent r : Api.sync_row (Api.sync_row r) = Api.sync_row r.
Proof.
  assert (H : Api.sync_row r = r \/ Api.needs_sync (Api.sync_row r) <> Some true).
  { unfold Api.sync_row. destruct (Api.needs_sync r) as [[|]|] eqn:E; auto.
    right. unfold Api.needs_sync in *. cbn [r_cost_usd r_carton_usd].
    destruct (r_carton_usd r) as [|y|t]; cbn in *.
    - now destruct (Api.sql_or _ _) as [[|]|].
    - destruct y as [[]|[]| |[] m e]; cbn in *; try discriminate;
        now destruct (Api.sql_or _ _) as [[|]|].
    - discriminate. }
  destruct H as [H|H]; [now rewrite !H|].
  unfold Api.sync_row at 1.
  destruct (Api.needs_sync (Api.sync_row r)) as [[|]|]; [contradiction | reflexivity..].
Qed.

Lemma or_same a b : Num.or (Num.or a a) b = Num.or a b.
Proof. unfold Num.or. destruct (Num.truthy a) eqn:E; now rewrite ?E. Qed.

(** The effective cost of the price calculator reads the same from a row
    and from the row the migration makes of it. *)
Lemma costUsd_sync S2N r :
  Num.or (Num.or (Number S2N (Api.json_of_sql (r_cost_usd (Api.sync_row r))))
                 (Number S2N (Api.json_of_sql (r_carton_usd (Api.sync_row r)))))
         Num.zero =
  Num.or (Num.or (Number S2N (Api.json_of_sql (r_cost_usd r)))
                 (Number S2N (Api.json_of_sql (r_carton_usd r))))
         Num.zero.
Proof.
  unfold Api.sync_row, Api.needs_sync.
  destruct (r_cost_usd r) as [|x|t] eqn:Ec; cbn [Api.sql_eq_zero Api.sql_is_null Api.sql_or].
  - destruct (Api.sql_gt_zero (r_carton_usd r)) as [[|]|]; cbn; rewrite ?Ec; cbn;
      try reflexivity.
    apply or_same.
  - destruct x as [s|[]| |[] m e]; cbn;
      destruct (Api.sql_gt_zero (r_carton_usd r)) as [[|]|]; cbn; rewrite ?Ec; cbn;
      try reflexivity.
    apply or_same.
  - destruct (Api.sql_gt_zero (r_carton_usd r)) as [[|]|]; cbn; rewrite ?Ec; reflexivity.
Qed.

Lemma sync_row_frame r :
  r_category_id (Api.sync_row r) = r_category_id r /\
  r_name (Api.sync_row r) = r_name r /\
  r_profit_syp (Api.sync_row r) = r_profit_syp r /\
  r_wholesale_profit_syp (Api.sync_row r) = r_wholesale_profit_syp r /\
  r_carton_usd (Api.sync_row r) = r_carton_usd r /\
  r_wholesale_carton_usd (Api.sync_row r) = r_wholesale_carton_usd r /\
  r_is_hidden (Api.sync_row r) = r_is_hidden r.
Proof. unfold Api.sync_row. destruct (Api.needs_sync r) as [[|]|]; repeat split. Qed.

(** Two products that the order of the server and the price calculator
    cannot tell apart. *)
Local Abbreviation same_row S2N rate :=
  (fun p p' : Product =>
     id p' = id p /\ name p' = name p /\
     category_sort_order p' = category_sort_order p /\
     calculateSYP S2N rate p' = calculateSYP S2N rate p).

Lemma product_of_sync S2N rate c i r p :
  Api.product_of (c, (i, r)) = Some p ->
  exists p', Api.product_of (c, (i, Api.sync_row r)) = Some p' /\ same_row S2N rate p p'.
Proof.
  intros H. generalize (costUsd_sync S2N r).
  destruct (sync_row_frame r) as (_ & Hn & Hp & _ & _ & _ & Hh).
  revert H. unfold Api.product_of. rewrite Hn, Hh.
  destruct (Api.sql_text (r_name r)) as [n|]; [|discriminate]. cbn.
  destruct (Api.sql_integer (r_is_hidden r)) as [h|]; [|discriminate]. cbn.
  intros E Hcost. injection E as <-. eexists. split; [reflexivity|]. cbn.
  repeat split.
  unfold calculateSYP, result_of, base_of, costUsd_of, profit_of. cbn.
  now rewrite Hcost, Hp.
Qed.

Lemma join_sync categories (products : gmap Z row) :
  Api.join categories (Api.sync_cost_usd products) =
  map (fun jr => (fst jr, (fst (snd jr), Api.sync_row (snd (snd jr)))))
      (Api.join categories products).
Proof.
  unfold Api.join, Api.sync_cost_usd. rewrite scan_fmap.
  generalize (Api.scan products). intros l.
  induction l as [|[i r] l IH]; [reflexivity|].
  cbn [map flat_map prod_map fst snd]. rewrite List.map_app, IH. f_equal.
  rewrite map_map. cbn [fst snd].
  rewrite (filter_ext_on (Api.in_category (Api.sync_row r)) (Api.in_category r)); [reflexivity|].
  intros c _. unfold Api.in_category.
  now destruct (sync_row_frame r) as (-> & _).
Qed.

Lemma mapM_related {A B} (f : A -> option B) (h : A -> A) (R : B -> B -> Prop) l k :
  (forall x y, f x = Some y -> exists y', f (h x) = Some y' /\ R y y') ->
  mapM f l = Some k ->
  exists k', mapM f (map h l) = Some k' /\ Forall2 R k k'.
Proof.
  intros Hf H. apply mapM_Some in H.
  induction H as [|x y l k Hx _ (k' & Hk' & HR)].
  - exists []. split; [reflexivity | constructor].
  - destruct (Hf x y Hx) as (y' & Hy' & Hyy').
    exists (y' :: k'). split; [|now constructor].
    cbn [map mapM]. now rewrite Hy', Hk'.
Qed.

Lemma sort_insert_related {A} (R : A -> A -> Prop) (cmp : A -> A -> Z) x x' l l' :
  (forall a a' b b', R a a' -> R b b' -> cmp a' b' = cmp a b) ->
  R x x' -> Forall2 R l l' ->
  Forall2 R (sort_insert cmp x l) (sort_insert cmp x' l').
Proof.
  intros Hcmp Hx H. induction H as [|y y' l l' Hy Hl IH]; cbn.
  - now repeat constructor.
  - rewrite (Hcmp x x' y y' Hx Hy). destruct (cmp x y <=? 0).
    + constructor; [exact Hx|]. now constructor.
    + constructor; [exact Hy | exact IH].
Qed.

Lemma sort_related {A} (R : A -> A -> Prop) (cmp : A -> A -> Z) l l' :
  (forall a a' b b', R a a' -> R b b' -> cmp a' b' = cmp a b) ->
  Forall2 R l l' -> Forall2 R (sort cmp l) (sort cmp l').
Proof.
  intros Hcmp H. induction H as [|x x' l l' Hx _ IH]; [constructor|].
  unfold sort in *. cbn. now apply sort_insert_related.
Qed.

Lemma getProducts_sync S2N rate categories products l :
  Api.getProducts categories products = Some l ->
  exists l', Api.getProducts categories (Api.sync_cost_usd products) = Some l' /\
             Forall2 (same_row S2N rate) l l'.
Proof.
  intros H. apply getProducts_Some in H as (served & Hm & ->).
  unfold Api.getProducts. rewrite join_sync.
  assert (Hrow : forall jr p, Api.product_of jr = Some p ->
            exists p', Api.product_of (fst jr, (fst (snd jr), Api.sync_row (snd (snd jr))))
                       = Some p' /\ same_row S2N rate p p').
  { intros [c [i r]] p Hp. now apply product_of_sync. }
  destruct (mapM_related _ _ _ _ _ Hrow Hm) as (served' & -> & HR).
  cbn. eexists. split; [reflexivity|].
  apply sort_related; [|exact HR].
  intros a a' b b' (_ & Hna & Hsa & _) (_ & Hnb & Hsb & _).
  unfold Api.by_sort_order_and_name. now rewrite Hna, Hnb, Hsa, Hsb.
Qed.

End SyncFacts.



(** ** Saving an edit *)

Module EditFacts.

Import Server NumFacts ParseFacts ApiFacts.

Lemma ratio_sign v d : 0 <= v -> Num.has_sign false (Num.ratio v d).
Proof.
  intros Hv. unfold Num.ratio. destruct v as [|p|p]; [reflexivity | | lia].
  cbn [Num.exact]. unfold Num.div, SFdiv. cbn [xorb].
  generalize (SFdiv_core_nonneg Num.prec Num.emax p 0 d 0).
  destruct (SFdiv_core_binary _ _ _ _ _ _) as [[mz ez] lz]. cbn [fst]. intros Hz.
  now apply binary_round_aux_sign.
Qed.

Lemma parseFloat_sign s :
  Num.isNaN (parseFloat s) = true \/ Num.has_sign false (parseFloat s).
Proof.
  unfold parseFloat.
  generalize (read_digits_spec s 0 0%nat 0 ltac:(lia) ltac:(cbn; lia)).
  destruct (read_digits 0 0 s) as [[iv ic] rest]. intros (Hv & _ & _).
  assert (Hint : Num.isNaN (if (ic =? 0)%nat then Num.NaN else Num.ratio iv 1) = true \/
                 Num.has_sign false (if (ic =? 0)%nat then Num.NaN else Num.ratio iv 1)).
  { destruct (ic =? 0)%nat; [now left | right; apply ratio_sign; lia]. }
  destruct rest as [|ch r]; [exact Hint|].
  destruct ch as [[] [] [] [] [] [] [] []]; try exact Hint.
  generalize (read_digits_spec r iv 0%nat (0 + Z.of_nat (ic - 0)) ltac:(lia) Hv).
  destruct (read_digits iv 0 r) as [[v fc] rest']. intros (Hv' & _ & _).
  destruct (ic + fc =? 0)%nat; [now left | right; apply ratio_sign; lia].
Qed.

Lemma parseNumber_sign s : Num.has_sign false (parseNumber (JStr s)).
Proof.
  unfold parseNumber. destruct s as [|c r]; [reflexivity|]. cbv zeta.
  destruct (parseFloat_sign
              (strip_non_numeric (replace_commas (toString (JStr (String c r))))))
    as [H|H].
  - now rewrite H.
  - destruct (parseFloat _); [exact H.. | contradiction | exact H].
Qed.

Lemma parseNumber_finite s :
  (String.length s <= 307)%nat -> Num.isFinite (parseNumber (JStr s)) = true.
Proof.
  intros Hlen. unfold parseNumber. destruct s as [|c r]; [reflexivity|].
  cbv zeta. set (text := strip_non_numeric _).
  assert (Ht : (String.length text <= 307)%nat).
  { subst text. cbn [toString].
    generalize (length_strip_non_numeric (replace_commas (String c r))).
    rewrite length_replace_commas. lia. }
  destruct (parseFloat_finite_or_NaN text Ht) as [H|H].
  - rewrite H. reflexivity.
  - destruct (Num.isNaN (parseFloat text)); [reflexivity | exact H].
Qed.

(** A number parsed from a text of the editor goes through JSON as it
    is. *)
Lemma json_number_parseNumber s :
  (String.length s <= 307)%nat ->
  json_number (parseNumber (JStr s)) = JNum (parseNumber (JStr s)).
Proof.
  intros Hlen. generalize (parseNumber_finite s Hlen) (parseNumber_sign s).
  destruct (parseNumber (JStr s)) as [sg|sg| |sg m e]; cbn; try discriminate.
  - now intros _ ->.
  - reflexivity.
Qed.

(** Two products of one cost that is not zero and of one profit have one
    price, whatever their legacy costs. *)
Lemma calculateSYP_of_cost S2N rate p q x :
  cost_usd p = JNum x -> cost_usd q = JNum x -> Num.truthy x = true ->
  profit_syp p = profit_syp q ->
  calculateSYP S2N rate p = calculateSYP S2N rate q.
Proof.
  intros Hp Hq Ht Hpr.
  unfold calculateSYP, result_of, base_of, costUsd_of, profit_of.
  rewrite Hp, Hq, Hpr. cbn [Number].
  assert (E : forall y, Num.or (Num.or x y) Num.zero = x).
  { intros y. unfold Num.or. now rewrite !Ht. }
  now rewrite !E.
Qed.

End EditFacts.



(** X17: when no category bears the name of the bucket of the products
    without a category, and a product without one passes the filter, that
    bucket is the last category of the view, behind the categories of the
    list. *)
Theorem uncategorized_bucket_is_last
  (toLowerCase : string -> string) (localeCompare : string -> string -> Z)
  (products : list Product) (categories : list Category) (st : FilterState) (p : Product) :
  ~ In uncategorized (map cat_name categories) ->
  In p products -> passes toLowerCase st p = true -> category_name p = ""%string ->
  exists front,
    categories_of (groupedData toLowerCase localeCompare products categories st)
      = front ++ [uncategorized] /\
    forall c, In c front -> In c (map cat_name categories).
Proof.
  intros Hno Hp Hpass Hname.
  unfold groupedData. cbn [categories_of].
  rewrite PipelineFacts.orderedCategories_candidates. unfold candidate_names. cbv zeta.
  set (names := map cat_name (sort compareCategories categories)).
  set (G := build_groups _).
  assert (Hnames : forall c, In c names -> In c (map cat_name categories)).
  { intros c Hc. unfold names in Hc. apply in_map_iff in Hc as (x & <- & Hx).
    apply in_map. now apply SortFacts.in_sort in Hx. }
  assert (E : existsb (String.eqb uncategorized) names = false).
  { apply not_true_is_false. intros H. apply GroupFacts.existsb_eqb_In in H. auto. }
  rewrite E, List.filter_app. cbn [List.filter].
  assert (Hg : has_group G uncategorized = true).
  { apply GroupFacts.has_group_build_groups. exists p. split.
    - apply ViewFacts.in_filtered_of. now split.
    - unfold group_key. now rewrite Hname. }
  rewrite Hg. exists (List.filter (has_group G) names). split; [reflexivity|].
  intros c Hc. apply filter_In in Hc as [Hc _]. now apply Hnames.
Qed.

Lemma uncategorized_bucket_is_last_witness :
  exists front,
    categories_of (groupedData Samples.uncased Samples.byte_order
                     (Cases.loose :: Samples.products) Samples.categories Samples.no_filter)
      = front ++ [uncategorized] /\
    forall c, In c front -> In c (map cat_name Samples.categories).
Proof.
  apply (uncategorized_bucket_is_last Samples.uncased Samples.byte_order
           (Cases.loose :: Samples.products) Samples.categories Samples.no_filter
           Cases.loose).
  - vm_compute. intros [H|[H|[]]]; discriminate.
  - now left.
  - reflexivity.
  - reflexivity.
Defined.

(** ** Hiding and showing *)

Module ClickFacts.

Lemma find_by_id pid (l : list Product) p :
  List.find (fun q => id q =? pid) l = Some p -> In p l /\ id p = pid.
Proof. intros H. apply find_some in H as [Hin E]. apply Z.eqb_eq in E. now split. Qed.

Lemma split_by_id pid (l : list Product) p :
  NoDup (map id l) -> In p l -> id p = pid ->
  exists l1 l2, l = l1 ++ p :: l2 /\ forall q, In q l1 \/ In q l2 -> id q <> pid.
Proof.
  intros Hnd Hin Hid. apply in_split in Hin as (l1 & l2 & ->).
  exists l1, l2. split; [reflexivity|].
  rewrite List.map_app in Hnd. cbn [map] in Hnd.
  intros q Hq E. apply NoDup_app in Hnd as (_ & Hd & Hnd2).
  apply NoDup_cons in Hnd2 as [Hp2 _]. destruct Hq as [Hq|Hq].
  - apply (Hd (id q)); [apply list_elem_of_In; now apply in_map|].
    rewrite E, <- Hid. now left.
  - apply Hp2. rewrite Hid, <- E. apply list_elem_of_In. now apply in_map.
Qed.

Lemma updated_split pid updates l1 p l2 :
  (forall q, In q l1 \/ In q l2 -> id q <> pid) -> id p = pid ->
  updated_products pid updates (l1 ++ p :: l2) = l1 ++ apply_updates p updates :: l2.
Proof.
  intros Hother Hid. unfold updated_products. rewrite List.map_app. cbn [map].
  rewrite Hid, Z.eqb_refl. f_equal; [|f_equal].
  - rewrite <- (map_id l1) at 2. apply map_ext_in. intros q Hq.
    destruct (Z.eqb_spec (id q) pid) as [E|_]; [|reflexivity].
    now apply Hother in E; [|left].
  - rewrite <- (map_id l2) at 2. apply map_ext_in. intros q Hq.
    destruct (Z.eqb_spec (id q) pid) as [E|_]; [|reflexivity].
    now apply Hother in E; [|right].
Qed.

Lemma find_split pid l1 (p : Product) l2 :
  (forall q, In q l1 \/ In q l2 -> id q <> pid) -> id p = pid ->
  List.find (fun q => id q =? pid) (l1 ++ p :: l2) = Some p.
Proof.
  intros Hother Hid. induction l1 as [|x l1 IH]; cbn.
  - now rewrite Hid, Z.eqb_refl.
  - destruct (Z.eqb_spec (id x) pid) as [E|_].
    + exfalso. apply (Hother x); [left; now left | exact E].
    + apply IH. intros q [Hq|Hq]; apply Hother; [left; now right | now right].
Qed.

End ClickFacts.

(** X18: on a list of products of distinct ids, two clicks on the entry of
    the context menu that hides or shows a product leave the products of
    the client as they were. *)
Theorem toggle_hidden_click_twice
  (pid : Z) (product : Product) (products : list Product) (table : gmap Z Server.row) :
  NoDup (map id products) ->
  List.find (fun p => id p =? pid) products = Some product ->
  is_hidden product = 0 \/ is_hidden product = 1 ->
  fst (toggle_hidden_click pid (toggle_hidden_click pid (products, table))) = products.
Proof.
  intros Hnd Hfind Hflag.
  destruct (ClickFacts.find_by_id _ _ _ Hfind) as [Hin Hid].
  destruct (ClickFacts.split_by_id pid products product Hnd Hin Hid)
    as (l1 & l2 & -> & Hother).
  unfold toggle_hidden_click at 2. cbn [fst]. rewrite Hfind.
  unfold handleUpdateProduct at 1. cbn [fst snd].
  rewrite (ClickFacts.updated_split _ _ _ _ _ Hother Hid).
  unfold toggle_hidden_click. cbn [fst].
  rewrite (ClickFacts.find_split pid l1 _ l2 Hother) by exact Hid.
  unfold handleUpdateProduct. cbn [fst].
  rewrite (ClickFacts.updated_split _ _ _ _ _ Hother) by exact Hid.
  do 2 f_equal. unfold toggle_hidden, apply_updates. cbn.
  destruct product as [i ci cn cs n c pr wp k wk h]. cbn in *.
  destruct Hflag as [-> | ->]; reflexivity.
Qed.

Lemma toggle_hidden_click_twice_witness :
  fst (toggle_hidden_click 7 (toggle_hidden_click 7 (Samples.products, Cases.one_row)))
    = Samples.products.
Proof.
  apply (toggle_hidden_click_twice 7 Samples.winston Samples.products Cases.one_row).
  - apply (bool_decide_unpack _). vm_compute. reflexivity.
  - reflexivity.
  - right. reflexivity.
Defined.

(** ** Texts without digits *)

Module DigitFacts.

Lemma is_digit_comma_dot c : is_digit (if is_comma c then "."%char else c) = is_digit c.
Proof.
  unfold is_comma. destruct (Ascii.eqb_spec c ","%char) as [->|]; reflexivity.
Qed.

(** Without a digit in the text, the cleaned text is made of dots. *)
Lemma cleaned_dots s :
  Forall (fun c => is_digit c = false) (list_ascii_of_string s) ->
  Forall (fun c => c = "."%char)
         (list_ascii_of_string (strip_non_numeric (replace_commas s))).
Proof.
  induction s as [|c s IH]; cbn [list_ascii_of_string replace_commas strip_non_numeric];
    intros H; [constructor|].
  apply Forall_cons in H as [Hc Hs].
  rewrite is_digit_comma_dot, Hc. cbn [orb].
  destruct (is_dot _) eqn:E; [|now apply IH].
  cbn [list_ascii_of_string]. constructor; [|now apply IH].
  unfold is_dot in E. now apply Ascii.eqb_eq in E.
Qed.

Lemma read_digits_dots acc cnt s :
  Forall (fun c => c = "."%char) (list_ascii_of_string s) ->
  read_digits acc cnt s = (acc, cnt, s).
Proof.
  destruct s as [|c s]; [reflexivity|]. cbn [list_ascii_of_string].
  intros H. apply Forall_cons in H as [-> _]. reflexivity.
Qed.

Lemma parseFloat_dots s :
  Forall (fun c => c = "."%char) (list_ascii_of_string s) -> parseFloat s = Num.NaN.
Proof.
  intros H. unfold parseFloat. rewrite (read_digits_dots 0 0%nat s H).
  destruct s as [|c s]; [reflexivity|]. cbn [list_ascii_of_string] in H.
  apply Forall_cons in H as [-> Hs]. now rewrite (read_digits_dots 0 0%nat s Hs).
Qed.

End DigitFacts.

(** X19: a text without a digit parses to 0, whatever else it holds. *)
Theorem parseNumber_without_digits (s : string) :
  Forall (fun c => is_digit c = false) (list_ascii_of_string s) ->
  parseNumber (JStr s) = Num.zero.
Proof.
  intros H. unfold parseNumber. destruct s as [|c s]; [reflexivity|].
  cbv zeta. cbn [toString].
  now rewrite (DigitFacts.parseFloat_dots _ (DigitFacts.cleaned_dots _ H)).
Qed.

Lemma parseNumber_without_digits_witness : parseNumber (JStr "-.,abc") = Num.zero.
Proof.
  apply (parseNumber_without_digits "-.,abc").
  repeat constructor.
Defined.





(** ** The view after a reorder *)

Module OrderFacts.

Lemma filter_sublist {A} (P : A -> bool) (l : list A) : sublist (List.filter P l) l.
Proof.
  induction l as [|a l IH]; cbn; [constructor|].
  destruct (P a); now constructor.
Qed.

(** The categories as the server lists them after a reorder are in the
    order of their sort orders already. *)
Lemma sort_renumbered l : sort compareCategories (renumbered l) = renumbered l.
Proof.
  unfold compareCategories.
  apply (ScanFacts.sort_unique sort_order); [reflexivity|].
  apply ReorderFacts.renumbered_sorted.
Qed.

End OrderFacts.



(** ** Numerals of integers *)

Module IntegerFacts.

Import NumFacts ExactFacts RangeFacts.

(** The digits of a numeral read onto a positive value. *)
Lemma read_digits_numeral_acc d : forall p cnt,
  read_digits (Zpos p) cnt (DecimalString.NilEmpty.string_of_uint d) =
  (Zpos (Pos.of_uint_acc d p),
   (cnt + String.length (DecimalString.NilEmpty.string_of_uint d))%nat,
   EmptyString).
Proof.
  induction d as [|d IH|d IH|d IH|d IH|d IH|d IH|d IH|d IH|d IH|d IH]; intros p cnt;
    cbn [DecimalString.NilEmpty.string_of_uint read_digits Pos.of_uint_acc String.length];
    [now rewrite Nat.add_0_r|..];
    (change (is_digit _) with true; cbv iota;
     match goal with
     | |- read_digits ?v _ _ = (Zpos (Pos.of_uint_acc _ ?q), _, _) =>
         replace v with (Zpos q) by (vm_compute digit_value; lia)
     end;
     rewrite IH; do 2 f_equal; lia).
Qed.

(** The digits of a numeral read from 0: leading zeros count as digits
    and add nothing. *)
Lemma read_digits_numeral d : forall cnt,
  read_digits 0 cnt (DecimalString.NilEmpty.string_of_uint d) =
  (Z.of_N (Pos.of_uint d),
   (cnt + String.length (DecimalString.NilEmpty.string_of_uint d))%nat,
   EmptyString).
Proof.
  induction d as [|d IH|d IH|d IH|d IH|d IH|d IH|d IH|d IH|d IH|d IH]; intros cnt;
    cbn [DecimalString.NilEmpty.string_of_uint read_digits Pos.of_uint String.length];
    [now rewrite Nat.add_0_r|..];
    change (is_digit _) with true; cbv iota.
  - change (10 * 0 + digit_value "0") with 0. rewrite IH. do 2 f_equal. lia.
  - change (10 * 0 + digit_value "1") with (Zpos 1).
    rewrite read_digits_numeral_acc. do 2 f_equal. lia.
  - change (10 * 0 + digit_value "2") with (Zpos 2).
    rewrite read_digits_numeral_acc. do 2 f_equal. lia.
  - change (10 * 0 + digit_value "3") with (Zpos 3).
    rewrite read_digits_numeral_acc. do 2 f_equal. lia.
  - change (10 * 0 + digit_value "4") with (Zpos 4).
    rewrite read_digits_numeral_acc. do 2 f_equal. lia.
  - change (10 * 0 + digit_value "5") with (Zpos 5).
    rewrite read_digits_numeral_acc. do 2 f_equal. lia.
  - change (10 * 0 + digit_value "6") with (Zpos 6).
    rewrite read_digits_numeral_acc. do 2 f_equal. lia.
  - change (10 * 0 + digit_value "7") with (Zpos 7).
    rewrite read_digits_numeral_acc. do 2 f_equal. lia.
  - change (10 * 0 + digit_value "8") with (Zpos 8).
    rewrite read_digits_numeral_acc. do 2 f_equal. lia.
  - change (10 * 0 + digit_value "9") with (Zpos 9).
    rewrite read_digits_numeral_acc. do 2 f_equal. lia.
Qed.

(** A numeral is made of digits: the two replacements leave it as it
    is. *)
Lemma cleaned_numeral d :
  strip_non_numeric (replace_commas (DecimalString.NilEmpty.string_of_uint d)) =
  DecimalString.NilEmpty.string_of_uint d.
Proof.
  induction d as [|d IH|d IH|d IH|d IH|d IH|d IH|d IH|d IH|d IH|d IH];
    cbn [DecimalString.NilEmpty.string_of_uint replace_commas strip_non_numeric];
    [reflexivity|..];
    (change (is_comma _) with false; cbv iota;
     change (is_digit _) with true; cbn [orb]; now rewrite IH).
Qed.

Lemma div_eucl_1 m : Z.div_eucl m 1 = (m, 0).
Proof.
  generalize (Z.div_1_r m) (Z.mod_1_r m). unfold Z.div, Z.modulo.
  destruct (Z.div_eucl m 1) as [q r]. cbn. congruence.
Qed.

(** The number of an integer below 2^53 written as a fraction over 1 is
    that integer. *)
Lemma ratio_integer p :
  Zpos p < 2 ^ 53 -> Num.to_Z (Num.ratio (Zpos p) 1) = Some (Zpos p).
Proof.
  intros Hb. unfold Num.ratio. cbn [Num.exact]. unfold Num.div, SFdiv. cbn [xorb].
  unfold SFdiv_core_binary.
  assert (Hd := digits2_pos_le p 53 ltac:(lia) Hb).
  assert (Hd0 : 0 < Zpos (digits2_pos p)) by lia.
  change (Zdigits2 (Zpos p)) with (Zpos (digits2_pos p)).
  change (Zdigits2 1) with 1.
  unfold fexp, SpecFloat.emin, Num.prec, Num.emax.
  set (d1 := Zpos (digits2_pos p)) in *.
  replace (Z.min (Z.max (d1 + 0 - (1 + 0) - 53) (3 - 1024 - 53)) (0 - 0))
    with (d1 - 54) by lia.
  replace (0 - 0 - (d1 - 54)) with (54 - d1) by lia.
  destruct (54 - d1) as [|k|k] eqn:Ek; try lia.
  rewrite Z.shiftl_mul_pow2 by lia. rewrite div_eucl_1.
  change (new_location 1 0) with loc_Exact.
  assert (Hpos : 0 < Zpos p * 2 ^ Zpos k).
  { apply Z.mul_pos_pos; [lia | apply Z.pow_pos_nonneg; lia]. }
  destruct (Zpos p * 2 ^ Zpos k) as [|M|M] eqn:EM; try lia.
  destruct (binary_round_aux_exact false M (d1 - 54) p (Zpos k)) as (m' & Hm' & Hr).
  - lia.
  - now rewrite EM.
  - fold d1. lia.
  - fold d1. lia.
  - cbv zeta in Hr. fold d1 in Hr, Hm'. unfold Num.prec, Num.emax in Hr. rewrite Hr.
    rewrite (to_Z_finite false m' _ (Zpos p) (53 - d1)).
    + cbn [cond_Zopp]. f_equal.
      replace (53 - d1 + (d1 - 54 + (d1 + Zpos k - 53))) with 0 by lia. lia.
    + lia.
    + lia.
    + rewrite Hm'. do 2 f_equal. lia.
Qed.

Lemma string_of_uint_not_empty d :
  d <> Decimal.Nil -> DecimalString.NilEmpty.string_of_uint d <> EmptyString.
Proof. destruct d; [contradiction | discriminate..]. Qed.

End IntegerFacts.

(** X23: the decimal numeral of a natural number below 2^53 parses to
    that number, exactly. *)
Theorem parseNumber_reads_integers (n : N) :
  (n < 2 ^ 53)%N ->
  Num.to_Z (parseNumber (JStr (numeral n))) = Some (Z.of_N n).
Proof.
  intros Hn. destruct n as [|p]; [reflexivity|].
  assert (Hd : N.to_uint (Npos p) <> Decimal.Nil).
  { intros E. generalize (DecimalN.Unsigned.of_to (Npos p)). rewrite E. discriminate. }
  unfold numeral. set (d := N.to_uint (Npos p)) in *.
  assert (Hs : DecimalString.NilZero.string_of_uint d =
               DecimalString.NilEmpty.string_of_uint d) by now destruct d.
  rewrite Hs.
  assert (Hne := IntegerFacts.string_of_uint_not_empty d Hd).
  assert (Hv : Pos.of_uint d = Npos p) by apply (DecimalN.Unsigned.of_to (Npos p)).
  assert (Hr : Num.to_Z (Num.ratio (Zpos p) 1) = Some (Zpos p)).
  { apply IntegerFacts.ratio_integer.
    apply N2Z.inj_lt in Hn. rewrite N2Z.inj_pow in Hn. exact Hn. }
  unfold parseNumber.
  destruct (DecimalString.NilEmpty.string_of_uint d) as [|c s] eqn:Es; [contradiction|].
  cbv zeta. cbn [toString]. rewrite <- Es, IntegerFacts.cleaned_numeral.
  unfold parseFloat. rewrite IntegerFacts.read_digits_numeral, Hv, Es.
  cbn [String.length Nat.add Nat.eqb Z.of_N].
  now rewrite (ExactFacts.to_Z_Some_not_NaN _ _ Hr).
Qed.

Lemma parseNumber_reads_integers_witness :
  Num.to_Z (parseNumber (JStr (numeral 11700))) = Some 11700.
Proof.
  apply (parseNumber_reads_integers 11700). reflexivity.
Defined.

Module CommaFacts.

Lemma replace_commas_append a b :
  replace_commas (String.append a b) =
  String.append (replace_commas a) (replace_commas b).
Proof.
  induction a as [|c a IH]; [reflexivity|].
  change (String.append (String c a) b) with (String c (String.append a b)).
  cbn [replace_commas]. rewrite IH. reflexivity.
Qed.

End CommaFacts.

(** X24: a comma reads as a decimal point: two texts that differ in one
    place, a comma in the one and a dot in the other, parse alike. *)
Theorem parseNumber_comma_is_dot (before after : string) :
  parseNumber (JStr (String.append before (String "," after))) =
  parseNumber (JStr (String.append before (String "." after))).
Proof.
  assert (E : replace_commas (String.append before (String "," after)) =
              replace_commas (String.append before (String "." after))).
  { now rewrite !CommaFacts.replace_commas_append. }
  unfold parseNumber. destruct before as [|c before].
  - change (String.append EmptyString ?x) with x in *. cbn [toString]. now rewrite E.
  - change (String.append (String c before) ?x) with (String c (String.append before x)) in *.
    cbn [toString]. now rewrite E.
Qed.
